(** * The save-file patch engine of the Motorsport Manager practice driver fixer

    A shallow embedding of [SaveFixer/src/SaveFile.cpp]: the container header
    check, the quote- and brace-aware JSON navigator, the extraction of the
    player team's three drivers, and the construction of the patched buffers;
    then the vocabulary of the statements; then the properties, by component.

    Conventions of the embedding.
    - A [std::u8string_view] is a [list ascii]; [json_data[i]] is [at_ json i],
      and a read at or beyond the end (for which the source has no defined
      behaviour) yields the outcome [Undefined].
    - Every [throw SaveFixerException(...)] is [Throw e], where [e] names the
      message that the source builds.
    - Offsets handed around by the navigator are [nat]: they index a buffer in
      memory, so [i + 1] on an offset inside the buffer never wraps; each place
      where the source can step below zero is written out.  The size arithmetic
      of the writer, where [size_t] wrap-around matters, is done in [Z] modulo
      [2^64].
    - A loop whose index does not simply count down carries a fuel argument;
      the outcome [OutOfFuel] is only produced when the fuel is used up.  The
      quote scans, the brace scans and the loop over the references are shown
      never to use it up; the forward walk over the keys of an object can,
      through the fall-through in [find_matching_brace].
    - The LZ4 calls and the file mappings are outside the embedding: a session
      is opened from the two decompressed buffers, and writing is followed up
      to the uncompressed output. *)

From Stdlib Require Import Ascii String ZArith Lia Bool Arith List Permutation Sorted.
Import ListNotations.

(* ------------------------------------------------------------------------- *)
(** * The embedding of the source *)

(** ** Characters, buffers, outcomes *)

Definition u8string := list ascii.

Definition ch_quote : ascii := "034"%char.
Definition ch_backslash : ascii := "092"%char.
Definition ch_lbrace : ascii := "{"%char.
Definition ch_rbrace : ascii := "}"%char.
Definition ch_lbracket : ascii := "["%char.
Definition ch_rbracket : ascii := "]"%char.
Definition ch_colon : ascii := ":"%char.
Definition ch_comma : ascii := ","%char.

(** Buffers of the examples are written with an apostrophe where the buffer
    has a double quote. *)
Definition json_of (s : string) : u8string :=
  map (fun c => if Ascii.eqb c "'"%char then ch_quote else c) (list_ascii_of_string s).

Inductive internal_error : Type :=
| CompressionFailure   (* internal error: compression failure *)
| Unreachable          (* internal error: unreachable *)
| CopyOutOfMemory      (* internal error: copy out of memory *)
| BadCopy.             (* internal error: bad copy *)

Inductive error : Type :=
| InvalidFormat                  (* ... is not a valid Motorsport Manager save file *)
| UnsupportedVersion (v : Z)     (* ... save file version (v) is unsupported *)
| TooLarge                       (* ... save file is too large / output too large *)
| CorruptPayload                 (* ... is invalid or corrupted *)
| MalformedJson                  (* invalid save file *)
| PlayerTeamNotFound             (* could not find player team data in save file *)
| SaveNameNotFound               (* could not find save name in save file *)
| DriverCountMismatch            (* unable to locate team's 3 drivers in save file *)
| InvalidPositionValue           (* invalid driver position in save file *)
| InvalidDriverName              (* invalid driver name in save file *)
| InternalError (w : internal_error)
| StdOutOfRange.                 (* std::out_of_range raised by substr *)

Inductive result (A : Type) : Type :=
| Ok (a : A)
| Throw (e : error)
| Undefined
| OutOfFuel.

Arguments Ok {A} a.
Arguments Throw {A} e.
Arguments Undefined {A}.
Arguments OutOfFuel {A}.

Definition bind {A B : Type} (r : result A) (k : A -> result B) : result B :=
  match r with
  | Ok a => k a
  | Throw e => Throw e
  | Undefined => Undefined
  | OutOfFuel => OutOfFuel
  end.

Notation "x <- r ;; k" := (bind r (fun x => k))
  (at level 61, r at next level, right associativity).

Definition at_ (s : u8string) (i : nat) : option ascii := nth_error s i.

(** [json_data[i]], continued by [k]. *)
Definition read {A : Type} (s : u8string) (i : nat) (k : ascii -> result A) : result A :=
  match at_ s i with
  | Some c => k c
  | None => Undefined
  end.

Definition is_open (c : ascii) : bool := Ascii.eqb c ch_lbrace || Ascii.eqb c ch_lbracket.
Definition is_close (c : ascii) : bool := Ascii.eqb c ch_rbrace || Ascii.eqb c ch_rbracket.
Definition closer_of (c : ascii) : ascii := if Ascii.eqb c ch_lbrace then ch_rbrace else ch_rbracket.
Definition opener_of (c : ascii) : ascii := if Ascii.eqb c ch_rbrace then ch_lbrace else ch_lbracket.

(* ------------------------------------------------------------------------- *)
(** ** Reading the save file header *)

Definition mm_save_file_magic : Z := 1932684653.
Definition mm_save_file_supported_version : Z := 4.
Definition max_decompressed_buffer_size : Z := 4 * 1024 * 1024 * 1024.
Definition sizeof_SaveFileHeader : nat := 24.

Record SaveFileHeader : Type := {
  magic : Z;
  version : Z;
  compressed_info_size : Z;
  decompressed_info_size : Z;
  compressed_data_size : Z;
  decompressed_data_size : Z
}.

Definition byte_val (b : Byte.byte) : Z := Z.of_N (Byte.to_N b).

(** A 32-bit pattern read as the two's complement [int] it stands for. *)
Definition as_int (u : Z) : Z := (if u <? 2 ^ 31 then u else u - 2 ^ 32)%Z.

(** The [int] stored little-endian at byte offset [off]. *)
Definition int_at (file_data : list Byte.byte) (off : nat) : Z :=
  match firstn 4 (skipn off file_data) with
  | [b0; b1; b2; b3] =>
      as_int (byte_val b0 + 2 ^ 8 * byte_val b1 + 2 ^ 16 * byte_val b2 + 2 ^ 24 * byte_val b3)%Z
  | _ => 0%Z
  end.

Definition header_of (file_data : list Byte.byte) : SaveFileHeader :=
  {| magic := int_at file_data 0;
     version := int_at file_data 4;
     compressed_info_size := int_at file_data 8;
     decompressed_info_size := int_at file_data 12;
     compressed_data_size := int_at file_data 16;
     decompressed_data_size := int_at file_data 20 |}.

Definition read_save_file_header (file_data : list Byte.byte) : result SaveFileHeader :=
  if length file_data <? sizeof_SaveFileHeader then Throw InvalidFormat
  else
    let header := header_of file_data in
    if negb (magic header =? mm_save_file_magic)%Z
       || (compressed_info_size header <=? 0)%Z
       || (decompressed_info_size header <=? 0)%Z
       || (compressed_data_size header <=? 0)%Z
       || (decompressed_data_size header <=? 0)%Z
    then Throw InvalidFormat
    else if negb (version header =? mm_save_file_supported_version)%Z
    then Throw (UnsupportedVersion (version header))
    else
      let total_decompressed_size :=
        (decompressed_info_size header + decompressed_data_size header)%Z in
      if (max_decompressed_buffer_size <? total_decompressed_size)%Z then Throw TooLarge
      else Ok header.

(** The bytes of an [int], for building headers. *)
Definition byte_of (z : Z) : Byte.byte :=
  match Byte.of_N (Z.to_N (z mod 256)%Z) with
  | Some b => b
  | None => Byte.x00
  end.

Definition int_bytes (z : Z) : list Byte.byte :=
  let u := (z mod 2 ^ 32)%Z in
  [byte_of u; byte_of (u / 2 ^ 8)%Z; byte_of (u / 2 ^ 16)%Z; byte_of (u / 2 ^ 24)%Z].

Definition header_bytes (h : SaveFileHeader) : list Byte.byte :=
  int_bytes (magic h) ++ int_bytes (version h)
  ++ int_bytes (compressed_info_size h) ++ int_bytes (decompressed_info_size h)
  ++ int_bytes (compressed_data_size h) ++ int_bytes (decompressed_data_size h).

(* ------------------------------------------------------------------------- *)
(** ** Navigating the JSON data: quotes *)

(** [s.substr(a + 1, (b - a) - 1)]; every caller has [a < b <= size]. *)
Definition string_view_between (s : u8string) (a b : nat) : u8string :=
  firstn (b - a - 1) (skipn (a + 1) s).

(** The loop of [count_preceeding_backslashes], at index [i]. *)
Fixpoint count_preceeding_backslashes_from (json_data : u8string) (offset i : nat)
  : result nat :=
  read json_data i (fun c =>
    if negb (Ascii.eqb c ch_backslash) then Ok (offset - i - 1)
    else match i with
         | 0 => Ok (offset - i)
         | S i' => count_preceeding_backslashes_from json_data offset i'
         end).

Definition count_preceeding_backslashes (json_data : u8string) (offset : nat) : result nat :=
  match offset with
  | 0 => Ok 0
  | S i => count_preceeding_backslashes_from json_data offset i
  end.

(** The loop of [find_closing_quote], at index [i] with the flag [escaped]. *)
Fixpoint find_closing_quote_from (fuel : nat) (json_data : u8string) (i : nat)
  (escaped : bool) : result nat :=
  if length json_data <=? i then Throw MalformedJson
  else
    match fuel with
    | 0 => OutOfFuel
    | S fuel' =>
        read json_data i (fun c =>
          if Ascii.eqb c ch_backslash then
            find_closing_quote_from fuel' json_data (S i) (negb escaped)
          else if Ascii.eqb c ch_quote then
            if negb escaped then Ok i
            else find_closing_quote_from fuel' json_data (S i) false
          else find_closing_quote_from fuel' json_data (S i) false)
    end.

Definition find_closing_quote (json_data : u8string) (offset_of_opening_quote : nat)
  : result nat :=
  find_closing_quote_from (length json_data - (offset_of_opening_quote + 1)) json_data
    (offset_of_opening_quote + 1) false.

(** The loop of [rfind_opening_quote], at index [i].  After the body the
    source leaves the loop when [i == 0] and otherwise decrements [i]. *)
Fixpoint rfind_opening_quote_from (fuel : nat) (json_data : u8string) (i : nat)
  : result nat :=
  match fuel with
  | 0 => OutOfFuel
  | S fuel' =>
      let next (i : nat) :=
        match i with
        | 0 => Throw MalformedJson
        | S i' => rfind_opening_quote_from fuel' json_data i'
        end in
      read json_data i (fun c =>
        if Ascii.eqb c ch_quote then
          escape_count <- count_preceeding_backslashes json_data i ;;
          if escape_count =? 0 then Ok i
          else if escape_count mod 2 =? 1 then next (i - escape_count)
          else Throw MalformedJson
        else next i)
  end.

Definition rfind_opening_quote (json_data : u8string) (offset_of_closing_quote : nat)
  : result nat :=
  match offset_of_closing_quote with
  | 0 => Throw MalformedJson
  | S i => rfind_opening_quote_from (S i) json_data i
  end.

(* ------------------------------------------------------------------------- *)
(** ** Navigating the JSON data: braces *)

(** The loop of [find_closing_brace], at index [i]. *)
Fixpoint find_closing_brace_from (fuel : nat) (json_data : u8string) (i : nat)
  (closing_brace_stack : list ascii) : result nat :=
  if length json_data <=? i then Throw MalformedJson
  else
    match fuel with
    | 0 => OutOfFuel
    | S fuel' =>
        read json_data i (fun c =>
          if Ascii.eqb c ch_quote then
            j <- find_closing_quote json_data i ;;
            find_closing_brace_from fuel' json_data (S j) closing_brace_stack
          else if is_open c then
            find_closing_brace_from fuel' json_data (S i) (closer_of c :: closing_brace_stack)
          else if is_close c then
            match closing_brace_stack with
            | [] => Undefined
            | top :: rest =>
                if Ascii.eqb c top then
                  match rest with
                  | [] => Ok i
                  | _ :: _ => find_closing_brace_from fuel' json_data (S i) rest
                  end
                else Throw MalformedJson
            end
          else find_closing_brace_from fuel' json_data (S i) closing_brace_stack)
    end.

Definition find_closing_brace (json_data : u8string) (starting_offset : nat) (brace : ascii)
  : result nat :=
  find_closing_brace_from (length json_data - starting_offset) json_data starting_offset [brace].

(** The loop of [rfind_opening_brace], at index [i].  After the body the
    source throws when [i == 0] and otherwise decrements [i]. *)
Fixpoint rfind_opening_brace_from (fuel : nat) (json_data : u8string) (i : nat)
  (opening_brace_stack : list ascii) : result nat :=
  match fuel with
  | 0 => OutOfFuel
  | S fuel' =>
      let next (i : nat) (stack : list ascii) :=
        match i with
        | 0 => Throw MalformedJson
        | S i' => rfind_opening_brace_from fuel' json_data i' stack
        end in
      read json_data i (fun c =>
        if Ascii.eqb c ch_quote then
          j <- rfind_opening_quote json_data i ;;
          next j opening_brace_stack
        else if is_close c then next i (opener_of c :: opening_brace_stack)
        else if is_open c then
          match opening_brace_stack with
          | [] => Undefined
          | top :: rest =>
              if Ascii.eqb c top then
                match rest with
                | [] => Ok i
                | _ :: _ => next i rest
                end
              else Throw MalformedJson
          end
        else next i opening_brace_stack)
  end.

Definition rfind_opening_brace (json_data : u8string) (starting_offset : nat) (brace : ascii)
  : result nat :=
  rfind_opening_brace_from (S starting_offset) json_data starting_offset [brace].

(** [find_matching_brace].  The case of the opening braces has no [break]:
    when the brace is the last character of the buffer, control falls into
    the case of the closing braces. *)
Definition find_matching_brace (json_data : u8string) (offset_of_brace : nat) : result nat :=
  read json_data offset_of_brace (fun c =>
    let closing_case :=
      match offset_of_brace with
      | 0 => Throw MalformedJson
      | S before => rfind_opening_brace json_data before (opener_of c)
      end in
    if is_open c then
      if offset_of_brace + 1 <? length json_data
      then find_closing_brace json_data (offset_of_brace + 1) (closer_of c)
      else closing_case
    else if is_close c then closing_case
    else Throw MalformedJson).

(* ------------------------------------------------------------------------- *)
(** ** Navigating the JSON data: the key/value pairs of an object *)

Fixpoint u8_eqb (a b : u8string) : bool :=
  match a, b with
  | [], [] => true
  | x :: a', y :: b' => Ascii.eqb x y && u8_eqb a' b'
  | _, _ => false
  end.

(** [i < json_data.size() && json_data[i] == c]. *)
Definition char_is (json_data : u8string) (i : nat) (c : ascii) : bool :=
  (i <? length json_data) &&
  match at_ json_data i with
  | Some x => Ascii.eqb x c
  | None => false
  end.

(** A callback has the state it captures by reference as an argument and a
    result; the boolean is what the source's callback returns. *)
Definition KeyValueCallback (St : Type) : Type :=
  St -> u8string -> u8string -> nat -> result (St * bool).

(** The first index at or after [j] whose character satisfies [p], over the
    rest [l] of the buffer from index [j] on. *)
Fixpoint index_where (p : ascii -> bool) (l : list ascii) (j : nat) : option nat :=
  match l with
  | [] => None
  | c :: l' => if p c then Some j else index_where p l' (S j)
  end.

(** The [value_end_pos] of the forward loop. *)
Definition value_end_from (json_data : u8string) (value_start_pos : nat) : result nat :=
  read json_data value_start_pos (fun c =>
    if Ascii.eqb c ch_quote then find_closing_quote json_data value_start_pos
    else if is_open c then find_matching_brace json_data value_start_pos
    else
      match index_where (fun x => Ascii.eqb x ch_comma || Ascii.eqb x ch_rbrace)
                        (skipn (value_start_pos + 1) json_data) (value_start_pos + 1) with
      | Some j => Ok (j - 1)
      | None => Throw MalformedJson
      end).

(** The first loop of [for_sibling_key_values_in_object], at index [i].  The
    boolean of the result is false when the callback asked to stop. *)
Fixpoint sibling_keys_forward {St : Type} (fuel : nat) (json_data : u8string) (i : nat)
  (callback : KeyValueCallback St) (st : St) : result (St * bool) :=
  if negb (char_is json_data i ch_quote) then Ok (st, true)
  else
    match fuel with
    | 0 => OutOfFuel
    | S fuel' =>
        let key_start_quote_pos := i in
        key_end_quote_pos <- find_closing_quote json_data key_start_quote_pos ;;
        let key := string_view_between json_data key_start_quote_pos key_end_quote_pos in
        if (length json_data <=? key_end_quote_pos + 2)
           || negb (char_is json_data (key_end_quote_pos + 1) ch_colon)
        then Throw MalformedJson
        else
          let value_start_pos := key_end_quote_pos + 2 in
          r <- callback st json_data key value_start_pos ;;
          if negb (snd r) then Ok (fst r, false)
          else
            value_end_pos <- value_end_from json_data value_start_pos ;;
            let i1 := value_end_pos + 1 in
            let i2 := if char_is json_data i1 ch_comma then S i1 else i1 in
            sibling_keys_forward fuel' json_data i2 callback (fst r)
    end.

(** The backward search for the colon before a value that is neither a
    string nor an object or array. *)
Fixpoint value_start_after_colon (json_data : u8string) (j : nat) : result nat :=
  match j with
  | 0 => Throw MalformedJson
  | S j' =>
      read json_data j' (fun c =>
        if Ascii.eqb c ch_colon then Ok j else value_start_after_colon json_data j')
  end.

(** The [value_start_pos] of the backward loop. *)
Definition value_start_before (json_data : u8string) (value_end_pos : nat) : result nat :=
  read json_data value_end_pos (fun c =>
    if Ascii.eqb c ch_quote then rfind_opening_quote json_data value_end_pos
    else if is_close c then find_matching_brace json_data value_end_pos
    else value_start_after_colon json_data value_end_pos).

(** The second loop of [for_sibling_key_values_in_object], at index [i]. *)
Fixpoint sibling_keys_backward {St : Type} (fuel : nat) (json_data : u8string) (i : nat)
  (callback : KeyValueCallback St) (st : St) : result St :=
  if i =? 0 then Ok st
  else
    read json_data i (fun c =>
      if Ascii.eqb c ch_lbrace then Ok st
      else
        match fuel with
        | 0 => OutOfFuel
        | S fuel' =>
            if negb (Ascii.eqb c ch_comma) then Throw MalformedJson
            else
              value_start_pos <- value_start_before json_data (i - 1) ;;
              if value_start_pos <? 3 then Throw MalformedJson
              else
                read json_data (value_start_pos - 1) (fun c1 =>
                  if negb (Ascii.eqb c1 ch_colon) then Throw MalformedJson
                  else
                    read json_data (value_start_pos - 2) (fun c2 =>
                      if negb (Ascii.eqb c2 ch_quote) then Throw MalformedJson
                      else
                        let key_end_quote_pos := value_start_pos - 2 in
                        key_start_quote_pos <- rfind_opening_quote json_data key_end_quote_pos ;;
                        if key_start_quote_pos =? 0 then Throw MalformedJson
                        else
                          let key :=
                            string_view_between json_data key_start_quote_pos key_end_quote_pos in
                          r <- callback st json_data key value_start_pos ;;
                          if negb (snd r) then Ok (fst r)
                          else sibling_keys_backward fuel' json_data (key_start_quote_pos - 1)
                                 callback (fst r)))
        end).

(** [for_sibling_key_values_in_object].  With [start_offset = 0] the second
    loop starts from [start_offset - 1], the largest [size_t], and reads
    there. *)
Definition for_sibling_key_values_in_object {St : Type} (json_data : u8string)
  (start_offset : nat) (callback : KeyValueCallback St) (st : St) : result St :=
  r <- sibling_keys_forward (length json_data) json_data start_offset callback st ;;
  if negb (snd r) then Ok (fst r)
  else
    match start_offset with
    | 0 => Undefined
    | S i => sibling_keys_backward (S i) json_data i callback (fst r)
    end.

Definition for_key_values_in_object {St : Type} (json_data : u8string)
  (object_opening_brace_offset : nat) (callback : KeyValueCallback St) (st : St) : result St :=
  let start_pos := object_opening_brace_offset + 1 in
  if start_pos <? length json_data then
    read json_data start_pos (fun c =>
      if Ascii.eqb c ch_quote then
        for_sibling_key_values_in_object json_data start_pos callback st
      else if Ascii.eqb c ch_rbrace then Ok st
      else Throw MalformedJson)
  else Throw MalformedJson.

Definition lookup_value_in_object (json_data : u8string) (object_opening_brace_offset : nat)
  (sought_key : u8string) : result (option nat) :=
  for_key_values_in_object json_data object_opening_brace_offset
    (fun value_pos _ key value_offset =>
       if u8_eqb key sought_key then Ok (Some value_offset, false)
       else Ok (value_pos, true))
    None.

(* ------------------------------------------------------------------------- *)
(** ** Finding the player team and its drivers *)

Fixpoint starts_with (s pattern : u8string) {struct pattern} : bool :=
  match pattern, s with
  | [], _ => true
  | p :: pattern', c :: s' => Ascii.eqb p c && starts_with s' pattern'
  | _ :: _, [] => false
  end.

(** The search of [find] over the rest [s] of the buffer from index [i] on. *)
Fixpoint find_from (pattern s : u8string) (i : nat) : option nat :=
  if starts_with s pattern then Some i
  else match s with
       | [] => None
       | _ :: s' => find_from pattern s' (S i)
       end.

(** [s.find(pattern, pos)]; [None] is [npos]. *)
Definition find (s pattern : u8string) (pos : nat) : option nat :=
  if length s <? pos then None else find_from pattern (skipn pos s) pos.

Definition player_team_obj_start : u8string := json_of "'mPlayerTeam':{".
Definition id_key : u8string := json_of "$id".

Definition get_player_team_id (json_data : u8string) : result u8string :=
  match find json_data player_team_obj_start 0 with
  | Some player_team_key_start =>
      let play_team_obj_opening_brace_pos :=
        player_team_key_start + length player_team_obj_start - 1 in
      id_value_pos <- lookup_value_in_object json_data play_team_obj_opening_brace_pos id_key ;;
      match id_value_pos with
      | Some p =>
          read json_data p (fun c =>
            if Ascii.eqb c ch_quote then
              value_closing_quote <- find_closing_quote json_data p ;;
              Ok (string_view_between json_data p value_closing_quote)
            else Throw PlayerTeamNotFound)
      | None => Throw PlayerTeamNotFound
      end
  | None => Throw PlayerTeamNotFound
  end.

Definition employeer_team_ref_str (team_id : u8string) : u8string :=
  json_of "'mEmployeerTeam':{'$ref':'" ++ team_id ++ json_of "'}".

(** The loop of [for_each_employeer_team_ref], at [start_pos]; [f] has the
    state it captures as an argument and a result. *)
Fixpoint for_each_ref_from {St : Type} (fuel : nat) (json_data pattern : u8string)
  (start_pos : nat) (f : St -> nat -> result St) (st : St) : result St :=
  match fuel with
  | 0 => OutOfFuel
  | S fuel' =>
      match find json_data pattern start_pos with
      | None => Ok st
      | Some ref_pos =>
          st' <- f st ref_pos ;;
          for_each_ref_from fuel' json_data pattern (ref_pos + 1) f st'
      end
  end.

Definition for_each_employeer_team_ref {St : Type} (json_data team_id : u8string)
  (f : St -> nat -> result St) (st : St) : result St :=
  for_each_ref_from (length json_data + 2) json_data (employeer_team_ref_str team_id) 0 f st.

Definition contract_key : u8string := json_of "'contract':".

(** [None] is [npos]. *)
Definition find_employeer_team_ref_contract_offset (json_data : u8string)
  (employeer_team_ref_offset : nat) : result (option nat) :=
  match employeer_team_ref_offset with
  | 0 => Ok None
  | S before =>
      object_start_pos <- rfind_opening_brace json_data before ch_lbrace ;;
      if (length contract_key <? object_start_pos)
         && u8_eqb (firstn (length contract_key)
                      (skipn (object_start_pos - length contract_key) json_data))
                   contract_key
      then Ok (Some (object_start_pos - length contract_key))
      else Ok None
  end.

Inductive DriverPosition : Type := reserve | car1 | car2.

Definition DriverPosition_eqb (a b : DriverPosition) : bool :=
  match a, b with
  | reserve, reserve | car1, car1 | car2, car2 => true
  | _, _ => false
  end.

Record Driver : Type := {
  name : u8string;
  position : DriverPosition;
  original_position : DriverPosition;
  car_id_file_offset : nat
}.

(** The constructor [Driver( driver_name, pos, offset )]. *)
Definition new_Driver (driver_name : u8string) (pos : DriverPosition) (offset : nat) : Driver :=
  {| name := driver_name; position := pos; original_position := pos;
     car_id_file_offset := offset |}.

Definition comma_or_rbrace (c : ascii) : bool := Ascii.eqb c ch_comma || Ascii.eqb c ch_rbrace.

Definition parse_driver_position (json_data : u8string) (value_offset : nat)
  : result DriverPosition :=
  if value_offset + 2 <? length json_data then
    read json_data value_offset (fun c0 =>
    read json_data (value_offset + 1) (fun c1 =>
    read json_data (value_offset + 2) (fun c2 =>
      if Ascii.eqb c0 "-"%char && Ascii.eqb c1 "1"%char && comma_or_rbrace c2 then Ok reserve
      else if Ascii.eqb c0 "0"%char && comma_or_rbrace c1 then Ok car1
      else if Ascii.eqb c0 "1"%char && comma_or_rbrace c1 then Ok car2
      else Throw InvalidPositionValue)))
  else Throw MalformedJson.

Definition parse_driver_name_string (json_data : u8string) (value_offset : nat)
  : result u8string :=
  read json_data value_offset (fun c =>
    if Ascii.eqb c ch_quote then
      q <- find_closing_quote json_data value_offset ;;
      Ok (string_view_between json_data value_offset q)
    else Throw InvalidDriverName).

(** What the callback of [maybe_get_driver] captures: [car_id_pos],
    [first_name] and [last_name]. *)
Definition driver_fields : Type := (option nat * option u8string * option u8string)%type.

Definition has_all_fields (st : driver_fields) : bool :=
  match st with
  | (Some _, Some _, Some _) => true
  | _ => false
  end.

Definition driver_field_callback : KeyValueCallback driver_fields :=
  fun st json key value_offset =>
    let '(car_id_pos, first_name, last_name) := st in
    st' <- (if u8_eqb key (json_of "mCarID") then Ok (Some value_offset, first_name, last_name)
            else if u8_eqb key (json_of "mFirstName") then
              n <- parse_driver_name_string json value_offset ;;
              Ok (car_id_pos, Some n, last_name)
            else if u8_eqb key (json_of "mLastName") then
              n <- parse_driver_name_string json value_offset ;;
              Ok (car_id_pos, first_name, Some n)
            else Ok st) ;;
    Ok (st', negb (has_all_fields st')).

Definition maybe_get_driver (json_data : u8string) (contract_key_offset : nat)
  : result (option Driver) :=
  st <- for_sibling_key_values_in_object json_data contract_key_offset
          driver_field_callback (None, None, None) ;;
  match st with
  | (Some car_id_pos, Some first_name, Some last_name) =>
      pos <- parse_driver_position json_data car_id_pos ;;
      Ok (Some (new_Driver (first_name ++ json_of " " ++ last_name) pos car_id_pos))
  | _ => Ok None
  end.

(** The body of the lambda that [get_driver_data_from_json] runs on each
    reference to the player team. *)
Definition collect_driver (save_data : u8string) (found_drivers : list Driver)
  (employeer_team_ref_offset : nat) : result (list Driver) :=
  contract_key_offset <-
    find_employeer_team_ref_contract_offset save_data employeer_team_ref_offset ;;
  match contract_key_offset with
  | Some c =>
      d <- maybe_get_driver save_data c ;;
      match d with
      | Some d => Ok (found_drivers ++ [d])
      | None => Ok found_drivers
      end
  | None => Ok found_drivers
  end.

(** [std::sort] with the comparison of [car_id_file_offset]s, as an
    insertion sort. *)
Fixpoint insert_driver (d : Driver) (l : list Driver) : list Driver :=
  match l with
  | [] => [d]
  | x :: l' =>
      if car_id_file_offset d <? car_id_file_offset x then d :: l
      else x :: insert_driver d l'
  end.

Definition sort_drivers (l : list Driver) : list Driver := fold_right insert_driver [] l.

Definition driver_array : Type := (Driver * Driver * Driver)%type.

Definition drivers_list (a : driver_array) : list Driver :=
  let '(d0, d1, d2) := a in [d0; d1; d2].

Definition get_driver_data_from_json (save_data : u8string) : result driver_array :=
  player_team_id <- get_player_team_id save_data ;;
  found_drivers <- for_each_employeer_team_ref save_data player_team_id
                     (collect_driver save_data) [] ;;
  if negb (length found_drivers =? 3) then Throw DriverCountMismatch
  else
    match sort_drivers found_drivers with
    | [d0; d1; d2] => Ok (d0, d1, d2)
    | _ => Undefined
    end.

Definition save_info_obj_start : u8string := json_of "'saveInfo':{".

(** [get_save_name]: the offset and the size of the save name. *)
Definition get_save_name (save_info : u8string) : result (nat * nat) :=
  match find save_info save_info_obj_start 0 with
  | Some save_info_key_start =>
      let save_info_obj_opening_brace_pos :=
        save_info_key_start + length save_info_obj_start - 1 in
      name_value_pos <-
        lookup_value_in_object save_info save_info_obj_opening_brace_pos (json_of "name") ;;
      match name_value_pos with
      | Some p =>
          read save_info p (fun c =>
            if Ascii.eqb c ch_quote then
              name_closing_quote <- find_closing_quote save_info p ;;
              let save_name_offset := p + 1 in
              Ok (save_name_offset, name_closing_quote - save_name_offset)
            else Throw SaveNameNotFound)
      | None => Throw SaveNameNotFound
      end
  | None => Throw SaveNameNotFound
  end.

(** The members of [SaveFile] that the engine works on. *)
Record SaveFile : Type := {
  save_info : u8string;
  save_data : u8string;
  save_name_offset : nat;
  save_name_size : nat;
  drivers : driver_array
}.

(** The constructor of [SaveFile], from the two buffers that
    [open_and_decompress_save] has decompressed. *)
Definition open_SaveFile (info data : u8string) : result SaveFile :=
  nm <- get_save_name info ;;
  ds <- get_driver_data_from_json data ;;
  Ok {| save_info := info; save_data := data;
        save_name_offset := fst nm; save_name_size := snd nm; drivers := ds |}.

(** An edit through the [DriverRef] of driver [i]: it assigns [position]. *)
Definition set_position_of (d : Driver) (p : DriverPosition) : Driver :=
  {| name := name d; position := p; original_position := original_position d;
     car_id_file_offset := car_id_file_offset d |}.

Definition set_position (a : driver_array) (i : nat) (p : DriverPosition) : driver_array :=
  let '(d0, d1, d2) := a in
  match i with
  | 0 => (set_position_of d0 p, d1, d2)
  | 1 => (d0, set_position_of d1 p, d2)
  | 2 => (d0, d1, set_position_of d2 p)
  | _ => a
  end.

Definition edit (sf : SaveFile) (i : nat) (p : DriverPosition) : SaveFile :=
  {| save_info := save_info sf; save_data := save_data sf;
     save_name_offset := save_name_offset sf; save_name_size := save_name_size sf;
     drivers := set_position (drivers sf) i p |}.

(* ------------------------------------------------------------------------- *)
(** ** Writing the save file: the uncompressed output *)

Definition get_position_as_json_value (p : DriverPosition) : u8string :=
  match p with
  | reserve => json_of "-1"
  | car1 => json_of "0"
  | car2 => json_of "1"
  end.

(** [size_t] arithmetic. *)
Definition wrap (z : Z) : Z := (z mod 2 ^ 64)%Z.
Definition npos : Z := (2 ^ 64 - 1)%Z.

Definition size (s : u8string) : Z := Z.of_nat (length s).

(** [s.substr(pos, count)]: it throws when [pos] is beyond the end and
    otherwise clamps [count] to what is left. *)
Definition substr (s : u8string) (pos count : Z) : result u8string :=
  if (size s <? pos)%Z then Throw StdOutOfRange
  else Ok (firstn (Z.to_nat (Z.min count (size s - pos))) (skipn (Z.to_nat pos) s)).

(** A [std::span] over an output buffer while it is being filled: what has
    been written before the span and how many characters the span has. *)
Record out_span : Type := {
  written : u8string;
  remaining : Z
}.

(** The sizes that [create_uncompressed_output_buffer] computes for the
    [info] and the [data] span of the output. *)
Definition info_out_size (original_save_info : u8string) (original_save_name_size : nat)
  (new_save_name : u8string) : Z :=
  wrap (wrap (size original_save_info - Z.of_nat original_save_name_size) + size new_save_name).

Definition data_out_size (original_save_data : u8string) (drivers : list Driver) : Z :=
  fold_left
    (fun sz d =>
       wrap (wrap (sz - size (get_position_as_json_value (original_position d)))
             + size (get_position_as_json_value (position d))))
    drivers (size original_save_data).

(** [create_uncompressed_output_buffer]: one buffer of [total_out_size]
    characters, split after [info_out_size] of them.  Taking the first
    [info_out_size] characters of a shorter span is not defined. *)
Definition create_uncompressed_output_buffer (original_save_info original_save_data : u8string)
  (original_save_name_size : nat) (new_save_name : u8string) (drivers : driver_array)
  : result (out_span * out_span) :=
  let info_size := info_out_size original_save_info original_save_name_size new_save_name in
  let data_size := data_out_size original_save_data (drivers_list drivers) in
  let total_out_size := wrap (info_size + data_size) in
  if (total_out_size <? info_size)%Z then Undefined
  else Ok ({| written := []; remaining := info_size |},
           {| written := []; remaining := total_out_size - info_size |}).

Definition copy_to_buffer (s : u8string) (b : out_span) : result out_span :=
  if (remaining b <? size s)%Z then Throw (InternalError CopyOutOfMemory)
  else Ok {| written := written b ++ s; remaining := remaining b - size s |}.

(** The loop of [create_uncompressed_output] over the drivers. *)
Fixpoint copy_changed_positions (original_save_data : u8string) (drivers : list Driver)
  (not_copied_offset : Z) (b : out_span) : result (Z * out_span) :=
  match drivers with
  | [] => Ok (not_copied_offset, b)
  | d :: rest =>
      if negb (DriverPosition_eqb (position d) (original_position d)) then
        s <- substr original_save_data not_copied_offset
               (wrap (Z.of_nat (car_id_file_offset d) - not_copied_offset)) ;;
        b1 <- copy_to_buffer s b ;;
        b2 <- copy_to_buffer (get_position_as_json_value (position d)) b1 ;;
        copy_changed_positions original_save_data rest
          (wrap (Z.of_nat (car_id_file_offset d)
                 + size (get_position_as_json_value (original_position d))))
          b2
      else copy_changed_positions original_save_data rest not_copied_offset b
  end.

(** [create_uncompressed_output]: the new info and the new data buffer.  The
    [assert] that the drivers are sorted is not part of a release build. *)
Definition create_uncompressed_output (original_save_info original_save_data : u8string)
  (original_save_name_offset original_save_name_size : nat) (new_save_name : u8string)
  (drivers : driver_array) : result (u8string * u8string) :=
  output <- create_uncompressed_output_buffer original_save_info original_save_data
              original_save_name_size new_save_name drivers ;;
  let remaining_info_buffer := fst output in
  let remaining_data_buffer := snd output in
  s1 <- substr original_save_info 0 (Z.of_nat original_save_name_offset) ;;
  bi1 <- copy_to_buffer s1 remaining_info_buffer ;;
  bi2 <- copy_to_buffer new_save_name bi1 ;;
  s3 <- substr original_save_info
          (wrap (Z.of_nat original_save_name_offset + Z.of_nat original_save_name_size)) npos ;;
  bi3 <- copy_to_buffer s3 bi2 ;;
  r <- copy_changed_positions original_save_data (drivers_list drivers) 0 remaining_data_buffer ;;
  tail <- substr original_save_data (fst r) npos ;;
  bd <- copy_to_buffer tail (snd r) ;;
  if negb (remaining bi3 =? 0)%Z || negb (remaining bd =? 0)%Z
  then Throw (InternalError BadCopy)
  else Ok (written bi3, written bd).

(** The uncompressed output that [SaveFile::write] builds before it
    compresses and frames it. *)
Definition uncompressed_output_of (sf : SaveFile) (new_save_name : u8string)
  : result (u8string * u8string) :=
  create_uncompressed_output (save_info sf) (save_data sf) (save_name_offset sf)
    (save_name_size sf) new_save_name (drivers sf).

(** The save name that a session holds. *)
Definition save_name_of (sf : SaveFile) : u8string :=
  firstn (save_name_size sf) (skipn (save_name_offset sf) (save_info sf)).

(* ------------------------------------------------------------------------- *)
(** ** The window: file names *)

(** The loop of [find_last_of] over the rest [s] of the string from index
    [i] on. *)
Fixpoint find_last_of_from (s chars : u8string) (i : nat) : option nat :=
  match s with
  | [] => None
  | c :: s' =>
      match find_last_of_from s' chars (S i) with
      | Some j => Some j
      | None => if existsb (Ascii.eqb c) chars then Some i else None
      end
  end.

(** [s.find_last_of(chars)]; [None] is [npos]. *)
Definition find_last_of (s chars : u8string) : option nat := find_last_of_from s chars 0.

(** [s.ends_with(suffix)]. *)
Definition ends_with (s suffix : u8string) : bool :=
  (length suffix <=? length s) && u8_eqb (skipn (length s - length suffix) s) suffix.

Definition extension : u8string := json_of ".sav".

(** The characters of the literal that both functions search for: a
    backslash and a slash. *)
Definition path_separators : u8string := [ch_backslash; "/"%char].

Definition get_suggested_output_file_name (original_path : u8string) : result u8string :=
  match find_last_of original_path path_separators with
  | Some last_sep =>
      if ends_with original_path extension then
        output_name <- substr original_path (wrap (Z.of_nat last_sep + 1)) npos ;;
        output_name' <- substr output_name 0 (wrap (size output_name - size extension)) ;;
        Ok (output_name' ++ json_of "(fixed).sav")
      else Ok []
  | None => Ok []
  end.

(** How a call that comes to an [assert] ends: the macro expands to nothing
    when [NDEBUG] is defined, and otherwise a failed assertion ends the
    program in [abort]. *)
Inductive asserting (A : Type) : Type :=
| Passed (a : A)
| Aborted.

Arguments Passed {A} a.
Arguments Aborted {A}.

Definition default_save_name : u8string := json_of "Practice Driver Fixed Save".

(** [extract_save_name_from_save_path], built with [NDEBUG] defined or not:
    on an empty name it comes to [assert( false )] before it returns the
    default name. *)
Definition extract_save_name_from_save_path (NDEBUG : bool) (path : u8string)
  : result (asserting u8string) :=
  save_name <- (if ends_with path extension
                then substr path 0 (wrap (size path - size extension))
                else Ok path) ;;
  save_name' <- match find_last_of path path_separators with
                | Some last_sep => substr save_name (wrap (Z.of_nat last_sep + 1)) npos
                | None => Ok save_name
                end ;;
  match save_name' with
  | [] => if NDEBUG then Ok (Passed default_save_name) else Ok Aborted
  | _ :: _ => Ok (Passed save_name')
  end.

(* ------------------------------------------------------------------------- *)
(** ** The window: radio buttons *)

(** The check states of the three radio buttons of one driver. *)
Record radio_row : Type := {
  car_1_radio : bool;
  car_2_radio : bool;
  reserve_radio : bool
}.

(** The lambda [one_selected] of [selected_driver_positions_are_unique]. *)
Definition one_selected (r1 r2 r3 : bool) : bool :=
  Nat.b2n r1 + Nat.b2n r2 + Nat.b2n r3 =? 1.

Definition selected_driver_positions_are_unique (driver_0 driver_1 driver_2 : radio_row)
  : bool :=
  one_selected (car_1_radio driver_0) (car_1_radio driver_1) (car_1_radio driver_2)
  && one_selected (car_2_radio driver_0) (car_2_radio driver_1) (car_2_radio driver_2)
  && one_selected (reserve_radio driver_0) (reserve_radio driver_1) (reserve_radio driver_2).

(** The lambda [set_radio_buttons] of [open_button_pressed]: the three
    buttons of a driver after it has run. *)
Definition set_radio_buttons (p : DriverPosition) : radio_row :=
  match p with
  | car1 => {| car_1_radio := true; car_2_radio := false; reserve_radio := false |}
  | car2 => {| car_1_radio := false; car_2_radio := true; reserve_radio := false |}
  | reserve => {| car_1_radio := false; car_2_radio := false; reserve_radio := true |}
  end.

(** The lambda [set_position] of [save_button_pressed]: the position that it
    assigns to a driver.  The [assert] on the third button is not part of a
    release build. *)
Definition set_position_from_radios (row : radio_row) : DriverPosition :=
  if car_1_radio row then car1
  else if car_2_radio row then car2
  else reserve.

(** [save_button_pressed] up to the file dialog: with no session or with
    positions that are not unique it returns at once. *)
Definition save_button_positions (sf : SaveFile) (driver_0 driver_1 driver_2 : radio_row)
  : option SaveFile :=
  if negb (selected_driver_positions_are_unique driver_0 driver_1 driver_2) then None
  else Some (edit (edit (edit sf 0 (set_position_from_radios driver_0))
                        1 (set_position_from_radios driver_1))
                  2 (set_position_from_radios driver_2)).
(* ------------------------------------------------------------------------- *)
(** ** The container: LZ4 and the bytes of the file *)

(** The three functions of the LZ4 library that the program calls, with the
    source bytes, the [int] size of the source and the [int] capacity of the
    destination as arguments.  A call gives the [int] it returns and the
    bytes that it has written at the start of the destination. *)
Class LZ4 : Type := {
  LZ4_decompress_safe : list Byte.byte -> Z -> Z -> Z * list Byte.byte;
  LZ4_compressBound : Z -> Z;
  LZ4_compress_default : list Byte.byte -> Z -> Z -> Z * list Byte.byte
}.

(** [std::numeric_limits< int >::max()]. *)
Definition int_max : Z := (2 ^ 31 - 1)%Z.

(** [static_cast< int >] of a [size_t]. *)
Definition to_int (z : Z) : Z := as_int (z mod 2 ^ 32).

Definition bsize (bytes : list Byte.byte) : Z := Z.of_nat (length bytes).

(** A destination after [written] has been stored at its start. *)
Definition overwrite (buffer written : list Byte.byte) : list Byte.byte :=
  firstn (length buffer) (written ++ skipn (length written) buffer).

(** The [reinterpret_cast]s between bytes and [char8_t]. *)
Definition as_u8 (bytes : list Byte.byte) : u8string := map ascii_of_byte bytes.
Definition as_bytes (s : u8string) : list Byte.byte := map byte_of_ascii s.

(** A buffer that has just been allocated or mapped; the zeros stand for
    bytes that have not been written yet. *)
Definition fresh_buffer (n : Z) : list Byte.byte := repeat Byte.x00 (Z.to_nat n).

(** [lz4_decompress]: the output buffer after the call. *)
Definition lz4_decompress `{LZ4} (compressed_data output_buffer : list Byte.byte)
  : result (list Byte.byte) :=
  let r := LZ4_decompress_safe compressed_data (to_int (bsize compressed_data))
             (to_int (bsize output_buffer)) in
  if negb (fst r =? bsize output_buffer)%Z then Throw CorruptPayload
  else Ok (overwrite output_buffer (snd r)).

Definition lz4_max_compressed_size `{LZ4} (input_data : list Byte.byte) : result Z :=
  if (int_max <? bsize input_data)%Z then Throw TooLarge
  else Ok (wrap (LZ4_compressBound (to_int (bsize input_data)))).

(** [lz4_compress]: the size it returns and the output buffer after the
    call. *)
Definition lz4_compress `{LZ4} (input_data output_buffer : list Byte.byte)
  : result (Z * list Byte.byte) :=
  let r := LZ4_compress_default input_data (to_int (bsize input_data))
             (to_int (bsize output_buffer)) in
  if (fst r =? 0)%Z then Throw (InternalError CompressionFailure)
  else Ok (wrap (fst r), overwrite output_buffer (snd r)).

(** [s.subspan( offset )]; it is not defined beyond the end of the span. *)
Definition subspan (s : list Byte.byte) (offset : Z) : result (list Byte.byte) :=
  if (bsize s <? offset)%Z then Undefined else Ok (skipn (Z.to_nat offset) s).

(** [s.subspan( offset, count )], for a [count] that is not
    [dynamic_extent]. *)
Definition subspan_count (s : list Byte.byte) (offset count : Z) : result (list Byte.byte) :=
  if (bsize s <? offset)%Z || (bsize s - offset <? count)%Z then Undefined
  else Ok (firstn (Z.to_nat count) (skipn (Z.to_nat offset) s)).

(** [split_span]; [first( n )] is not defined beyond the end of the span. *)
Definition split_span (s : list Byte.byte) (n : Z)
  : result (list Byte.byte * list Byte.byte) :=
  if (bsize s <? n)%Z then Undefined
  else Ok (firstn (Z.to_nat n) s, skipn (Z.to_nat n) s).

(** [SaveFile::open_and_decompress_save], from the bytes of the mapped file:
    the two buffers [save_info] and [save_data]. *)
Definition open_and_decompress_save `{LZ4} (file_data : list Byte.byte)
  : result (u8string * u8string) :=
  header <- read_save_file_header file_data ;;
  remaining_file_data <-
    subspan_count file_data (Z.of_nat sizeof_SaveFileHeader)
      (wrap (wrap (compressed_info_size header) + wrap (compressed_data_size header))) ;;
  compressed <- split_span remaining_file_data (wrap (compressed_info_size header)) ;;
  let total_decompressed_size :=
    wrap (wrap (decompressed_info_size header) + wrap (decompressed_data_size header)) in
  buffers <- split_span (fresh_buffer total_decompressed_size)
               (wrap (decompressed_info_size header)) ;;
  save_info_buffer <- lz4_decompress (fst compressed) (fst buffers) ;;
  save_data_buffer <- lz4_decompress (snd compressed) (snd buffers) ;;
  Ok (as_u8 save_info_buffer, as_u8 save_data_buffer).

(** The constructor [SaveFile::SaveFile], from the bytes of the file. *)
Definition SaveFile_of_file `{LZ4} (file_data : list Byte.byte) : result SaveFile :=
  buffers <- open_and_decompress_save file_data ;;
  open_SaveFile (fst buffers) (snd buffers).

(** [SaveFile::write]: the bytes of the file that it leaves, the first
    [max_output_size - file_out_remaining.size()] bytes of the mapping.
    Creating, mapping and renaming the file is the work of the operating
    system and is taken to succeed. *)
Definition write_bytes `{LZ4} (sf : SaveFile) (new_save_name : u8string)
  : result (list Byte.byte) :=
  output <- uncompressed_output_of sf new_save_name ;;
  let info := as_bytes (fst output) in
  let data := as_bytes (snd output) in
  info_bound <- lz4_max_compressed_size info ;;
  data_bound <- lz4_max_compressed_size data ;;
  let max_output_size :=
    wrap (wrap (Z.of_nat sizeof_SaveFileHeader + info_bound) + data_bound) in
  file_out_remaining <- subspan (fresh_buffer max_output_size)
                          (Z.of_nat sizeof_SaveFileHeader) ;;
  ci <- lz4_compress info file_out_remaining ;;
  let compressed_info_size := fst ci in
  file_out_remaining1 <- subspan (snd ci) compressed_info_size ;;
  cd <- lz4_compress data file_out_remaining1 ;;
  let compressed_data_size := fst cd in
  file_out_remaining2 <- subspan (snd cd) compressed_data_size ;;
  if (int_max <? compressed_info_size)%Z || (int_max <? bsize info)%Z
     || (int_max <? compressed_data_size)%Z || (int_max <? bsize data)%Z
  then Throw TooLarge
  else
    let save_header :=
      {| magic := mm_save_file_magic;
         version := mm_save_file_supported_version;
         compressed_info_size := to_int compressed_info_size;
         decompressed_info_size := to_int (bsize info);
         compressed_data_size := to_int compressed_data_size;
         decompressed_data_size := to_int (bsize data) |} in
    Ok (header_bytes save_header
        ++ firstn (Z.to_nat compressed_info_size) (snd ci)
        ++ firstn (Z.to_nat compressed_data_size) (snd cd)).
(* ------------------------------------------------------------------------- *)
(** ** Unique handles *)

(** The [HandleTraits] of a handle type: its null value.  The calls of
    [close] are recorded in the state. *)
Class HandleTraits : Type := {
  null_value : Z
}.

(** [FileHandleTraits]: the null value is [INVALID_HANDLE_VALUE]. *)
#[local] Instance FileHandleTraits : HandleTraits := {| null_value := (-1)%Z |}.

(** The objects of one [UniqueHandle] type: the member [handle] of the
    object at each address, the addresses of the objects that are alive, and
    the handles that [close] has been called with, the latest first. *)
Record handle_state : Type := {
  handle : nat -> Z;
  live : list nat;
  closed : list Z
}.

Definition set_handle (st : handle_state) (this : nat) (h : Z) : handle_state :=
  {| handle := fun a => if a =? this then h else handle st a;
     live := live st;
     closed := closed st |}.

Definition is_valid `{HandleTraits} (st : handle_state) (this : nat) : bool :=
  negb (handle st this =? null_value)%Z.

Definition get (st : handle_state) (this : nat) : Z := handle st this.

(** [reset]. *)
Definition reset `{HandleTraits} (st : handle_state) (this : nat) : handle_state :=
  if is_valid st this then
    set_handle {| handle := handle st; live := live st;
                  closed := handle st this :: closed st |}
               this null_value
  else st.

(** The member [swap], [std::swap] of the two members [handle]. *)
Definition swap (st : handle_state) (this other : nat) : handle_state :=
  set_handle (set_handle st this (handle st other)) other (handle st this).

(** The constructors; the object at [this] starts to live. *)
Definition construct `{HandleTraits} (st : handle_state) (this : nat) : handle_state :=
  {| handle := fun a => if a =? this then null_value else handle st a;
     live := this :: live st;
     closed := closed st |}.

Definition construct_from (st : handle_state) (this : nat) (h : Z) : handle_state :=
  {| handle := fun a => if a =? this then h else handle st a;
     live := this :: live st;
     closed := closed st |}.

Definition move_construct `{HandleTraits} (st : handle_state) (this other : nat)
  : handle_state :=
  swap (construct st this) this other.

(** [operator=( UniqueHandle &&other )]. *)
Definition move_assign `{HandleTraits} (st : handle_state) (this other : nat)
  : handle_state :=
  if negb (this =? other) then swap (reset st this) this other else st.

(** [operator=( Handle h )]. *)
Definition assign_handle `{HandleTraits} (st : handle_state) (this : nat) (h : Z)
  : handle_state :=
  set_handle (reset st this) this h.

(** The destructor; the object at [this] stops to live. *)
Definition destroy `{HandleTraits} (st : handle_state) (this : nat) : handle_state :=
  let st' := reset st this in
  {| handle := handle st';
     live := filter (fun a => negb (a =? this)) (live st');
     closed := closed st' |}.

(** The operations of a program on the objects of one [UniqueHandle]
    type. *)
Inductive handle_op : Type :=
| OpConstruct (this : nat)
| OpConstructFrom (this : nat) (h : Z)
| OpMoveConstruct (this other : nat)
| OpMoveAssign (this other : nat)
| OpAssignHandle (this : nat) (h : Z)
| OpReset (this : nat)
| OpSwap (this other : nat)
| OpDestroy (this : nat).

Definition run_op `{HandleTraits} (st : handle_state) (o : handle_op) : handle_state :=
  match o with
  | OpConstruct this => construct st this
  | OpConstructFrom this h => construct_from st this h
  | OpMoveConstruct this other => move_construct st this other
  | OpMoveAssign this other => move_assign st this other
  | OpAssignHandle this h => assign_handle st this h
  | OpReset this => reset st this
  | OpSwap this other => swap st this other
  | OpDestroy this => destroy st this
  end.

Definition run_ops `{HandleTraits} (st : handle_state) (ops : list handle_op) : handle_state :=
  fold_left run_op ops st.

(* ------------------------------------------------------------------------- *)
(** * The vocabulary of the statements *)

(** ** Header *)

Definition sizes_positive (h : SaveFileHeader) : Prop :=
  (0 < compressed_info_size h /\ 0 < decompressed_info_size h
   /\ 0 < compressed_data_size h /\ 0 < decompressed_data_size h)%Z.

(** ** Quotes *)

(** The rule of the escaped flag: a backslash toggles it, any other
    character clears it. *)
Definition toggle_escape (escaped : bool) (c : ascii) : bool :=
  if Ascii.eqb c ch_backslash then negb escaped else false.

(** The characters of [json] from index [a] up to, not including, [b]. *)
Definition between (json : u8string) (a b : nat) : u8string :=
  firstn (b - a) (skipn a json).

(** The flag after the characters from [a] up to [b] have been scanned. *)
Definition escaped_after (json : u8string) (a b : nat) : bool :=
  fold_left toggle_escape (between json a b) false.

(** The length of the run of backslashes that ends a segment. *)
Definition backslash_run (seg : u8string) : nat :=
  fold_left (fun n c => if Ascii.eqb c ch_backslash then S n else 0) seg 0.

(** The length of the run of backslashes just before index [k]. *)
Definition run_before (json : u8string) (k : nat) : nat := backslash_run (firstn k json).

(** What the forward scan decides from index [i] on, the flag being the one
    that the characters since the opening quote at [o] leave. *)
Definition closing_quote_outcome (json : u8string) (o i : nat) (r : result nat) : Prop :=
  match r with
  | Ok q =>
      i <= q < length json /\ at_ json q = Some ch_quote
      /\ escaped_after json (o + 1) q = false
      /\ forall k, i <= k < q -> at_ json k = Some ch_quote ->
                   escaped_after json (o + 1) k = true
  | Throw e =>
      e = MalformedJson
      /\ forall k, i <= k < length json -> at_ json k = Some ch_quote ->
                   escaped_after json (o + 1) k = true
  | Undefined | OutOfFuel => False
  end.

(** What the backward scan decides below [c]: the nearest quote below [c]
    whose run of backslashes is not odd settles the outcome. *)
Definition opening_quote_outcome (json : u8string) (c : nat) (r : result nat) : Prop :=
  match r with
  | Ok q =>
      q < c /\ at_ json q = Some ch_quote /\ run_before json q = 0
      /\ forall k, q < k < c -> at_ json k = Some ch_quote ->
                   Nat.odd (run_before json k) = true
  | Throw e =>
      e = MalformedJson
      /\ ((forall k, k < c -> at_ json k = Some ch_quote ->
                     Nat.odd (run_before json k) = true)
          \/ exists q, q < c /\ at_ json q = Some ch_quote
                       /\ run_before json q <> 0 /\ Nat.even (run_before json q) = true
                       /\ forall k, q < k < c -> at_ json k = Some ch_quote ->
                                    Nat.odd (run_before json k) = true)
  | Undefined | OutOfFuel => False
  end.

(** ** Braces *)

(** The backward brace scan when the next index to look at is [u - 1]. *)
Definition rscan (json : u8string) (u : nat) (stack : list ascii) : result nat :=
  match u with
  | 0 => Throw MalformedJson
  | S i => rfind_opening_brace_from (S i) json i stack
  end.

(** A scan ends by returning an offset or by throwing MalformedJson. *)
Definition settled (r : result nat) : Prop :=
  (exists q, r = Ok q) \/ r = Throw MalformedJson.

(** The quote at [i] directly follows a backslash. *)
Definition after_backslash (json : u8string) (i : nat) : Prop :=
  exists p, i = S p /\ at_ json p = Some ch_backslash.

(** Between [i] and [stop] the forward scan meets no string whose opening
    quote directly follows a backslash. *)
Inductive clean_strings (json : u8string) (stop : nat) : nat -> Prop :=
| clean_stop (i : nat) : stop <= i -> clean_strings json stop i
| clean_string (i q : nat) :
    i < stop -> at_ json i = Some ch_quote -> ~ after_backslash json i ->
    find_closing_quote json i = Ok q -> clean_strings json stop (S q) ->
    clean_strings json stop i
| clean_other (i : nat) (x : ascii) :
    i < stop -> at_ json i = Some x -> x <> ch_quote -> clean_strings json stop (S i) ->
    clean_strings json stop i.

(** The characters from [i] up to [j] are a sequence of strings (each one
    found again by the backward quote scan), of groups in matching braces and
    of other characters. *)
Inductive balanced (json : u8string) : nat -> nat -> Prop :=
| balanced_nil (i : nat) : balanced json i i
| balanced_char (i j : nat) (x : ascii) :
    at_ json i = Some x -> Ascii.eqb x ch_quote = false ->
    is_open x = false -> is_close x = false ->
    balanced json (S i) j -> balanced json i j
| balanced_string (i q j : nat) :
    at_ json q = Some ch_quote -> rfind_opening_quote json q = Ok i ->
    balanced json (S q) j -> balanced json i j
| balanced_group (i m j : nat) (x : ascii) :
    at_ json i = Some x -> is_open x = true ->
    balanced json (S i) m -> at_ json m = Some (closer_of x) ->
    balanced json (S m) j -> balanced json i j.

(** The forward scan with the stack [stack] of expected closing braces: a
    balanced stretch up to the brace on top of the stack, and so on down the
    stack, the last brace standing at [c]. *)
Fixpoint closes (json : u8string) (i : nat) (stack : list ascii) (c : nat) : Prop :=
  match stack with
  | [] => False
  | top :: rest =>
      match rest with
      | [] => balanced json i c /\ at_ json c = Some top
      | _ :: _ =>
          exists m, balanced json i m /\ at_ json m = Some top /\ closes json (S m) rest c
      end
  end.

(** One step of a derivation of [clean_strings] on a given buffer. *)
Ltac clean_step :=
  first
    [ apply clean_stop; lia
    | eapply clean_string;
      [ lia
      | reflexivity
      | let p := fresh "p" in
        let Hp := fresh "Hp" in
        let Hb := fresh "Hb" in
        intros (p & Hp & Hb); inversion Hp; subst; vm_compute in Hb; discriminate
      | vm_compute; reflexivity
      | ]
    | eapply clean_other; [ lia | reflexivity | unfold ch_quote; discriminate | ] ].

(** ** Drivers *)

(** The length of the position token of [p], as a number of characters and
    as a size. *)
Definition token_len (p : DriverPosition) : nat := length (get_position_as_json_value p).

Definition token_size (p : DriverPosition) : Z := size (get_position_as_json_value p).

(** The text of the position token of [p] stands at [offset], followed by a
    comma or a closing brace. *)
Definition token_at (data : u8string) (offset : nat) (p : DriverPosition) : Prop :=
  starts_with (skipn offset data) (get_position_as_json_value p) = true
  /\ exists c, at_ data (offset + token_len p) = Some c /\ comma_or_rbrace c = true.

(** What holds of a stored driver record. *)
Definition driver_ok (data : u8string) (d : Driver) : Prop :=
  parse_driver_position data (car_id_file_offset d) = Ok (original_position d)
  /\ token_at data (car_id_file_offset d) (original_position d).

Definition drivers_invariant (data : u8string) (a : driver_array) : Prop :=
  let '(d0, d1, d2) := a in
  driver_ok data d0 /\ driver_ok data d1 /\ driver_ok data d2
  /\ car_id_file_offset d0 <= car_id_file_offset d1 <= car_id_file_offset d2.

(** What [maybe_get_driver] stores in a record it returns. *)
Definition fresh_driver (data : u8string) (d : Driver) : Prop :=
  parse_driver_position data (car_id_file_offset d) = Ok (original_position d)
  /\ position d = original_position d.

Definition offset_le (a b : Driver) : Prop := car_id_file_offset a <= car_id_file_offset b.

(** A session after a sequence of edits. *)
Definition edits (sf : SaveFile) (es : list (nat * DriverPosition)) : SaveFile :=
  fold_left (fun s e => edit s (fst e) (snd e)) es sf.

(** ** Extraction *)

(** Every offset at which [pattern] stands in [json], in ascending order,
    from [start] on. *)
Definition occurrences_from (json pattern : u8string) (start : nat) : list nat :=
  filter (fun p => starts_with (skipn p json) pattern) (seq start (S (length json) - start)).





(** A callback run over a list of offsets. *)
Fixpoint fold_result {St : Type} (f : St -> nat -> result St) (l : list nat) (st : St)
  : result St :=
  match l with
  | [] => Ok st
  | r :: l' => st' <- f st r ;; fold_result f l' st'
  end.

(** ** Patched buffers *)

Definition changed (d : Driver) : bool :=
  negb (DriverPosition_eqb (position d) (original_position d)).

(** What a driver adds to the length of the data: nothing when its position
    is its original position, else the length of the new token less the
    length of the original one. *)
Definition token_delta (d : Driver) : Z :=
  if DriverPosition_eqb (position d) (original_position d) then 0%Z
  else (token_size (position d) - token_size (original_position d))%Z.

Definition changed_delta_sum (ds : list Driver) : Z :=
  fold_right (fun d acc => (token_delta d + acc)%Z) 0%Z ds.

(** The original tokens of [ds] lie one after the other, from [from] on,
    inside [data]. *)
Fixpoint tokens_fit (data : u8string) (ds : list Driver) (from : nat) : Prop :=
  match ds with
  | [] => from <= length data
  | d :: rest =>
      from <= car_id_file_offset d
      /\ tokens_fit data rest (car_id_file_offset d + token_len (original_position d))
  end.

(** The data buffer with the token of every changed driver replaced. *)
Fixpoint patched_data (data : u8string) (ds : list Driver) (not_copied : nat) : u8string :=
  match ds with
  | [] => skipn not_copied data
  | d :: rest =>
      if changed d then
        firstn (car_id_file_offset d - not_copied) (skipn not_copied data)
        ++ get_position_as_json_value (position d)
        ++ patched_data data rest (car_id_file_offset d + token_len (original_position d))
      else patched_data data rest not_copied
  end.

(** The info buffer with the save name replaced. *)
Definition patched_info (info : u8string) (name_offset name_size : nat) (new_name : u8string)
  : u8string :=
  firstn name_offset info ++ new_name ++ skipn (name_offset + name_size) info.

(** ** Buffers and sessions of the examples *)

Definition version5_no_sizes : list Byte.byte :=
  header_bytes {| magic := mm_save_file_magic; version := 5;
                  compressed_info_size := 0; decompressed_info_size := 1;
                  compressed_data_size := 1; decompressed_data_size := 1 |}.

Definition version5_header : list Byte.byte :=
  header_bytes {| magic := mm_save_file_magic; version := 5;
                  compressed_info_size := 10; decompressed_info_size := 20;
                  compressed_data_size := 30; decompressed_data_size := 40 |}.

Definition even_run_buffer : u8string := json_of "a\\'b'".

Definition backslash_before_string : u8string := json_of "{\'x'}".

Definition nested_example : u8string := json_of "{'a':[1,'\'}']}".

Definition example_info : u8string :=
  json_of "{'saveInfo':{'date':1,'name':'my save','v':2}}".

(** One player team, three contracts of drivers (one per position), one
    contract without a car, and one reference outside a contract. *)
Definition example_data : u8string :=
  json_of "{'mPlayerTeam':{'$id':'7','x':1},'people':[{'mCarID':0,'mFirstName':'A','mLastName':'B','contract':{'mEmployeerTeam':{'$ref':'7'},'k':2}},{'contract':{'k':3,'mEmployeerTeam':{'$ref':'7'}},'mLastName':'D','mFirstName':'C','mCarID':-1,'z':[1,2]},{'mFirstName':'E','contract':{'mEmployeerTeam':{'$ref':'7'}},'mCarID':1,'mLastName':'F'},{'contract':{'mEmployeerTeam':{'$ref':'7'}},'mFirstName':'S','mLastName':'T'}],'other':{'mEmployeerTeam':{'$ref':'7'}}}".

Definition example_records : list Driver :=
  [new_Driver (json_of "A B") car1 53;
   new_Driver (json_of "C D") reserve 230;
   new_Driver (json_of "E F") car2 314].

Definition example_session : SaveFile :=
  {| save_info := example_info; save_data := example_data;
     save_name_offset := 30; save_name_size := 7;
     drivers :=
       (new_Driver (json_of "A B") car1 53,
        new_Driver (json_of "C D") reserve 230,
        new_Driver (json_of "E F") car2 314) |}.

(** A player team whose one contract holds a car identifier that is no
    position. *)
Definition bad_position_data : u8string :=
  json_of "{'mPlayerTeam':{'$id':'7'},'p':[{'mCarID':5,'mFirstName':'A','mLastName':'B','contract':{'mEmployeerTeam':{'$ref':'7'}}}]}".

(** A player team with two drivers, the first of them under two contract
    keys. *)
Definition twice_contracted_data : u8string :=
  json_of "{'mPlayerTeam':{'$id':'7'},'p':[{'mCarID':0,'mFirstName':'A','mLastName':'B','contract':{'mEmployeerTeam':{'$ref':'7'}},'contract':{'mEmployeerTeam':{'$ref':'7'}}},{'mCarID':1,'mFirstName':'C','mLastName':'D','contract':{'mEmployeerTeam':{'$ref':'7'}}}]}".

(** A buffer that ends in an opening brace, the walked keys standing in
    square brackets. *)
Definition revisiting_data : u8string :=
  json_of "'mPlayerTeam':{'$id':'1'}['contract':{'mEmployeerTeam':{'$ref':'1'}},'x':{".

Definition three_edited_drivers : driver_array :=
  ({| name := json_of "A B"; position := reserve; original_position := car1;
      car_id_file_offset := 10 |},
   {| name := json_of "C D"; position := car1; original_position := reserve;
      car_id_file_offset := 20 |},
   {| name := json_of "E F"; position := car2; original_position := car2;
      car_id_file_offset := 30 |}).

Definition overlapping_tokens : driver_array :=
  ({| name := json_of "A B"; position := car1; original_position := reserve;
      car_id_file_offset := 0 |},
   {| name := json_of "C D"; position := car1; original_position := car2;
      car_id_file_offset := 1 |},
   {| name := json_of "E F"; position := car1; original_position := car1;
      car_id_file_offset := 3 |}).

(** ** Keys and values *)

(** At [value_offset] starts the value of a key whose text is [key]: the key
    stands in double quotes, a colon follows, and the value starts inside the
    buffer. *)
Definition key_value_at (json key : u8string) (value_offset : nat) : Prop :=
  exists key_start key_end,
    at_ json key_start = Some ch_quote /\ key_start < key_end
    /\ at_ json key_end = Some ch_quote /\ at_ json (key_end + 1) = Some ch_colon
    /\ value_offset = key_end + 2 /\ value_offset < length json
    /\ key = string_view_between json key_start key_end.

(** [text] is the content of the string that opens at [open_quote]: the
    scan for its closing quote succeeds and [text] lies between the two. *)
Definition string_content_at (json : u8string) (open_quote : nat) (text : u8string) : Prop :=
  at_ json open_quote = Some ch_quote
  /\ exists close_quote,
       find_closing_quote json open_quote = Ok close_quote
       /\ text = string_view_between json open_quote close_quote.

(** What the walk of [maybe_get_driver] has gathered. *)
Definition driver_fields_ok (json : u8string) (st : driver_fields) : Prop :=
  let '(car_id_pos, first_name, last_name) := st in
  (forall p, car_id_pos = Some p -> key_value_at json (json_of "mCarID") p)
  /\ (forall n, first_name = Some n ->
        exists v, key_value_at json (json_of "mFirstName") v /\ string_content_at json v n)
  /\ (forall n, last_name = Some n ->
        exists v, key_value_at json (json_of "mLastName") v /\ string_content_at json v n).

(** A driver record made from the fields of one object. *)
Definition driver_from_fields (json : u8string) (d : Driver) : Prop :=
  key_value_at json (json_of "mCarID") (car_id_file_offset d)
  /\ exists first_name last_name v1 v2,
       key_value_at json (json_of "mFirstName") v1 /\ string_content_at json v1 first_name
       /\ key_value_at json (json_of "mLastName") v2 /\ string_content_at json v2 last_name
       /\ name d = first_name ++ json_of " " ++ last_name.
(** ** Outcomes *)

(** The call returns, without reading outside a buffer, and what it throws
    is one of the [allowed] errors. *)
Definition throws_only {A : Type} (allowed : error -> Prop) (r : result A) : Prop :=
  match r with
  | Ok _ => True
  | Throw e => allowed e
  | Undefined | OutOfFuel => False
  end.

(** The last character of the buffer is an opening brace. *)
Definition ends_with_open (json : u8string) : bool :=
  match at_ json (length json - 1) with
  | Some c => is_open c
  | None => false
  end.

Definition malformed (e : error) : Prop := e = MalformedJson.

(** The errors of making a driver record. *)
Definition driver_error (e : error) : Prop :=
  e = MalformedJson \/ e = InvalidDriverName \/ e = InvalidPositionValue.

(** The errors of reading the two buffers of a save. *)
Definition open_error (e : error) : Prop :=
  In e [MalformedJson; SaveNameNotFound; PlayerTeamNotFound; InvalidDriverName;
        InvalidPositionValue; DriverCountMismatch].
(** ** The data after an edit *)

(** The tokens of the original positions of [ds] stand in [data] one after
    the other, from [from] on, each followed by its comma or closing brace
    and by at least one more character, the next token after that. *)
Fixpoint tokens_apart (data : u8string) (ds : list Driver) (from : nat) : Prop :=
  match ds with
  | [] => True
  | d :: rest =>
      from <= car_id_file_offset d
      /\ token_at data (car_id_file_offset d) (original_position d)
      /\ car_id_file_offset d + token_len (original_position d) + 1 < length data
      /\ tokens_apart data rest (car_id_file_offset d + token_len (original_position d) + 1)
  end.

(** The data from [from] on, with the token of every driver of [ds]
    respelled as the token of its position and all the rest kept. *)
Fixpoint respelled (data : u8string) (ds : list Driver) (from : nat) : u8string :=
  match ds with
  | [] => skipn from data
  | d :: rest =>
      between data from (car_id_file_offset d)
      ++ get_position_as_json_value (position d)
      ++ respelled data rest (car_id_file_offset d + token_len (original_position d))
  end.

(** Where the tokens of [ds] start in [respelled data ds from], when that
    text starts at [base]. *)
Fixpoint respelled_offsets (ds : list Driver) (from base : nat) : list nat :=
  match ds with
  | [] => []
  | d :: rest =>
      (base + (car_id_file_offset d - from))
      :: respelled_offsets rest (car_id_file_offset d + token_len (original_position d))
           (base + (car_id_file_offset d - from) + token_len (position d))
  end.
(** ** Names *)

(** A character that is neither a double quote nor a backslash. *)
Definition plain_char (c : ascii) : bool :=
  negb (Ascii.eqb c ch_quote) && negb (Ascii.eqb c ch_backslash).

Definition plain_text (s : u8string) : bool := forallb plain_char s.
(** Two buffers with the same first [n] characters. *)
Definition agree_upto (n : nat) (a b : u8string) : Prop := firstn n a = firstn n b.

(** The callback of [lookup_value_in_object]. *)
Definition lookup_callback (sought_key : u8string) : KeyValueCallback (option nat) :=
  fun value_pos _ key value_offset =>
    if u8_eqb key sought_key then Ok (Some value_offset, false)
    else Ok (value_pos, true).
(** ** File names and radio buttons *)

Definition is_separator (c : ascii) : bool := existsb (Ascii.eqb c) path_separators.

(** No character of [s] is a path separator. *)
Definition separator_free (s : u8string) : bool := forallb (fun c => negb (is_separator c)) s.

(** Exactly one of the three buttons of a driver is checked, as Windows
    keeps the automatic radio buttons of one group once one of them has been
    checked. *)
Definition one_checked (row : radio_row) : bool :=
  one_selected (car_1_radio row) (car_2_radio row) (reserve_radio row).
(** ** Headers *)

(** The values of an [int]. *)
Definition int_range (z : Z) : Prop := (- 2 ^ 31 <= z < 2 ^ 31)%Z.

(** Every field of the header is an [int]. *)
Definition header_in_range (h : SaveFileHeader) : Prop :=
  int_range (magic h) /\ int_range (version h)
  /\ int_range (compressed_info_size h) /\ int_range (decompressed_info_size h)
  /\ int_range (compressed_data_size h) /\ int_range (decompressed_data_size h).
(** ** The container *)

(** What the program relies on from LZ4: when the capacity is at least the
    bound, itself positive, compression succeeds within the bound, and
    decompressing what it has written, with the size of the original as the
    capacity, gives the original back. *)
Class LZ4_lossless `{LZ4} : Prop := {
  compress_within_bound :
    forall (src : list Byte.byte) (capacity : Z),
      (0 < LZ4_compressBound (bsize src) <= capacity)%Z -> (capacity <= int_max)%Z ->
      (0 < fst (LZ4_compress_default src (bsize src) capacity)
       <= LZ4_compressBound (bsize src))%Z
      /\ bsize (snd (LZ4_compress_default src (bsize src) capacity))
         = fst (LZ4_compress_default src (bsize src) capacity)
      /\ LZ4_decompress_safe (snd (LZ4_compress_default src (bsize src) capacity))
           (fst (LZ4_compress_default src (bsize src) capacity)) (bsize src)
         = (bsize src, src)
}.

(** A codec that stores the bytes as they are after one marker byte, with
    the bound of the library. *)
#[local] Instance stored_codec : LZ4 := {|
  LZ4_decompress_safe := fun src n capacity =>
    if (1 <=? n)%Z && (n - 1 <=? capacity)%Z
    then ((n - 1)%Z, firstn (Z.to_nat (n - 1)) (skipn 1 src))
    else ((-1)%Z, []);
  LZ4_compressBound := fun n => (n + n / 255 + 16)%Z;
  LZ4_compress_default := fun src n capacity =>
    if (n + 1 <=? capacity)%Z then ((n + 1)%Z, Byte.x00 :: firstn (Z.to_nat n) src)
    else (0%Z, [])
|}.
(** ** Unique handles *)

(** The valid handles among the members [f] of the objects at [l]. *)
Definition held `{HandleTraits} (f : nat -> Z) (l : list nat) : list Z :=
  filter (fun h => negb (h =? null_value)%Z) (map f l).

(** The valid handles that the living objects hold. *)
Definition owned `{HandleTraits} (st : handle_state) : list Z :=
  filter (fun h => negb (h =? null_value)%Z) (map (handle st) (live st)).

(** The handle that one object adds to the handles held. *)
Definition valid_part `{HandleTraits} (h : Z) : list Z :=
  if negb (h =? null_value)%Z then [h] else [].

(** The handles that an operation hands over to an object. *)
Definition acquired_by `{HandleTraits} (o : handle_op) : list Z :=
  match o with
  | OpConstructFrom _ h | OpAssignHandle _ h => if (h =? null_value)%Z then [] else [h]
  | _ => []
  end.

Definition acquired `{HandleTraits} (ops : list handle_op) : list Z :=
  flat_map acquired_by ops.

(** An operation that the language and the owner of the handles allow in a
    state: a constructor runs at an address where no object lives, every
    other operation on living objects, and a handle that is handed over is
    null or one that no object holds and that has not been closed. *)
Definition op_allowed `{HandleTraits} (st : handle_state) (o : handle_op) : Prop :=
  let new a := ~ In a (live st) in
  let alive a := In a (live st) in
  let fresh h := h = null_value \/ (~ In h (owned st) /\ ~ In h (closed st)) in
  match o with
  | OpConstruct this => new this
  | OpConstructFrom this h => new this /\ fresh h
  | OpMoveConstruct this other => new this /\ alive other
  | OpMoveAssign this other => alive this /\ alive other
  | OpAssignHandle this h => alive this /\ fresh h
  | OpReset this => alive this
  | OpSwap this other => alive this /\ alive other
  | OpDestroy this => alive this
  end.

Fixpoint ops_allowed `{HandleTraits} (st : handle_state) (ops : list handle_op) : Prop :=
  match ops with
  | [] => True
  | o :: rest => op_allowed st o /\ ops_allowed (run_op st o) rest
  end.

(** No handle is held twice or held after it has been closed or closed
    twice, and the handles held or closed are the ones handed over. *)
Definition handles_accounted `{HandleTraits} (st : handle_state) (handed_over : list Z)
  : Prop :=
  NoDup (live st) /\ NoDup (owned st ++ closed st)
  /\ Permutation (owned st ++ closed st) handed_over.

Definition no_objects : handle_state :=
  {| handle := fun _ => 0%Z; live := []; closed := [] |}.

(** ** Objects as they are written *)
















Definition value_offset (offset : nat) (key : u8string) : nat := offset + length key + 3.












(** ** The references of the example *)









(** ** Tactics for texts and for the members of an example *)






(* ------------------------------------------------------------------------- *)
(** * Properties *)

(** ** Lists and buffers *)

Lemma firstn_snoc {A : Type} (l : list A) (n : nat) (x : A) :
  nth_error l n = Some x -> firstn (S n) l = firstn n l ++ [x].
Proof.
  revert n. induction l as [|y l IH]; intros [|n] H; simpl in *; try discriminate.
  - inversion H. reflexivity.
  - rewrite (IH n H). reflexivity.
Qed.

Lemma at_in_range (json : u8string) (i : nat) :
  i < length json -> exists c, at_ json i = Some c.
Proof.
  intros H. unfold at_. destruct (nth_error json i) eqn:E; [eauto|].
  apply nth_error_None in E. lia.
Qed.

Lemma at_some_lt (json : u8string) (i : nat) (c : ascii) :
  at_ json i = Some c -> i < length json.
Proof. intros H. apply nth_error_Some. unfold at_ in H. congruence. Qed.

Lemma skipn_at (json : u8string) (i : nat) (c : ascii) :
  at_ json i = Some c -> skipn i json = c :: skipn (S i) json.
Proof.
  revert i. induction json as [|x json IH]; intros [|i] H; simpl in *; try discriminate.
  - inversion H. reflexivity.
  - apply IH. exact H.
Qed.

Lemma u8_eqb_eq (a b : u8string) : u8_eqb a b = true <-> a = b.
Proof.
  revert b. induction a as [|x a IH]; intros [|y b]; simpl; split; try congruence.
  - intros H. apply andb_true_iff in H. destruct H as [H1 H2].
    apply Ascii.eqb_eq in H1. apply IH in H2. congruence.
  - intros H. inversion H; subst. rewrite Ascii.eqb_refl. apply IH. reflexivity.
Qed.

(** ** The header check *)

(** C7, as stated, fails: a file of header size with the right magic and
    version 5, whose compressed info size is 0, is refused as not a valid save
    file, not as an unsupported version. *)
Lemma version_gate_after_size_check :
  sizeof_SaveFileHeader <= length version5_no_sizes
  /\ magic (header_of version5_no_sizes) = mm_save_file_magic
  /\ version (header_of version5_no_sizes) = 5%Z
  /\ version (header_of version5_no_sizes) <> mm_save_file_supported_version
  /\ read_save_file_header version5_no_sizes = Throw InvalidFormat
  /\ read_save_file_header version5_no_sizes <> Throw (UnsupportedVersion 5).
Proof.
  repeat split; try (vm_compute; congruence).
  vm_compute. lia.
Qed.

(** C7 (amended): a file shorter than the header, or whose magic mismatches,
    or with a size field that is not positive, is refused with InvalidFormat;
    a file of at least the header size with the right magic and four positive
    sizes whose version is not 4 is refused with UnsupportedVersion carrying
    the version read from the header. *)
Theorem read_save_file_header_gate (file_data : list Byte.byte) :
  (length file_data < sizeof_SaveFileHeader
   \/ magic (header_of file_data) <> mm_save_file_magic
   \/ ~ sizes_positive (header_of file_data) ->
   read_save_file_header file_data = Throw InvalidFormat)
  /\ (sizeof_SaveFileHeader <= length file_data ->
      magic (header_of file_data) = mm_save_file_magic ->
      sizes_positive (header_of file_data) ->
      version (header_of file_data) <> mm_save_file_supported_version ->
      read_save_file_header file_data
      = Throw (UnsupportedVersion (version (header_of file_data)))).
Proof.
  unfold read_save_file_header, sizes_positive.
  split.
  - intros H.
    destruct (Nat.ltb_spec (length file_data) sizeof_SaveFileHeader) as [|Hlen]; [reflexivity|].
    destruct H as [H | [H | H]]; [lia | |].
    + apply Z.eqb_neq in H. rewrite H. reflexivity.
    + destruct (magic (header_of file_data) =? mm_save_file_magic)%Z; [|reflexivity].
      destruct (Z.leb_spec (compressed_info_size (header_of file_data)) 0); [reflexivity|].
      destruct (Z.leb_spec (decompressed_info_size (header_of file_data)) 0); [reflexivity|].
      destruct (Z.leb_spec (compressed_data_size (header_of file_data)) 0); [reflexivity|].
      destruct (Z.leb_spec (decompressed_data_size (header_of file_data)) 0); [reflexivity|].
      exfalso. apply H. lia.
  - intros Hlen Hmagic (H1 & H2 & H3 & H4) Hver.
    destruct (Nat.ltb_spec (length file_data) sizeof_SaveFileHeader); [lia|].
    rewrite Hmagic, Z.eqb_refl.
    destruct (Z.leb_spec (compressed_info_size (header_of file_data)) 0); [lia|].
    destruct (Z.leb_spec (decompressed_info_size (header_of file_data)) 0); [lia|].
    destruct (Z.leb_spec (compressed_data_size (header_of file_data)) 0); [lia|].
    destruct (Z.leb_spec (decompressed_data_size (header_of file_data)) 0); [lia|].
    apply Z.eqb_neq in Hver. rewrite Hver. reflexivity.
Qed.

Lemma read_save_file_header_gate_witness :
  read_save_file_header (firstn 23 version5_header) = Throw InvalidFormat
  /\ read_save_file_header version5_header = Throw (UnsupportedVersion 5).
Proof.
  split.
  - apply (proj1 (read_save_file_header_gate (firstn 23 version5_header))).
    left. vm_compute. lia.
  - apply (proj2 (read_save_file_header_gate version5_header)).
    + vm_compute. lia.
    + reflexivity.
    + vm_compute. repeat split.
    + vm_compute. congruence.
Defined.

(** ** The forward quote scan *)

Lemma between_snoc (json : u8string) (a i : nat) (c : ascii) :
  a <= i -> at_ json i = Some c -> between json a (S i) = between json a i ++ [c].
Proof.
  intros Hle H. unfold between.
  replace (S i - a) with (S (i - a)) by lia.
  apply firstn_snoc. rewrite nth_error_skipn.
  replace (a + (i - a)) with i by lia. exact H.
Qed.

Lemma between_empty (json : u8string) (a : nat) : between json a a = [].
Proof. unfold between. rewrite Nat.sub_diag. reflexivity. Qed.

Lemma escaped_after_step (json : u8string) (a i : nat) (c : ascii) :
  a <= i -> at_ json i = Some c ->
  escaped_after json a (S i) = toggle_escape (escaped_after json a i) c.
Proof.
  intros Hle H. unfold escaped_after.
  rewrite (between_snoc json a i c Hle H), fold_left_app. reflexivity.
Qed.

Lemma find_closing_quote_from_spec (json : u8string) (o : nat) :
  forall (fuel i : nat),
    o + 1 <= i -> length json - i <= fuel ->
    closing_quote_outcome json o i
      (find_closing_quote_from fuel json i (escaped_after json (o + 1) i)).
Proof.
  induction fuel as [|fuel IH]; intros i Hi Hfuel.
  - simpl. destruct (Nat.leb_spec (length json) i); [|lia].
    simpl. split; [reflexivity|]. intros k Hk. lia.
  - simpl. destruct (Nat.leb_spec (length json) i) as [Hout|Hin].
    + simpl. split; [reflexivity|]. intros k Hk. lia.
    + destruct (at_in_range json i Hin) as [c Hc]. unfold read. rewrite Hc.
      pose proof (escaped_after_step json (o + 1) i c Hi Hc) as Hstep. unfold toggle_escape in Hstep.
      assert (Hnext : forall r, closing_quote_outcome json o (S i) r ->
                (at_ json i = Some ch_quote -> escaped_after json (o + 1) i = true) ->
                closing_quote_outcome json o i r).
      { intros r Hr Hq. destruct r as [q|e| |]; simpl in *; try exact Hr.
        - destruct Hr as (H1 & H2 & H3 & H4). repeat split; try lia; try assumption.
          intros k Hk Hkq. destruct (Nat.eq_dec k i) as [->|]; [auto|]. apply H4; [lia|assumption].
        - destruct Hr as (H1 & H2). split; [assumption|].
          intros k Hk Hkq. destruct (Nat.eq_dec k i) as [->|]; [auto|]. apply H2; [lia|assumption]. }
      destruct (Ascii.eqb_spec c ch_backslash) as [->|Hnb].
      * rewrite <- Hstep. apply Hnext; [apply IH; lia|].
        intros Hq. rewrite Hc in Hq. discriminate.
      * destruct (Ascii.eqb_spec c ch_quote) as [->|Hnq].
        -- destruct (escaped_after json (o + 1) i) eqn:E; simpl.
           ++ rewrite <- Hstep. apply Hnext; [apply IH; lia|]. intros _. reflexivity.
           ++ repeat split; try lia; try assumption.
        -- rewrite <- Hstep. apply Hnext; [apply IH; lia|].
           intros Hq. rewrite Hc in Hq. congruence.
Qed.

Lemma find_closing_quote_outcome (json : u8string) (o : nat) :
  closing_quote_outcome json o (o + 1) (find_closing_quote json o).
Proof.
  unfold find_closing_quote.
  pose proof (find_closing_quote_from_spec json o (length json - (o + 1)) (o + 1)) as H.
  unfold escaped_after in H at 1. rewrite between_empty in H. simpl fold_left in H.
  apply H; lia.
Qed.

Lemma escaped_after_odd_run (seg : u8string) :
  fold_left toggle_escape seg false = Nat.odd (backslash_run seg).
Proof.
  unfold backslash_run.
  assert (G : forall (l : u8string) (e : bool) (n : nat), e = Nat.odd n ->
            fold_left toggle_escape l e
            = Nat.odd (fold_left (fun n c => if Ascii.eqb c ch_backslash then S n else 0) l n)).
  { induction l as [|c l IH]; intros e n He; simpl; [exact He|].
    apply IH. unfold toggle_escape. destruct (Ascii.eqb c ch_backslash).
    - rewrite Nat.odd_succ, <- Nat.negb_odd, He. reflexivity.
    - reflexivity. }
  apply G. reflexivity.
Qed.

Lemma backslash_run_after (a b : u8string) (x : ascii) :
  x <> ch_backslash -> backslash_run (a ++ x :: b) = backslash_run b.
Proof.
  intros Hx. unfold backslash_run. rewrite fold_left_app. cbn [fold_left].
  destruct (Ascii.eqb_spec x ch_backslash); [contradiction|reflexivity].
Qed.

(** After a character that is no backslash, the run before [k] is the run
    inside the stretch since that character. *)
Lemma run_before_between (json : u8string) (i k : nat) (x : ascii) :
  at_ json i = Some x -> x <> ch_backslash -> i < k ->
  run_before json k = backslash_run (between json (i + 1) k).
Proof.
  intros Hx Hn Hk. unfold run_before, between.
  assert (E : firstn k json = firstn i json ++ x :: firstn (k - (i + 1)) (skipn (i + 1) json)).
  { rewrite <- (firstn_skipn i json) at 1.
    rewrite firstn_app, length_firstn.
    pose proof (at_some_lt json i x Hx).
    rewrite Nat.min_l by lia.
    rewrite (firstn_all2 (n := k)) by (rewrite length_firstn; lia).
    f_equal. rewrite (skipn_at json i x Hx).
    replace (k - i) with (S (k - (i + 1))) by lia. cbn [firstn].
    replace (i + 1) with (S i) by lia. reflexivity. }
  rewrite E. apply backslash_run_after. exact Hn.
Qed.

(** C8: from the opening quote at [o], find_closing_quote returns the first
    later double quote at which the escaped flag (toggled by a backslash,
    cleared by any other character) is clear, and it throws MalformedJson when
    the buffer has no such quote; the flag is set at an offset exactly when
    the run of backslashes just before that offset is odd. *)
Theorem find_closing_quote_first_unescaped (json : u8string) (o : nat) :
  at_ json o = Some ch_quote ->
  match find_closing_quote json o with
  | Ok q =>
      o < q < length json /\ at_ json q = Some ch_quote
      /\ escaped_after json (o + 1) q = false
      /\ forall k, o < k < q -> at_ json k = Some ch_quote ->
                   escaped_after json (o + 1) k = true
  | Throw e =>
      e = MalformedJson
      /\ forall k, o < k < length json -> at_ json k = Some ch_quote ->
                   escaped_after json (o + 1) k = true
  | Undefined | OutOfFuel => False
  end
  /\ forall k, o < k -> escaped_after json (o + 1) k = Nat.odd (run_before json k).
Proof.
  intros Hquote. split.
  - pose proof (find_closing_quote_outcome json o) as H.
    destruct (find_closing_quote json o) as [q|e| |]; simpl in H; try exact H.
    + destruct H as (H1 & H2 & H3 & H4). repeat split; try lia; try assumption.
      intros k Hk. apply H4. lia.
    + destruct H as (H1 & H2). split; [assumption|]. intros k Hk. apply H2. lia.
  - intros k Hk. unfold escaped_after. rewrite escaped_after_odd_run.
    rewrite (run_before_between json o k ch_quote Hquote) by (discriminate || exact Hk).
    reflexivity.
Qed.

Lemma find_closing_quote_first_unescaped_witness :
  let json := json_of "{'a\'b\\':1,'c':'d" in
  find_closing_quote json 1 = Ok 8
  /\ escaped_after json 2 4 = true /\ escaped_after json 2 8 = false
  /\ exists e, find_closing_quote json 16 = Throw e /\ e = MalformedJson.
Proof.
  cbv zeta.
  pose proof (find_closing_quote_first_unescaped (json_of "{'a\'b\\':1,'c':'d") 1 eq_refl)
    as [H1 _].
  pose proof (find_closing_quote_first_unescaped (json_of "{'a\'b\\':1,'c':'d") 16 eq_refl)
    as [H2 _].
  split; [vm_compute; reflexivity|].
  split; [vm_compute; reflexivity|]. split; [vm_compute; reflexivity|].
  destruct (find_closing_quote (json_of "{'a\'b\\':1,'c':'d") 16) as [q|e| |] eqn:E;
    try (vm_compute in E; discriminate).
  exists e. split; [reflexivity | apply H2].
Defined.

(** ** The backward quote scan *)

Lemma backslash_run_snoc (l : u8string) (c : ascii) :
  backslash_run (l ++ [c])
  = if Ascii.eqb c ch_backslash then S (backslash_run l) else 0.
Proof. unfold backslash_run. rewrite fold_left_app. reflexivity. Qed.

Lemma run_before_succ (json : u8string) (i : nat) (c : ascii) :
  at_ json i = Some c ->
  run_before json (S i) = if Ascii.eqb c ch_backslash then S (run_before json i) else 0.
Proof.
  intros H. unfold run_before. rewrite (firstn_snoc json i c H). apply backslash_run_snoc.
Qed.

Lemma run_before_backslashes (json : u8string) (k : nat) :
  k <= length json ->
  run_before json k <= k
  /\ forall j, k - run_before json k <= j < k -> at_ json j = Some ch_backslash.
Proof.
  induction k as [|k IH]; intros Hk.
  - split; [reflexivity|]. intros j Hj. lia.
  - destruct (at_in_range json k) as [c Hc]; [lia|].
    rewrite (run_before_succ json k c Hc).
    destruct (Ascii.eqb_spec c ch_backslash) as [->|Hn].
    + destruct IH as [I1 I2]; [lia|]. split; [lia|].
      intros j Hj. destruct (Nat.eq_dec j k) as [->|]; [exact Hc|]. apply I2. lia.
    + split; [lia|]. intros j Hj. lia.
Qed.

Lemma count_preceeding_backslashes_from_run (json : u8string) (offset : nat) :
  forall i, i < offset -> offset <= length json ->
    count_preceeding_backslashes_from json offset i
    = Ok (offset - i - 1 + run_before json (S i)).
Proof.
  induction i as [|i IH]; intros Hi Hoff.
  - destruct (at_in_range json 0) as [c Hc]; [lia|].
    cbn [count_preceeding_backslashes_from]. unfold read.
    rewrite Hc, (run_before_succ json 0 c Hc).
    change (run_before json 0) with 0.
    destruct (Ascii.eqb c ch_backslash); cbn [negb]; f_equal; lia.
  - destruct (at_in_range json (S i)) as [c Hc]; [lia|].
    cbn [count_preceeding_backslashes_from]. unfold read.
    rewrite Hc, (run_before_succ json (S i) c Hc).
    destruct (Ascii.eqb c ch_backslash); cbn [negb].
    + rewrite IH by lia. f_equal. lia.
    + f_equal. lia.
Qed.

Lemma count_preceeding_backslashes_run (json : u8string) (k : nat) :
  k <= length json -> count_preceeding_backslashes json k = Ok (run_before json k).
Proof.
  intros Hk. destruct k as [|i]; [reflexivity|].
  cbn [count_preceeding_backslashes].
  rewrite count_preceeding_backslashes_from_run by lia. f_equal. lia.
Qed.

Lemma mod2_odd (n : nat) : (n mod 2 =? 1) = Nat.odd n.
Proof.
  rewrite <- Nat.bit0_mod, Nat.bit0_odd. destruct (Nat.odd n); reflexivity.
Qed.

Lemma rfind_opening_quote_from_spec (json : u8string) (c : nat) :
  c <= length json ->
  forall fuel i, i < fuel -> i < c ->
    (forall k, i < k < c -> at_ json k = Some ch_quote -> Nat.odd (run_before json k) = true) ->
    opening_quote_outcome json c (rfind_opening_quote_from fuel json i).
Proof.
  intros Hc. induction fuel as [|fuel IH]; intros i Hfuel Hi Habove; [lia|].
  destruct (at_in_range json i) as [x Hx]; [lia|].
  cbn [rfind_opening_quote_from]. unfold read. rewrite Hx.
  destruct (run_before_backslashes json i) as [Hrun Hbs]; [lia|].
  destruct (Ascii.eqb_spec x ch_quote) as [->|Hnq].
  - rewrite count_preceeding_backslashes_run by lia. cbn [bind].
    destruct (Nat.eqb_spec (run_before json i) 0) as [Hz|Hnz].
    + simpl. repeat split; assumption.
    + rewrite mod2_odd. destruct (Nat.odd (run_before json i)) eqn:Hodd.
      * assert (Hq : forall k, i - run_before json i <= k < c ->
                  at_ json k = Some ch_quote -> Nat.odd (run_before json k) = true).
        { intros k Hk Hkq. destruct (Nat.lt_trichotomy k i) as [Hlt|[->|Hgt]].
          - rewrite (Hbs k) in Hkq by lia. discriminate.
          - exact Hodd.
          - apply Habove; [lia|exact Hkq]. }
        destruct (i - run_before json i) as [|i'] eqn:Ei.
        -- simpl. split; [reflexivity|]. left. intros k Hk. apply Hq. lia.
        -- apply IH; [lia|lia|]. intros k Hk. apply Hq. lia.
      * simpl. split; [reflexivity|]. right. exists i.
        repeat split; try assumption.
        rewrite <- Nat.negb_odd, Hodd. reflexivity.
  - assert (Hq : forall k, i <= k < c -> at_ json k = Some ch_quote ->
                Nat.odd (run_before json k) = true).
    { intros k Hk Hkq. destruct (Nat.eq_dec k i) as [->|].
      - rewrite Hx in Hkq. congruence.
      - apply Habove; [lia|exact Hkq]. }
    destruct i as [|i'].
    + simpl. split; [reflexivity|]. left. intros k Hk. apply Hq. lia.
    + apply IH; [lia|lia|]. intros k Hk. apply Hq. lia.
Qed.

Lemma rfind_opening_quote_outcome (json : u8string) (c : nat) :
  c <= length json -> opening_quote_outcome json c (rfind_opening_quote json c).
Proof.
  intros Hc. destruct c as [|i].
  - simpl. split; [reflexivity|]. left. intros k Hk. lia.
  - cbn [rfind_opening_quote].
    apply (rfind_opening_quote_from_spec json (S i) Hc (S i) i); lia.
Qed.

(** C5, as stated, fails: the quote at offset 3 is the first one met below
    the closing quote at offset 5, the run of backslashes before it has the
    even length 2, and the scan throws instead of returning 3. *)
Lemma even_run_is_refused :
  at_ even_run_buffer 5 = Some ch_quote
  /\ at_ even_run_buffer 4 <> Some ch_quote
  /\ at_ even_run_buffer 3 = Some ch_quote
  /\ count_preceeding_backslashes even_run_buffer 3 = Ok 2
  /\ rfind_opening_quote even_run_buffer 5 = Throw MalformedJson
  /\ rfind_opening_quote even_run_buffer 5 <> Ok 3.
Proof. repeat split; vm_compute; congruence. Qed.

(** C5 (amended): count_preceeding_backslashes is the length of the run of
    backslashes just before an offset; scanning backward from the closing
    quote, find_opening_quote_before passes every quote whose run is odd, and
    at the first quote whose run is not odd it returns that quote's offset when
    the run is empty and throws MalformedJson when the run is even and not
    empty; it throws MalformedJson too when it reaches the start of the buffer
    without such a quote. *)
Theorem rfind_opening_quote_run_parity (json : u8string) (c : nat) :
  c <= length json ->
  (forall k, k <= length json ->
             count_preceeding_backslashes json k = Ok (run_before json k)
             /\ run_before json k <= k
             /\ (forall j, k - run_before json k <= j < k -> at_ json j = Some ch_backslash)
             /\ (run_before json k < k ->
                 at_ json (k - run_before json k - 1) <> Some ch_backslash))
  /\ match rfind_opening_quote json c with
     | Ok q =>
         q < c /\ at_ json q = Some ch_quote /\ run_before json q = 0
         /\ forall k, q < k < c -> at_ json k = Some ch_quote ->
                      Nat.odd (run_before json k) = true
     | Throw e =>
         e = MalformedJson
         /\ ((forall k, k < c -> at_ json k = Some ch_quote ->
                        Nat.odd (run_before json k) = true)
             \/ exists q, q < c /\ at_ json q = Some ch_quote
                          /\ run_before json q <> 0 /\ Nat.even (run_before json q) = true
                          /\ forall k, q < k < c -> at_ json k = Some ch_quote ->
                                       Nat.odd (run_before json k) = true)
     | Undefined | OutOfFuel => False
     end.
Proof.
  intros Hc. split.
  - intros k Hk. split; [apply count_preceeding_backslashes_run; exact Hk|].
    destruct (run_before_backslashes json k Hk) as [H1 H2].
    split; [exact H1|]. split; [exact H2|].
    intros Hlt Hbs.
    (* a backslash just before the run would belong to it *)
    assert (G : forall m, m <= length json -> forall j, j < m ->
                (forall x, j <= x < m -> at_ json x = Some ch_backslash) ->
                m - j <= run_before json m).
    { induction m as [|m IHm]; intros Hm j Hj Hall; [lia|].
      rewrite (run_before_succ json m ch_backslash) by (apply Hall; lia).
      rewrite Ascii.eqb_refl.
      destruct (Nat.eq_dec j m) as [->|]; [lia|].
      assert (m - j <= run_before json m); [|lia].
      apply IHm; [lia|lia|]. intros x Hx. apply Hall. lia. }
    specialize (G k Hk (k - run_before json k - 1)).
    assert (k - (k - run_before json k - 1) <= run_before json k); [|lia].
    apply G; [lia|].
    intros x Hx. destruct (Nat.eq_dec x (k - run_before json k - 1)) as [->|]; [exact Hbs|].
    apply H2. lia.
  - exact (rfind_opening_quote_outcome json c Hc).
Qed.

Lemma rfind_opening_quote_run_parity_witness :
  8 <= length (json_of "{'a\'b\\':1}")
  /\ opening_quote_outcome (json_of "{'a\'b\\':1}") 8
       (rfind_opening_quote (json_of "{'a\'b\\':1}") 8).
Proof.
  assert (Hc : 8 <= length (json_of "{'a\'b\\':1}")) by (vm_compute; lia).
  split; [exact Hc|].
  exact (proj2 (rfind_opening_quote_run_parity (json_of "{'a\'b\\':1}") 8 Hc)).
Defined.

(** ** The brace scans *)

Section BraceScans.

Variable json : u8string.

Lemma is_open_not_close (x : ascii) : is_open x = true -> is_close x = false.
Proof.
  unfold is_open, is_close.
  destruct (Ascii.eqb_spec x ch_lbrace) as [->|]; [reflexivity|].
  destruct (Ascii.eqb_spec x ch_lbracket) as [->|]; [reflexivity|]. discriminate.
Qed.

Lemma is_open_not_quote (x : ascii) : is_open x = true -> Ascii.eqb x ch_quote = false.
Proof.
  unfold is_open.
  destruct (Ascii.eqb_spec x ch_lbrace) as [->|]; [reflexivity|].
  destruct (Ascii.eqb_spec x ch_lbracket) as [->|]; [reflexivity|]. discriminate.
Qed.

Lemma closer_of_props (x : ascii) :
  is_open x = true ->
  Ascii.eqb (closer_of x) ch_quote = false /\ is_open (closer_of x) = false
  /\ is_close (closer_of x) = true /\ opener_of (closer_of x) = x.
Proof.
  unfold is_open, closer_of.
  destruct (Ascii.eqb_spec x ch_lbrace) as [->|]; [repeat split|].
  destruct (Ascii.eqb_spec x ch_lbracket) as [->|]; [repeat split|]. discriminate.
Qed.

Lemma rfind_opening_quote_below (i q : nat) :
  i <= length json -> rfind_opening_quote json i = Ok q -> q < i.
Proof.
  intros Hi H. pose proof (rfind_opening_quote_outcome json i Hi) as Ho.
  rewrite H in Ho. simpl in Ho. lia.
Qed.

(** The backward brace scan does not depend on the fuel once there is
    enough of it. *)
Lemma rfind_opening_brace_from_fuel :
  forall (fuel1 fuel2 i : nat) (stack : list ascii),
    i < fuel1 -> i < fuel2 ->
    rfind_opening_brace_from fuel1 json i stack = rfind_opening_brace_from fuel2 json i stack.
Proof.
  induction fuel1 as [|fuel1 IH]; intros fuel2 i stack H1 H2; [lia|].
  destruct fuel2 as [|fuel2]; [lia|].
  cbn [rfind_opening_brace_from]. unfold read.
  destruct (at_ json i) as [x|] eqn:Hx; [|reflexivity].
  pose proof (at_some_lt json i x Hx) as Hlt.
  destruct (Ascii.eqb x ch_quote).
  - destruct (rfind_opening_quote json i) as [q|e| |] eqn:Hq; cbn [bind]; try reflexivity.
    apply rfind_opening_quote_below in Hq; [|lia].
    destruct q as [|q]; [reflexivity|]. apply IH; lia.
  - destruct (is_close x).
    + destruct i as [|i]; [reflexivity|]. apply IH; lia.
    + destruct (is_open x).
      * destruct stack as [|top rest]; [reflexivity|].
        destruct (Ascii.eqb x top); [|reflexivity].
        destruct rest; [reflexivity|].
        destruct i as [|i]; [reflexivity|]. apply IH; lia.
      * destruct i as [|i]; [reflexivity|]. apply IH; lia.
Qed.

Lemma rscan_step (i : nat) (stack : list ascii) :
  rscan json (S i) stack
  = read json i (fun c =>
      if Ascii.eqb c ch_quote then
        j <- rfind_opening_quote json i ;; rscan json j stack
      else if is_close c then rscan json i (opener_of c :: stack)
      else if is_open c then
        match stack with
        | [] => Undefined
        | top :: rest =>
            if Ascii.eqb c top then
              match rest with
              | [] => Ok i
              | _ :: _ => rscan json i rest
              end
            else Throw MalformedJson
        end
      else rscan json i stack).
Proof.
  unfold rscan at 1. cbn [rfind_opening_brace_from]. unfold read.
  destruct (at_ json i) as [x|] eqn:Hx; [|reflexivity].
  pose proof (at_some_lt json i x Hx) as Hlt.
  assert (Hn : forall k st, k <= i ->
             match k with
             | 0 => Throw MalformedJson
             | S k' => rfind_opening_brace_from i json k' st
             end = rscan json k st).
  { intros [|k] st Hk; [reflexivity|]. apply rfind_opening_brace_from_fuel; lia. }
  destruct (Ascii.eqb x ch_quote).
  - destruct (rfind_opening_quote json i) as [q|e| |] eqn:Hq; cbn [bind]; try reflexivity.
    apply rfind_opening_quote_below in Hq; [|lia]. apply Hn. lia.
  - destruct (is_close x); [apply Hn; lia|].
    destruct (is_open x); [|apply Hn; lia].
    destruct stack as [|top rest]; [reflexivity|].
    destruct (Ascii.eqb x top); [|reflexivity].
    destruct rest; [reflexivity|]. apply Hn; lia.
Qed.

Lemma rfind_opening_brace_rscan (start : nat) (brace : ascii) :
  rfind_opening_brace json start brace = rscan json (S start) [brace].
Proof. reflexivity. Qed.

(** Where the scans return: the forward one at a closing brace at or after
    its start, the backward one at an opening brace. *)
Lemma find_closing_brace_from_returns :
  forall (fuel i : nat) (stack : list ascii) (c : nat),
    find_closing_brace_from fuel json i stack = Ok c ->
    i <= c /\ exists x, at_ json c = Some x /\ is_close x = true.
Proof.
  induction fuel as [|fuel IH]; intros i stack c H; cbn [find_closing_brace_from] in H.
  - destruct (length json <=? i); discriminate.
  - destruct (length json <=? i); [discriminate|].
    unfold read in H. destruct (at_ json i) as [x|] eqn:Hx; [|discriminate].
    destruct (Ascii.eqb x ch_quote).
    + pose proof (find_closing_quote_outcome json i) as Hq.
      destruct (find_closing_quote json i) as [q|e| |]; cbn [bind] in H; try discriminate.
      simpl in Hq. apply IH in H. destruct H as [H1 H2]. split; [lia|exact H2].
    + destruct (is_open x).
      * apply IH in H. destruct H as [H1 H2]. split; [lia|exact H2].
      * destruct (is_close x) eqn:Hcl.
        -- destruct stack as [|top rest]; [discriminate|].
           destruct (Ascii.eqb x top); [|discriminate].
           destruct rest.
           ++ inversion H; subst. split; [lia|]. exists x. split; assumption.
           ++ apply IH in H. destruct H as [H1 H2]. split; [lia|exact H2].
        -- apply IH in H. destruct H as [H1 H2]. split; [lia|exact H2].
Qed.

Lemma rfind_opening_brace_from_returns :
  forall (fuel i : nat) (stack : list ascii) (p : nat),
    rfind_opening_brace_from fuel json i stack = Ok p ->
    p <= i /\ exists x, at_ json p = Some x /\ is_open x = true.
Proof.
  induction fuel as [|fuel IH]; intros i stack p H; cbn [rfind_opening_brace_from] in H;
    [discriminate|].
  unfold read in H. destruct (at_ json i) as [x|] eqn:Hx; [|discriminate].
  pose proof (at_some_lt json i x Hx) as Hlt.
  destruct (Ascii.eqb x ch_quote).
  - destruct (rfind_opening_quote json i) as [q|e| |] eqn:Hq; cbn [bind] in H; try discriminate.
    apply rfind_opening_quote_below in Hq; [|lia].
    destruct q as [|q]; [discriminate|]. apply IH in H. destruct H as [H1 H2].
    split; [lia|exact H2].
  - destruct (is_close x).
    + destruct i as [|i]; [discriminate|]. apply IH in H. destruct H as [H1 H2].
      split; [lia|exact H2].
    + destruct (is_open x) eqn:Hop.
      * destruct stack as [|top rest]; [discriminate|].
        destruct (Ascii.eqb x top); [|discriminate].
        destruct rest.
        -- inversion H; subst. split; [lia|]. exists x. split; assumption.
        -- destruct i as [|i]; [discriminate|]. apply IH in H. destruct H as [H1 H2].
           split; [lia|exact H2].
      * destruct i as [|i]; [discriminate|]. apply IH in H. destruct H as [H1 H2].
        split; [lia|exact H2].
Qed.

Lemma closes_front (i i' : nat) (stack : list ascii) (c : nat) :
  (forall m, balanced json i' m -> balanced json i m) ->
  closes json i' stack c -> closes json i stack c.
Proof.
  intros Hb. destruct stack as [|top [|t rest]]; simpl; [tauto| |].
  - intros [H1 H2]. split; [apply Hb; exact H1|exact H2].
  - intros (m & H1 & H2 & H3). exists m. split; [apply Hb; exact H1|]. split; assumption.
Qed.

Lemma run_before_zero (i : nat) :
  i <= length json -> ~ after_backslash json i -> run_before json i = 0.
Proof.
  intros Hi Hn. destruct i as [|p]; [reflexivity|].
  destruct (at_in_range json p) as [y Hy]; [lia|].
  rewrite (run_before_succ json p y Hy).
  destruct (Ascii.eqb_spec y ch_backslash) as [->|]; [|reflexivity].
  exfalso. apply Hn. exists p. split; [reflexivity|exact Hy].
Qed.

(** The round trip of the quote scans: the closing quote found from an
    opening quote that does not follow a backslash leads back to it. *)
Lemma rfind_opening_quote_of_closing (i q : nat) :
  at_ json i = Some ch_quote -> ~ after_backslash json i ->
  find_closing_quote json i = Ok q ->
  rfind_opening_quote json q = Ok i.
Proof.
  intros Hi Hna Hq.
  pose proof (find_closing_quote_outcome json i) as Hf. rewrite Hq in Hf. simpl in Hf.
  destruct Hf as (Hiq & Hqq & Hesc & Hin).
  pose proof (at_some_lt json i _ Hi) as Hlt.
  assert (Hnb : ch_quote <> ch_backslash) by discriminate.
  assert (Hodd : forall k, i < k < q -> at_ json k = Some ch_quote ->
                 Nat.odd (run_before json k) = true).
  { intros k Hk Hkq.
    rewrite (run_before_between json i k ch_quote Hi Hnb) by lia.
    rewrite <- escaped_after_odd_run. apply Hin; [lia|exact Hkq]. }
  pose proof (run_before_zero i (Nat.lt_le_incl _ _ Hlt) Hna) as Hzero.
  pose proof (rfind_opening_quote_outcome json q) as Hb.
  destruct (rfind_opening_quote json q) as [q'|e| |]; simpl in Hb.
  - destruct Hb as (B1 & B2 & B3 & B4); [lia|].
    destruct (Nat.lt_trichotomy q' i) as [Hl|[->|Hg]]; [|reflexivity|].
    + specialize (B4 i). rewrite Hzero in B4. cbn in B4.
      assert (false = true) by (apply B4; [lia|exact Hi]). discriminate.
    + specialize (Hodd q'). rewrite B3 in Hodd. cbn in Hodd.
      assert (false = true) by (apply Hodd; [lia|exact B2]). discriminate.
  - exfalso. destruct Hb as [_ [Hall | (q' & B1 & B2 & B3 & B4 & B5)]]; [lia| |].
    + specialize (Hall i). rewrite Hzero in Hall. cbn in Hall.
      assert (false = true) by (apply Hall; [lia|exact Hi]). discriminate.
    + destruct (Nat.lt_trichotomy q' i) as [Hl|[->|Hg]].
      * specialize (B5 i). rewrite Hzero in B5. cbn in B5.
        assert (false = true) by (apply B5; [lia|exact Hi]). discriminate.
      * contradiction.
      * specialize (Hodd q'). rewrite <- Nat.negb_even, B4 in Hodd. cbn in Hodd.
        assert (false = true) by (apply Hodd; [lia|exact B2]). discriminate.
  - exfalso. apply Hb. lia.
  - exfalso. apply Hb. lia.
Qed.

(** The forward scan, when it returns, has walked a chain of balanced
    stretches. *)
Lemma find_closing_brace_from_closes (c : nat) :
  forall (fuel i : nat) (stack : list ascii),
    stack <> [] ->
    find_closing_brace_from fuel json i stack = Ok c ->
    clean_strings json c i ->
    closes json i stack c.
Proof.
  induction fuel as [|fuel IH]; intros i stack Hne H Hclean;
    cbn [find_closing_brace_from] in H.
  - destruct (length json <=? i); discriminate.
  - destruct (length json <=? i); [discriminate|].
    unfold read in H. destruct (at_ json i) as [x|] eqn:Hx; [|discriminate].
    destruct (Ascii.eqb_spec x ch_quote) as [->|Hnq].
    + destruct (find_closing_quote json i) as [q|e| |] eqn:Hq; cbn [bind] in H;
        try discriminate.
      pose proof (find_closing_quote_outcome json i) as Hf. rewrite Hq in Hf. simpl in Hf.
      destruct (find_closing_brace_from_returns _ _ _ _ H) as [Hle _].
      inversion Hclean as [? Hstop | ? q' Hlt Hquote Hna Hq' Hrest | ? y Hlt Hy Hyn Hrest];
        subst.
      * lia.
      * rewrite Hq in Hq'. inversion Hq'; subst q'.
        apply (closes_front i (S q)); [|apply IH; assumption].
        intros m Hm. apply (balanced_string json i q m); [tauto| |exact Hm].
        apply rfind_opening_quote_of_closing; assumption.
      * rewrite Hx in Hy. inversion Hy; subst. contradiction.
    + assert (Hq : Ascii.eqb x ch_quote = false) by (apply Ascii.eqb_neq; exact Hnq).
      assert (Hnext : S i <= c -> clean_strings json c (S i)).
      { intros Hle.
        inversion Hclean as [? Hstop | ? q' Hlt Hquote Hna Hq' Hrest | ? y Hlt Hy Hyn Hrest];
          subst.
        - lia.
        - congruence.
        - exact Hrest. }
      destruct (is_open x) eqn:Hop.
      * destruct (find_closing_brace_from_returns _ _ _ _ H) as [Hle _].
        assert (Hne' : closer_of x :: stack <> []) by discriminate.
        specialize (IH _ _ Hne' H (Hnext Hle)).
        destruct stack as [|top rest]; [congruence|].
        cbn [closes] in IH. destruct IH as (m & B1 & B2 & B3).
        apply (closes_front i (S m)); [|exact B3].
        intros m' Hm'. apply (balanced_group json i m m' x); assumption.
      * destruct (is_close x) eqn:Hcl.
        -- destruct stack as [|top rest]; [discriminate|].
           destruct (Ascii.eqb_spec x top) as [->|]; [|discriminate].
           destruct rest as [|t rest].
           ++ inversion H; subst. cbn [closes]. split; [constructor|exact Hx].
           ++ destruct (find_closing_brace_from_returns _ _ _ _ H) as [Hle _].
              assert (Hne' : t :: rest <> []) by discriminate.
              specialize (IH _ _ Hne' H (Hnext Hle)).
              cbn [closes]. exists i. split; [constructor|]. split; [exact Hx|exact IH].
        -- destruct (find_closing_brace_from_returns _ _ _ _ H) as [Hle _].
           apply (closes_front i (S i)); [|apply IH; auto].
           intros m Hm. apply (balanced_char json i m x); assumption.
Qed.

(** Over a balanced stretch the backward scan, with a stack that is not
    empty, comes back to where the stretch starts. *)
Lemma rscan_balanced (i j : nat) :
  balanced json i j ->
  forall stack, stack <> [] -> rscan json j stack = rscan json i stack.
Proof.
  induction 1 as [i | i j x Hx Hq Hop Hcl Hrest IH | i q j Hq Hback Hrest IH
                  | i m j x Hx Hop Hin IHin Hm Hrest IHrest];
    intros stack Hne.
  - reflexivity.
  - rewrite (IH stack Hne), rscan_step. unfold read. rewrite Hx, Hq, Hcl, Hop. reflexivity.
  - rewrite (IH stack Hne), rscan_step. unfold read.
    rewrite Hq, Ascii.eqb_refl, Hback. reflexivity.
  - destruct (closer_of_props x Hop) as (C1 & C2 & C3 & C4).
    rewrite (IHrest stack Hne), rscan_step. unfold read. rewrite Hm, C1, C3, C4.
    rewrite IHin by discriminate.
    rewrite rscan_step. unfold read.
    rewrite Hx, (is_open_not_quote x Hop), (is_open_not_close x Hop), Hop, Ascii.eqb_refl.
    destruct stack; [congruence|reflexivity].
Qed.

(** C10 (amended): when find_matching_brace at an opening brace returns the
    offset of a closing brace, and no string between the two braces opens
    directly after a backslash, find_matching_brace at the returned offset
    returns the offset of the opening brace. *)
Theorem find_matching_brace_round_trip (o c : nat) (x y : ascii) :
  at_ json o = Some x -> is_open x = true ->
  find_matching_brace json o = Ok c ->
  at_ json c = Some y -> is_close y = true ->
  clean_strings json c (o + 1) ->
  find_matching_brace json c = Ok o.
Proof.
  intros Hx Hop Hfwd Hy Hcl Hclean.
  unfold find_matching_brace, read in Hfwd. rewrite Hx, Hop in Hfwd.
  destruct (Nat.ltb_spec (o + 1) (length json)) as [Hin|Hlast].
  - unfold find_closing_brace in Hfwd.
    destruct (find_closing_brace_from_returns _ _ _ _ Hfwd) as [Hle _].
    assert (Hne : [closer_of x] <> []) by discriminate.
    pose proof (find_closing_brace_from_closes c _ _ _ Hne Hfwd Hclean) as Hc.
    cbn [closes] in Hc. destruct Hc as [Hbal Hc].
    rewrite Hy in Hc. inversion Hc; subst y.
    destruct (closer_of_props x Hop) as (C1 & C2 & C3 & C4).
    unfold find_matching_brace, read. rewrite Hy, C2, C3.
    destruct c as [|before]; [lia|].
    rewrite rfind_opening_brace_rscan, C4.
    rewrite (rscan_balanced (o + 1) (S before) Hbal) by discriminate.
    replace (o + 1) with (S o) by lia.
    rewrite rscan_step. unfold read.
    rewrite Hx, (is_open_not_quote x Hop), (is_open_not_close x Hop), Hop, Ascii.eqb_refl.
    reflexivity.
  - (* the brace is the last character: the result comes from the backward
       scan, which returns at opening braces only *)
    exfalso. destruct o as [|before]; [discriminate|].
    unfold rfind_opening_brace in Hfwd.
    destruct (rfind_opening_brace_from_returns _ _ _ _ Hfwd) as [_ (z & Hz & Hzo)].
    rewrite Hy in Hz. inversion Hz; subst z.
    rewrite (is_open_not_close y Hzo) in Hcl. discriminate.
Qed.

End BraceScans.

(** ** The brace scans come to a result *)

Lemma find_closing_brace_from_settled (json : u8string) :
  forall (fuel i : nat) (stack : list ascii),
    length json - i <= fuel -> stack <> [] ->
    settled (find_closing_brace_from fuel json i stack).
Proof.
  induction fuel as [|fuel IH]; intros i stack Hfuel Hne; cbn [find_closing_brace_from].
  - destruct (Nat.leb_spec (length json) i); [right; reflexivity|lia].
  - destruct (Nat.leb_spec (length json) i) as [|Hin]; [right; reflexivity|].
    destruct (at_in_range json i Hin) as [x Hx]. unfold read. rewrite Hx.
    destruct (Ascii.eqb x ch_quote).
    + pose proof (find_closing_quote_outcome json i) as Hq.
      destruct (find_closing_quote json i) as [q|e| |]; simpl in Hq; cbn [bind];
        try contradiction.
      * apply IH; [lia|exact Hne].
      * destruct Hq as [-> _]. right. reflexivity.
    + destruct (is_open x); [apply IH; [lia|discriminate]|].
      destruct (is_close x); [|apply IH; [lia|exact Hne]].
      destruct stack as [|top rest]; [congruence|].
      destruct (Ascii.eqb x top); [|right; reflexivity].
      destruct rest; [left; eexists; reflexivity|]. apply IH; [lia|discriminate].
Qed.

Lemma rfind_opening_brace_from_settled (json : u8string) :
  forall (fuel i : nat) (stack : list ascii),
    i < fuel -> i < length json -> stack <> [] ->
    settled (rfind_opening_brace_from fuel json i stack).
Proof.
  induction fuel as [|fuel IH]; intros i stack Hfuel Hin Hne; [lia|].
  cbn [rfind_opening_brace_from].
  destruct (at_in_range json i Hin) as [x Hx]. unfold read. rewrite Hx.
  assert (Hnext : forall k st, k <= i -> st <> [] ->
            settled match k with
                    | 0 => Throw MalformedJson
                    | S k' => rfind_opening_brace_from fuel json k' st
                    end).
  { intros [|k] st Hk Hst; [right; reflexivity|]. apply IH; [lia|lia|exact Hst]. }
  destruct (Ascii.eqb x ch_quote).
  - pose proof (rfind_opening_quote_outcome json i (Nat.lt_le_incl _ _ Hin)) as Hq.
    destruct (rfind_opening_quote json i) as [q|e| |]; simpl in Hq; cbn [bind];
      try contradiction.
    + apply Hnext; [lia|exact Hne].
    + destruct Hq as [-> _]. right. reflexivity.
  - destruct (is_close x); [apply Hnext; [lia|discriminate]|].
    destruct (is_open x); [|apply Hnext; [lia|exact Hne]].
    destruct stack as [|top rest]; [congruence|].
    destruct (Ascii.eqb x top); [|right; reflexivity].
    destruct rest; [left; eexists; reflexivity|]. apply Hnext; [lia|discriminate].
Qed.

(** At an offset inside the buffer, find_matching_brace returns an offset or
    throws MalformedJson. *)
Lemma find_matching_brace_settled (json : u8string) (o : nat) :
  o < length json -> settled (find_matching_brace json o).
Proof.
  intros Hin. unfold find_matching_brace, read.
  destruct (at_in_range json o Hin) as [x Hx]. rewrite Hx.
  assert (Hback : settled match o with
                          | 0 => Throw MalformedJson
                          | S before => rfind_opening_brace json before (opener_of x)
                          end).
  { destruct o as [|before]; [right; reflexivity|].
    apply rfind_opening_brace_from_settled; [lia|lia|discriminate]. }
  destruct (is_open x).
  - destruct (Nat.ltb_spec (o + 1) (length json)); [|exact Hback].
    apply find_closing_brace_from_settled; [lia|discriminate].
  - destruct (is_close x); [exact Hback|right; reflexivity].
Qed.

(** ** C6: a brace without a partner *)

(** C6 fails on the code: the opening brace at offset 1 is the last
    character of the buffer, which holds no closing brace at all, and
    find_matching_brace returns offset 0 instead of throwing. *)
Lemma find_matching_brace_last_open_brace :
  let json := json_of "[{" in
  at_ json 1 = Some ch_lbrace
  /\ (forall k x, at_ json k = Some x -> is_close x = false)
  /\ find_matching_brace json 1 = Ok 0.
Proof.
  cbv zeta. split; [reflexivity|]. split; [|reflexivity].
  intros [|[|k]] x H; simpl in H; inversion H; subst; try reflexivity.
  destruct k; discriminate.
Qed.

(** ** A walk that never ends *)

Lemma revisiting_data_facts :
  char_is revisiting_data 26 ch_quote = true
  /\ find_closing_quote revisiting_data 26 = Ok 35
  /\ (length revisiting_data <=? 35 + 2) = false
  /\ char_is revisiting_data (35 + 1) ch_colon = true
  /\ driver_field_callback (None, None, None) revisiting_data
       (string_view_between revisiting_data 26 35) (35 + 2) = Ok ((None, None, None), true)
  /\ value_end_from revisiting_data (35 + 2) = Ok 67
  /\ char_is revisiting_data (67 + 1) ch_comma = true
  /\ char_is revisiting_data (S (67 + 1)) ch_quote = true
  /\ find_closing_quote revisiting_data (S (67 + 1)) = Ok 71
  /\ (length revisiting_data <=? 71 + 2) = false
  /\ char_is revisiting_data (71 + 1) ch_colon = true
  /\ driver_field_callback (None, None, None) revisiting_data
       (string_view_between revisiting_data (S (67 + 1)) 71) (71 + 2)
     = Ok ((None, None, None), true)
  /\ value_end_from revisiting_data (71 + 2) = Ok 25
  /\ char_is revisiting_data (25 + 1) ch_comma = false.
Proof. repeat split; vm_compute; reflexivity. Qed.

(** From the contract key of [revisiting_data] the forward walk comes back
    to that key after two keys, in the state in which it started: whatever
    the fuel, it is used up. *)
Lemma sibling_keys_forward_revisits :
  forall fuel,
    sibling_keys_forward fuel revisiting_data 26 driver_field_callback (None, None, None)
    = OutOfFuel
    /\ sibling_keys_forward (S fuel) revisiting_data 26 driver_field_callback
         (None, None, None)
       = OutOfFuel.
Proof.
  destruct revisiting_data_facts
    as (F1 & F2 & F3 & F4 & F5 & F6 & F7 & F8 & F9 & F10 & F11 & F12 & F13 & F14).
  assert (Hstep : forall fuel,
            sibling_keys_forward (S (S fuel)) revisiting_data 26 driver_field_callback
              (None, None, None)
            = sibling_keys_forward fuel revisiting_data 26 driver_field_callback
                (None, None, None)).
  { intros fuel. cbn [sibling_keys_forward].
    rewrite F1. cbn [negb]. rewrite F2. cbn [bind]. rewrite F3, F4. cbn [negb orb].
    rewrite F5. cbn [bind snd fst negb]. rewrite F6. cbn [bind]. rewrite F7, F8.
    cbn [negb]. rewrite F9. cbn [bind]. rewrite F10, F11. cbn [negb orb].
    rewrite F12. cbn [bind snd fst negb]. rewrite F13. cbn [bind]. rewrite F14.
    reflexivity. }
  assert (H0 : sibling_keys_forward 0 revisiting_data 26 driver_field_callback
                 (None, None, None) = OutOfFuel).
  { cbn [sibling_keys_forward]. rewrite F1. reflexivity. }
  assert (H1 : sibling_keys_forward 1 revisiting_data 26 driver_field_callback
                 (None, None, None) = OutOfFuel).
  { cbn [sibling_keys_forward].
    rewrite F1. cbn [negb]. rewrite F2. cbn [bind]. rewrite F3, F4. cbn [negb orb].
    rewrite F5. cbn [bind snd fst negb]. rewrite F6. cbn [bind]. rewrite F7, F8.
    reflexivity. }
  induction fuel as [|fuel [IH1 IH2]].
  - split; assumption.
  - split; [exact IH2|]. rewrite Hstep. exact IH1.
Qed.

(** ** C10: the round trip of the brace scans on given buffers *)

(** C10, as stated, fails: the matching brace of the opening brace at offset
    0 is found at offset 5, a closing brace, and the scan back from there
    throws: the string between the braces opens right after a backslash, and
    the backward quote scan takes its opening quote for an escaped one. *)
Lemma round_trip_fails_after_backslash :
  at_ backslash_before_string 0 = Some ch_lbrace
  /\ find_matching_brace backslash_before_string 0 = Ok 5
  /\ at_ backslash_before_string 5 = Some ch_rbrace
  /\ find_matching_brace backslash_before_string 5 = Throw MalformedJson
  /\ find_matching_brace backslash_before_string 5 <> Ok 0.
Proof. repeat split; vm_compute; congruence. Qed.

Lemma find_matching_brace_round_trip_witness :
  find_matching_brace nested_example 0 = Ok 14
  /\ find_matching_brace nested_example 14 = Ok 0.
Proof.
  split; [vm_compute; reflexivity|].
  apply (find_matching_brace_round_trip nested_example 0 14 ch_lbrace ch_rbrace).
  - reflexivity.
  - reflexivity.
  - vm_compute. reflexivity.
  - reflexivity.
  - reflexivity.
  - unfold nested_example. cbn [Nat.add]. repeat clean_step.
Defined.

(** ** The driver records of an opened save *)

Lemma parse_driver_position_token (data : u8string) (offset : nat) (p : DriverPosition) :
  parse_driver_position data offset = Ok p -> token_at data offset p.
Proof.
  unfold parse_driver_position, read, token_at.
  destruct (offset + 2 <? length data); [|discriminate].
  destruct (at_ data offset) as [c0|] eqn:E0; [|discriminate].
  destruct (at_ data (offset + 1)) as [c1|] eqn:E1; [|discriminate].
  destruct (at_ data (offset + 2)) as [c2|] eqn:E2; [|discriminate].
  rewrite (skipn_at data offset c0 E0).
  replace (offset + 1) with (S offset) in E1 by lia.
  rewrite (skipn_at data (S offset) c1 E1).
  destruct (Ascii.eqb_spec c0 "-"%char) as [->|N0]; simpl.
  - destruct (Ascii.eqb_spec c1 "1"%char) as [->|N1]; simpl.
    + destruct (comma_or_rbrace c2) eqn:C2.
      * intros H. inversion H; subst. split; [reflexivity|].
        exists c2. split; [exact E2 | exact C2].
      * discriminate.
    + discriminate.
  - destruct (Ascii.eqb_spec c0 "0"%char) as [->|N0']; simpl.
    + destruct (comma_or_rbrace c1) eqn:C1; [|discriminate].
      intros H. inversion H; subst. split; [reflexivity|].
      exists c1. split; [|exact C1]. replace (offset + token_len car1) with (S offset); [exact E1|].
      unfold token_len. simpl. lia.
    + destruct (Ascii.eqb_spec c0 "1"%char) as [->|N0'']; simpl; [|discriminate].
      destruct (comma_or_rbrace c1) eqn:C1; [|discriminate].
      intros H. inversion H; subst. split; [reflexivity|].
      exists c1. split; [|exact C1]. replace (offset + token_len car2) with (S offset); [exact E1|].
      unfold token_len. simpl. lia.
Qed.

Lemma maybe_get_driver_fresh (data : u8string) (c : nat) (d : Driver) :
  maybe_get_driver data c = Ok (Some d) -> fresh_driver data d.
Proof.
  unfold maybe_get_driver.
  destruct (for_sibling_key_values_in_object data c driver_field_callback (None, None, None))
    as [[[cp fn] ln]|e| |]; simpl; try discriminate.
  destruct cp as [cp|]; [|discriminate]. destruct fn as [fn|]; [|discriminate].
  destruct ln as [ln|]; [|discriminate].
  destruct (parse_driver_position data cp) as [p|e| |] eqn:E; simpl; try discriminate.
  intros H. inversion H; subst. split; [exact E | reflexivity].
Qed.

Lemma collect_driver_fresh (data : u8string) (found : list Driver) (ref : nat)
  (found' : list Driver) :
  collect_driver data found ref = Ok found' ->
  Forall (fresh_driver data) found -> Forall (fresh_driver data) found'.
Proof.
  unfold collect_driver.
  destruct (find_employeer_team_ref_contract_offset data ref) as [[c|]|e| |];
    simpl; try discriminate.
  - destruct (maybe_get_driver data c) as [[d|]|e| |] eqn:E; simpl; try discriminate.
    + intros H Hf. inversion H; subst. apply Forall_app. split; [exact Hf|].
      constructor; [|constructor]. apply (maybe_get_driver_fresh data c d E).
    + intros H Hf. inversion H; subst. exact Hf.
  - intros H Hf. inversion H; subst. exact Hf.
Qed.

(** An invariant of the state is kept by the loop over the references. *)
Lemma for_each_ref_from_invariant {St : Type} (I : St -> Prop) (json pattern : u8string)
  (f : St -> nat -> result St) :
  (forall st p st', f st p = Ok st' -> I st -> I st') ->
  forall (fuel start : nat) (st st' : St),
    for_each_ref_from fuel json pattern start f st = Ok st' -> I st -> I st'.
Proof.
  intros Hf. induction fuel as [|fuel IH]; intros start st st' H Hi; simpl in H.
  - discriminate.
  - destruct (find json pattern start) as [p|].
    + destruct (f st p) as [st1|e| |] eqn:E; simpl in H; try discriminate.
      apply (IH _ _ _ H). apply (Hf _ _ _ E Hi).
    + inversion H; subst. exact Hi.
Qed.

Lemma insert_driver_perm (d : Driver) (l : list Driver) :
  Permutation (insert_driver d l) (d :: l).
Proof.
  induction l as [|x l IH]; simpl; [reflexivity|].
  destruct (car_id_file_offset d <? car_id_file_offset x); [reflexivity|].
  rewrite IH. apply perm_swap.
Qed.

Lemma sort_drivers_perm (l : list Driver) : Permutation (sort_drivers l) l.
Proof.
  induction l as [|d l IH]; simpl; [reflexivity|].
  rewrite insert_driver_perm. constructor. exact IH.
Qed.

Lemma insert_driver_sorted (d : Driver) (l : list Driver) :
  Sorted offset_le l -> Sorted offset_le (insert_driver d l).
Proof.
  induction l as [|x l IH]; intros Hs; simpl.
  - repeat constructor.
  - destruct (Nat.ltb_spec (car_id_file_offset d) (car_id_file_offset x)).
    + constructor; [exact Hs|]. constructor. unfold offset_le. lia.
    + inversion Hs as [|? ? Hs' Hhd]; subst. constructor; [apply IH; exact Hs'|].
      destruct l as [|y l]; simpl.
      * constructor. unfold offset_le. lia.
      * destruct (Nat.ltb_spec (car_id_file_offset d) (car_id_file_offset y)).
        -- constructor. unfold offset_le. lia.
        -- inversion Hhd; subst. constructor. assumption.
Qed.

Lemma sort_drivers_sorted (l : list Driver) : Sorted offset_le (sort_drivers l).
Proof.
  induction l as [|d l IH]; simpl; [constructor|]. apply insert_driver_sorted. exact IH.
Qed.

(** What [get_driver_data_from_json] returns: the sorted list of the records
    found, all of them as [maybe_get_driver] made them. *)
Lemma get_driver_data_from_json_fresh (data : u8string) (d0 d1 d2 : Driver) :
  get_driver_data_from_json data = Ok (d0, d1, d2) ->
  Forall (fresh_driver data) [d0; d1; d2]
  /\ car_id_file_offset d0 <= car_id_file_offset d1 <= car_id_file_offset d2.
Proof.
  unfold get_driver_data_from_json.
  destruct (get_player_team_id data) as [id|e| |]; simpl; try discriminate.
  destruct (for_each_employeer_team_ref data id (collect_driver data) []) as [found|e| |] eqn:E;
    simpl; try discriminate.
  destruct (length found =? 3); simpl; [|discriminate].
  pose proof (sort_drivers_perm found) as Hperm.
  pose proof (sort_drivers_sorted found) as Hsorted.
  destruct (sort_drivers found) as [|x0 [|x1 [|x2 [|? ?]]]]; try discriminate.
  intros H. inversion H; subst. split.
  - assert (Hf : Forall (fresh_driver data) found).
    { unfold for_each_employeer_team_ref in E.
      apply (for_each_ref_from_invariant (fun st => Forall (fresh_driver data) st)
               data (employeer_team_ref_str id) (collect_driver data)
               (collect_driver_fresh data) _ _ _ _ E).
      constructor. }
    rewrite Forall_forall in *. intros d Hd. apply Hf.
    apply (Permutation_in d Hperm Hd).
  - inversion Hsorted as [|? ? Hs1 Hh1]; subst. inversion Hs1 as [|? ? Hs2 Hh2]; subst.
    inversion Hh1; subst. inversion Hh2; subst. unfold offset_le in *. lia.
Qed.

Lemma edits_keep (sf : SaveFile) (es : list (nat * DriverPosition)) :
  save_info (edits sf es) = save_info sf /\ save_data (edits sf es) = save_data sf
  /\ save_name_offset (edits sf es) = save_name_offset sf
  /\ save_name_size (edits sf es) = save_name_size sf
  /\ let '(d0, d1, d2) := drivers sf in
     let '(e0, e1, e2) := drivers (edits sf es) in
     Forall2 (fun d e => original_position e = original_position d
                         /\ car_id_file_offset e = car_id_file_offset d
                         /\ name e = name d)
             [d0; d1; d2] [e0; e1; e2].
Proof.
  unfold edits. revert sf. induction es as [|[i p] es IH]; intros sf; simpl.
  - repeat split. destruct (drivers sf) as [[d0 d1] d2]. repeat constructor.
  - destruct (IH (edit sf i p)) as (H1 & H2 & H3 & H4 & H5).
    rewrite H1, H2, H3, H4. repeat split.
    simpl drivers in H5. unfold set_position in H5.
    destruct (drivers sf) as [[d0 d1] d2].
    destruct (drivers (fold_left _ es (edit sf i p))) as [[e0 e1] e2].
    destruct i as [|[|[|i]]]; simpl in H5;
      inversion H5 as [|? ? ? ? (A1 & A2 & A3) H5']; subst;
      inversion H5' as [|? ? ? ? (B1 & B2 & B3) H5'']; subst;
      inversion H5'' as [|? ? ? ? (C1 & C2 & C3) _]; subst;
      simpl in *; repeat constructor; assumption.
Qed.

(** C9: after a successful open, and after any sequence of edits of
    positions, each of the three driver records has at its
    car_id_file_offset in the data buffer the token of its original_position
    followed by a comma or a closing brace (decoding it yields
    original_position), and the three offsets are in ascending order. *)
Theorem drivers_invariant_of_open (info data : u8string) (sf : SaveFile)
  (es : list (nat * DriverPosition)) :
  open_SaveFile info data = Ok sf ->
  save_data (edits sf es) = data
  /\ drivers_invariant data (drivers sf)
  /\ drivers_invariant data (drivers (edits sf es)).
Proof.
  unfold open_SaveFile.
  destruct (get_save_name info) as [nm|e| |]; simpl; try discriminate.
  destruct (get_driver_data_from_json data) as [[[d0 d1] d2]|e| |] eqn:E; simpl;
    try discriminate.
  intros H. inversion H; subst. clear H.
  destruct (get_driver_data_from_json_fresh data d0 d1 d2 E) as [Hf Hs].
  inversion Hf as [|? ? [F0 _] Hf1]; subst. inversion Hf1 as [|? ? [F1 _] Hf2]; subst.
  inversion Hf2 as [|? ? [F2 _] _]; subst.
  match goal with |- context [edits ?s es] => set (sf := s) end.
  destruct (edits_keep sf es) as (_ & K2 & _ & _ & K5).
  split; [rewrite K2; reflexivity|].
  assert (Inv : drivers_invariant data (d0, d1, d2)).
  { simpl. unfold driver_ok.
    repeat split; try assumption; try lia; apply parse_driver_position_token; assumption. }
  split; [exact Inv|].
  simpl drivers in K5 at 1.
  destruct (drivers (edits sf es)) as [[e0 e1] e2].
  inversion K5 as [|? ? ? ? (A1 & A2 & A3) K5']; subst.
  inversion K5' as [|? ? ? ? (B1 & B2 & B3) K5'']; subst.
  inversion K5'' as [|? ? ? ? (C1 & C2 & C3) _]; subst.
  simpl. unfold driver_ok. rewrite A1, A2, B1, B2, C1, C2.
  exact Inv.
Qed.

Lemma drivers_invariant_of_open_witness :
  drivers_invariant example_data
    (drivers (edits example_session [(0, reserve); (1, car1); (0, car2)])).
Proof.
  apply (drivers_invariant_of_open example_info example_data example_session
           [(0, reserve); (1, car1); (0, car2)]).
  vm_compute. reflexivity.
Defined.

(** ** C4: the extraction of the drivers *)

Lemma find_from_occurrences (json pattern : u8string) :
  forall (s : u8string) (i : nat),
    s = skipn i json -> i <= length json ->
    match find_from pattern s i with
    | None => occurrences_from json pattern i = []
    | Some r =>
        i <= r <= length json
        /\ occurrences_from json pattern i = r :: occurrences_from json pattern (S r)
    end.
Proof.
  unfold occurrences_from.
  induction s as [|x s IH]; intros i Hs Hi.
  - assert (i = length json).
    { pose proof (length_skipn i json) as L. rewrite <- Hs in L. simpl in L. lia. }
    subst i. replace (S (length json) - length json) with 1 by lia.
    cbn [find_from seq filter]. rewrite <- Hs.
    destruct (starts_with [] pattern).
    + split; [lia|]. replace (S (length json) - S (length json)) with 0 by lia. reflexivity.
    + reflexivity.
  - assert (Hlt : i < length json).
    { pose proof (length_skipn i json) as L. rewrite <- Hs in L. simpl in L. lia. }
    assert (Hs' : s = skipn (S i) json).
    { destruct (at_in_range json i Hlt) as [y Hy].
      rewrite (skipn_at json i y Hy) in Hs. inversion Hs. reflexivity. }
    replace (S (length json) - i) with (S (S (length json) - S i)) by lia.
    cbn [find_from seq filter]. rewrite <- Hs.
    destruct (starts_with (x :: s) pattern).
    + split; [lia|reflexivity].
    + specialize (IH (S i) Hs' Hlt).
      destruct (find_from pattern s (S i)) as [r|].
      * destruct IH as [I1 I2]. split; [lia|exact I2].
      * exact IH.
Qed.

Lemma find_occurrences (json pattern : u8string) (start : nat) :
  match find json pattern start with
  | None => occurrences_from json pattern start = []
  | Some r =>
      start <= r <= length json
      /\ occurrences_from json pattern start = r :: occurrences_from json pattern (S r)
  end.
Proof.
  unfold find. destruct (Nat.ltb_spec (length json) start) as [Hout|Hin].
  - unfold occurrences_from. replace (S (length json) - start) with 0 by lia. reflexivity.
  - apply find_from_occurrences; [reflexivity|exact Hin].
Qed.

(** The loop over the references runs the callback on every occurrence of
    the pattern, in ascending order. *)
Lemma for_each_ref_from_occurrences {St : Type} (json pattern : u8string)
  (f : St -> nat -> result St) :
  forall (fuel start : nat) (st : St),
    S (S (length json) - start) <= fuel ->
    for_each_ref_from fuel json pattern start f st
    = fold_result f (occurrences_from json pattern start) st.
Proof.
  induction fuel as [|fuel IH]; intros start st Hfuel; [lia|].
  cbn [for_each_ref_from].
  pose proof (find_occurrences json pattern start) as Hf.
  destruct (find json pattern start) as [r|].
  - destruct Hf as [Hr Ho]. rewrite Ho. cbn [fold_result].
    destruct (f st r) as [st'|e| |]; cbn [bind]; try reflexivity.
    replace (r + 1) with (S r) by lia. apply IH. lia.
  - rewrite Hf. reflexivity.
Qed.





(** ** The sizes of the output buffers *)

Lemma wrap_small (z : Z) : (0 <= z < 2 ^ 64)%Z -> wrap z = z.
Proof. intros H. unfold wrap. apply Z.mod_small. exact H. Qed.

Lemma wrap_add_l (a b : Z) : wrap (wrap a + b) = wrap (a + b).
Proof. unfold wrap. apply Zplus_mod_idemp_l. Qed.

Lemma DriverPosition_eqb_eq (a b : DriverPosition) :
  DriverPosition_eqb a b = true <-> a = b.
Proof. destruct a, b; simpl; split; congruence. Qed.

Lemma token_delta_diff (d : Driver) :
  token_delta d = (token_size (position d) - token_size (original_position d))%Z.
Proof.
  unfold token_delta.
  destruct (DriverPosition_eqb (position d) (original_position d)) eqn:E; [|reflexivity].
  apply DriverPosition_eqb_eq in E. rewrite E. lia.
Qed.

Lemma data_out_size_sum (data : u8string) (ds : list Driver) :
  ds <> [] -> data_out_size data ds = wrap (size data + changed_delta_sum ds).
Proof.
  unfold data_out_size. generalize (size data) as z.
  induction ds as [|d rest IH]; intros z Hne; [congruence|].
  simpl. fold (token_size (original_position d)). fold (token_size (position d)).
  destruct rest as [|d' rest'].
  - simpl. rewrite wrap_add_l, token_delta_diff. f_equal. lia.
  - rewrite IH by congruence.
    rewrite wrap_add_l, <- Z.add_assoc, wrap_add_l, token_delta_diff.
    f_equal. simpl. lia.
Qed.

Lemma output_buffer_sizes_exact (info data : u8string) (name_size : nat) (new_name : u8string)
  (ds : driver_array) :
  let new_info := (size info - Z.of_nat name_size + size new_name)%Z in
  let new_data := (size data + changed_delta_sum (drivers_list ds))%Z in
  (0 <= new_info)%Z -> (0 <= new_data)%Z -> (new_info + new_data < 2 ^ 64)%Z ->
  info_out_size info name_size new_name = new_info
  /\ data_out_size data (drivers_list ds) = new_data
  /\ create_uncompressed_output_buffer info data name_size new_name ds
     = Ok ({| written := []; remaining := new_info |},
           {| written := []; remaining := new_data |}).
Proof.
  intros new_info new_data Hi Hd Hsum.
  assert (Ei : info_out_size info name_size new_name = new_info).
  { unfold info_out_size. rewrite wrap_add_l. apply wrap_small. subst new_info. lia. }
  assert (Ed : data_out_size data (drivers_list ds) = new_data).
  { rewrite data_out_size_sum by (destruct ds as [[? ?] ?]; discriminate).
    apply wrap_small. subst new_data. lia. }
  split; [exact Ei|]. split; [exact Ed|].
  unfold create_uncompressed_output_buffer. rewrite Ei, Ed.
  rewrite (wrap_small (new_info + new_data)) by lia.
  destruct (Z.ltb_spec (new_info + new_data) new_info); [lia|].
  do 3 f_equal. lia.
Qed.

(** C2: the data span of the output has the length of the original data plus
    the sum, over the drivers whose position differs from the original one,
    of new token length minus original token length, and the info span has
    the length of the original info minus the old name length plus the new
    name length (the lengths being ones a size_t can hold). *)
Theorem output_buffer_sizes (info data : u8string) (name_size : nat) (new_name : u8string)
  (ds : driver_array) :
  let new_info := (size info - Z.of_nat name_size + size new_name)%Z in
  let new_data := (size data + changed_delta_sum (drivers_list ds))%Z in
  (0 <= new_info)%Z -> (0 <= new_data)%Z -> (new_info + new_data < 2 ^ 64)%Z ->
  info_out_size info name_size new_name = new_info
  /\ data_out_size data (drivers_list ds) = new_data
  /\ create_uncompressed_output_buffer info data name_size new_name ds
     = Ok ({| written := []; remaining := new_info |},
           {| written := []; remaining := new_data |}).
Proof. exact (output_buffer_sizes_exact info data name_size new_name ds). Qed.

Lemma output_buffer_sizes_witness :
  create_uncompressed_output_buffer (json_of "{'name':'old'}")
    (json_of "0123456789012345678901234567890123456789") 3 (json_of "longer")
    three_edited_drivers
  = Ok ({| written := []; remaining := 17 |}, {| written := []; remaining := 40 |}).
Proof.
  apply (output_buffer_sizes (json_of "{'name':'old'}")
           (json_of "0123456789012345678901234567890123456789") 3 (json_of "longer")
           three_edited_drivers); vm_compute; congruence.
Defined.

(** ** Filling the output buffers *)

Lemma token_size_len (p : DriverPosition) : token_size p = Z.of_nat (token_len p).
Proof. reflexivity. Qed.

Lemma token_len_pos (p : DriverPosition) : 1 <= token_len p <= 2.
Proof. destruct p; vm_compute; lia. Qed.

Lemma tokens_fit_bound (data : u8string) (ds : list Driver) (from : nat) :
  tokens_fit data ds from -> from <= length data.
Proof.
  revert from. induction ds as [|d rest IH]; simpl; intros from H; [exact H|].
  destruct H as [H1 H2]. apply IH in H2. lia.
Qed.

Lemma token_delta_changed (d : Driver) :
  token_delta d
  = if changed d then (token_size (position d) - token_size (original_position d))%Z
    else 0%Z.
Proof.
  unfold token_delta, changed.
  destruct (DriverPosition_eqb (position d) (original_position d)); reflexivity.
Qed.

Lemma copy_changed_positions_cons (data : u8string) (d : Driver) (rest : list Driver)
  (not_copied_offset : Z) (b : out_span) :
  copy_changed_positions data (d :: rest) not_copied_offset b
  = if changed d then
      s <- substr data not_copied_offset
             (wrap (Z.of_nat (car_id_file_offset d) - not_copied_offset)) ;;
      b1 <- copy_to_buffer s b ;;
      b2 <- copy_to_buffer (get_position_as_json_value (position d)) b1 ;;
      copy_changed_positions data rest
        (wrap (Z.of_nat (car_id_file_offset d) + token_size (original_position d))) b2
    else copy_changed_positions data rest not_copied_offset b.
Proof. reflexivity. Qed.

(** The changed drivers never take more room away than their original
    tokens hold. *)
Lemma tokens_fit_room (data : u8string) (ds : list Driver) (from : nat) :
  tokens_fit data (filter changed ds) from ->
  (Z.of_nat from <= size data + changed_delta_sum ds)%Z.
Proof.
  revert from. induction ds as [|d rest IH]; simpl; intros from H.
  - unfold size. lia.
  - rewrite token_delta_changed.
    destruct (changed d); simpl in H.
    + destruct H as [H1 H2]. apply IH in H2.
      rewrite !token_size_len.
      pose proof (token_len_pos (position d)). lia.
    + apply IH in H. lia.
Qed.

Lemma size_app (a b : u8string) : size (a ++ b) = (size a + size b)%Z.
Proof. unfold size. rewrite length_app. lia. Qed.

Lemma substr_inside (s : u8string) (pos off : nat) :
  pos <= off <= length s -> (size s < 2 ^ 64)%Z ->
  substr s (Z.of_nat pos) (wrap (Z.of_nat off - Z.of_nat pos))
  = Ok (firstn (off - pos) (skipn pos s)).
Proof.
  intros H Hs. unfold substr, size in *.
  destruct (Z.ltb_spec (Z.of_nat (length s)) (Z.of_nat pos)); [lia|].
  rewrite wrap_small by lia.
  rewrite Z.min_l by lia. rewrite Nat2Z.id. do 2 f_equal. lia.
Qed.

Lemma substr_rest (s : u8string) (pos : nat) :
  pos <= length s -> (size s < 2 ^ 64)%Z ->
  substr s (Z.of_nat pos) npos = Ok (skipn pos s).
Proof.
  intros H Hs. unfold substr, size, npos in *.
  destruct (Z.ltb_spec (Z.of_nat (length s)) (Z.of_nat pos)); [lia|].
  rewrite Z.min_r by lia. rewrite Nat2Z.id. f_equal.
  apply firstn_all2. rewrite length_skipn. lia.
Qed.

Lemma copy_to_buffer_ok (s : u8string) (b : out_span) :
  (size s <= remaining b)%Z ->
  copy_to_buffer s b = Ok {| written := written b ++ s; remaining := remaining b - size s |}.
Proof.
  intros H. unfold copy_to_buffer.
  destruct (Z.ltb_spec (remaining b) (size s)); [lia | reflexivity].
Qed.

(** The loop over the drivers, started with exactly the room that the rest
    of the construction needs, copies without overflow and leaves exactly the
    room of the tail. *)
Lemma copy_changed_positions_fills (data : u8string) (ds : list Driver) :
  (size data < 2 ^ 64)%Z ->
  forall (not_copied : nat) (b : out_span),
    tokens_fit data (filter changed ds) not_copied ->
    remaining b = (size data - Z.of_nat not_copied + changed_delta_sum ds)%Z ->
    exists (not_copied' : nat) (b' : out_span),
      copy_changed_positions data ds (Z.of_nat not_copied) b = Ok (Z.of_nat not_copied', b')
      /\ not_copied' <= length data
      /\ remaining b' = (size data - Z.of_nat not_copied')%Z
      /\ written b' ++ skipn not_copied' data = written b ++ patched_data data ds not_copied.
Proof.
  intros Hsize. induction ds as [|d rest IH]; intros nc b Hfit Hrem.
  - simpl in *. exists nc, b. repeat split; try assumption. lia.
  - rewrite copy_changed_positions_cons.
    simpl changed_delta_sum in Hrem. rewrite token_delta_changed in Hrem.
    simpl filter in Hfit. simpl patched_data.
    destruct (changed d) eqn:E.
    + destruct Hfit as [Hle Hfit].
      pose proof (tokens_fit_bound _ _ _ Hfit) as Hb.
      pose proof (tokens_fit_room _ _ _ Hfit) as Hroom.
      pose proof (token_len_pos (position d)) as Hp.
      pose proof (token_len_pos (original_position d)) as Ho.
      rewrite !token_size_len in *. unfold size in Hroom, Hrem, Hsize.
      rewrite substr_inside by (unfold size; lia).
      cbn [bind].
      assert (Hs1 : size (firstn (car_id_file_offset d - nc) (skipn nc data))
                    = Z.of_nat (car_id_file_offset d - nc)).
      { unfold size. rewrite length_firstn, length_skipn. lia. }
      rewrite copy_to_buffer_ok by (rewrite Hs1; lia).
      cbn [bind].
      rewrite copy_to_buffer_ok
        by (cbn [remaining]; rewrite Hs1; fold (token_size (position d));
            rewrite token_size_len; lia).
      cbn [bind remaining written]. rewrite Hs1.
      fold (token_size (position d)). rewrite token_size_len.
      rewrite wrap_small by lia.
      rewrite <- Nat2Z.inj_add.
      destruct (IH (car_id_file_offset d + token_len (original_position d))
                  {| written := (written b ++ firstn (car_id_file_offset d - nc) (skipn nc data))
                                ++ get_position_as_json_value (position d);
                     remaining := remaining b - Z.of_nat (car_id_file_offset d - nc)
                                  - Z.of_nat (token_len (position d)) |})
        as (nc' & b' & H1 & H2 & H3 & H4).
      * exact Hfit.
      * cbn [remaining]. unfold size. lia.
      * exists nc', b'. repeat split; try assumption.
        rewrite H4. cbn [written]. rewrite <- !app_assoc. reflexivity.
    + apply IH; [exact Hfit | lia].
Qed.

Lemma changed_delta_sum_le (ds : list Driver) :
  (changed_delta_sum ds <= Z.of_nat (length ds))%Z.
Proof.
  induction ds as [|d rest IH]; simpl; [lia|].
  rewrite token_delta_changed, !token_size_len.
  pose proof (token_len_pos (position d)). pose proof (token_len_pos (original_position d)).
  destruct (changed d); lia.
Qed.

Lemma substr_prefix (s : u8string) (n : nat) :
  n <= length s -> substr s 0 (Z.of_nat n) = Ok (firstn n s).
Proof.
  intros H. unfold substr, size.
  destruct (Z.ltb_spec (Z.of_nat (length s)) 0); [lia|].
  rewrite Z.min_l by lia. rewrite Nat2Z.id. reflexivity.
Qed.

(** When the name lies inside the info buffer and the original tokens of the
    changed drivers lie one after the other inside the data buffer, the
    construction fills both spans exactly. *)
Lemma create_uncompressed_output_fills (info data : u8string) (name_offset name_size : nat)
  (new_name : u8string) (ds : driver_array) :
  name_offset + name_size <= length info ->
  tokens_fit data (filter changed (drivers_list ds)) 0 ->
  (size info < 2 ^ 64)%Z -> (size data < 2 ^ 64)%Z ->
  (size info - Z.of_nat name_size + size new_name
   + (size data + changed_delta_sum (drivers_list ds)) < 2 ^ 64)%Z ->
  create_uncompressed_output info data name_offset name_size new_name ds
  = Ok (patched_info info name_offset name_size new_name,
        patched_data data (drivers_list ds) 0).
Proof.
  intros Hname Hfit Hsi Hsd Hsz.
  pose proof (tokens_fit_room _ _ _ Hfit) as Hroom.
  unfold size in Hsz, Hroom, Hsi, Hsd.
  unfold create_uncompressed_output.
  destruct (output_buffer_sizes_exact info data name_size new_name ds) as (_ & _ & E);
    try (unfold size; lia).
  rewrite E. cbn [bind fst snd].
  rewrite substr_prefix by lia. cbn [bind].
  assert (L1 : size (firstn name_offset info) = Z.of_nat name_offset).
  { unfold size. rewrite length_firstn. lia. }
  rewrite copy_to_buffer_ok by (cbn [remaining]; rewrite L1; unfold size; lia).
  cbn [bind].
  rewrite copy_to_buffer_ok by (cbn [remaining written]; rewrite L1; unfold size; lia).
  cbn [bind remaining written].
  rewrite <- Nat2Z.inj_add, wrap_small by lia.
  rewrite substr_rest by (unfold size; lia). cbn [bind].
  assert (L3 : size (skipn (name_offset + name_size) info)
               = (Z.of_nat (length info) - Z.of_nat (name_offset + name_size))%Z).
  { unfold size. rewrite length_skipn. lia. }
  rewrite copy_to_buffer_ok by (cbn [remaining]; rewrite L1, L3; unfold size; lia).
  cbn [bind remaining written].
  destruct (copy_changed_positions_fills data (drivers_list ds)) with
    (not_copied := 0)
    (b := {| written := []; remaining := (size data + changed_delta_sum (drivers_list ds))%Z |})
    as (nc' & b' & H1 & H2 & H3 & H4);
    [unfold size; lia | exact Hfit | cbn [remaining]; lia |].
  change 0%Z with (Z.of_nat 0). rewrite H1. cbn [bind fst snd].
  rewrite substr_rest by (unfold size; lia). cbn [bind].
  assert (L4 : size (skipn nc' data) = (size data - Z.of_nat nc')%Z).
  { unfold size. rewrite length_skipn. lia. }
  rewrite copy_to_buffer_ok by (rewrite L4, H3; lia).
  cbn [bind remaining written].
  rewrite L1, L3, L4, H3.
  replace (size info - Z.of_nat name_size + size new_name - Z.of_nat name_offset
           - size new_name - (Z.of_nat (length info) - Z.of_nat (name_offset + name_size)))%Z
    with 0%Z by (unfold size; lia).
  replace (size data - Z.of_nat nc' - (size data - Z.of_nat nc'))%Z with 0%Z by lia.
  cbn [Z.eqb negb orb].
  rewrite H4. cbn [written app]. unfold patched_info. rewrite <- app_assoc. reflexivity.
Qed.

Lemma patched_data_size (data : u8string) (ds : list Driver) (not_copied : nat) :
  tokens_fit data (filter changed ds) not_copied ->
  size (patched_data data ds not_copied)
  = (size data - Z.of_nat not_copied + changed_delta_sum ds)%Z.
Proof.
  revert not_copied. induction ds as [|d rest IH]; intros nc Hfit.
  - simpl in *. unfold size. rewrite length_skipn. lia.
  - simpl patched_data. simpl changed_delta_sum. rewrite token_delta_changed.
    simpl filter in Hfit. destruct (changed d).
    + destruct Hfit as [Hle Hfit]. pose proof (tokens_fit_bound _ _ _ Hfit).
      rewrite !size_app, (IH _ Hfit), !token_size_len.
      unfold size, token_len. rewrite length_firstn, length_skipn. lia.
    + rewrite (IH _ Hfit). lia.
Qed.

(** ** C3: fill exactness *)

(** C3, as stated, fails.  First: three drivers sorted by strictly ascending
    offset, each original token inside the data buffer and even readable there
    as the driver's original position, and the name inside the info buffer;
    the token of the second driver starts inside the token of the first, and
    the copy overflows the data span.  Second: a save that opens, with a
    driver found under two contract keys and so stored twice at one offset;
    once both records are edited, the copy overflows as well. *)
Lemma overflow_when_tokens_overlap :
  (let info := json_of "{'name':'n'}" in
   let data := json_of "-1,0,xyz" in
   let '(d0, d1, d2) := overlapping_tokens in
   car_id_file_offset d0 < car_id_file_offset d1 < car_id_file_offset d2
   /\ Forall (fun d => car_id_file_offset d + token_len (original_position d) <= length data
                       /\ parse_driver_position data (car_id_file_offset d)
                          = Ok (original_position d))
             [d0; d1; d2]
   /\ 9 + 1 <= length info
   /\ create_uncompressed_output info data 9 1 (json_of "n") overlapping_tokens
      = Throw (InternalError CopyOutOfMemory))
  /\ exists sf,
       open_SaveFile example_info twice_contracted_data = Ok sf
       /\ drivers_invariant twice_contracted_data (drivers sf)
       /\ Forall (fun d => car_id_file_offset d + token_len (original_position d)
                           <= length twice_contracted_data)
                 (drivers_list (drivers sf))
       /\ save_name_offset sf + save_name_size sf <= length example_info
       /\ uncompressed_output_of (edits sf [(0, car2); (1, car2)]) (save_name_of sf)
          = Throw (InternalError CopyOutOfMemory).
Proof.
  split.
  - cbv zeta. unfold overlapping_tokens.
    split; [simpl; lia|].
    split; [repeat constructor; vm_compute; lia|].
    split; [vm_compute; lia|].
    vm_compute. reflexivity.
  - destruct (open_SaveFile example_info twice_contracted_data) as [sf| | |] eqn:E;
      try (vm_compute in E; discriminate).
    exists sf. split; [reflexivity|].
    vm_compute in E. inversion E; subst. clear E.
    split.
    { cbn [drivers drivers_invariant]. unfold driver_ok, token_at.
      repeat split; try (vm_compute; reflexivity); try (vm_compute; lia);
        eexists; split; vm_compute; reflexivity. }
    split; [repeat constructor; vm_compute; lia|].
    split; [vm_compute; lia|].
    vm_compute. reflexivity.
Qed.

(** C3 (amended): when the three drivers are sorted ascending by
    car_id_file_offset, each offset plus the length of its original token lies
    within the data buffer, the original token of a changed driver ends at or
    before the offset of every later changed driver, and the save name lies
    within the info buffer, the construction fills both output buffers
    exactly: it returns them, and neither internal error is raised. *)
Theorem create_uncompressed_output_exact (info data : u8string)
  (name_offset name_size : nat) (new_name : u8string) (d0 d1 d2 : Driver) :
  car_id_file_offset d0 <= car_id_file_offset d1 <= car_id_file_offset d2 ->
  Forall (fun d => car_id_file_offset d + token_len (original_position d) <= length data)
         [d0; d1; d2] ->
  (changed d0 = true -> changed d1 = true ->
   car_id_file_offset d0 + token_len (original_position d0) <= car_id_file_offset d1) ->
  (changed d0 = true -> changed d2 = true ->
   car_id_file_offset d0 + token_len (original_position d0) <= car_id_file_offset d2) ->
  (changed d1 = true -> changed d2 = true ->
   car_id_file_offset d1 + token_len (original_position d1) <= car_id_file_offset d2) ->
  name_offset + name_size <= length info ->
  (size info + size new_name + size data + 3 < 2 ^ 64)%Z ->
  create_uncompressed_output info data name_offset name_size new_name (d0, d1, d2)
  = Ok (patched_info info name_offset name_size new_name,
        patched_data data [d0; d1; d2] 0)
  /\ size (patched_info info name_offset name_size new_name)
     = (size info - Z.of_nat name_size + size new_name)%Z
  /\ size (patched_data data [d0; d1; d2] 0)
     = (size data + changed_delta_sum [d0; d1; d2])%Z.
Proof.
  intros Hsorted Hin H01 H02 H12 Hname Hsz.
  inversion Hin as [|? ? I0 Hin1]; subst. inversion Hin1 as [|? ? I1 Hin2]; subst.
  inversion Hin2 as [|? ? I2 _]; subst.
  assert (Hfit : tokens_fit data (filter changed [d0; d1; d2]) 0).
  { simpl. destruct (changed d0), (changed d1), (changed d2); simpl;
      repeat split; try lia;
      try (specialize (H01 eq_refl eq_refl)); try (specialize (H02 eq_refl eq_refl));
      try (specialize (H12 eq_refl eq_refl)); lia. }
  split.
  - pose proof (changed_delta_sum_le [d0; d1; d2]) as Hle. simpl length in Hle.
    apply (create_uncompressed_output_fills info data name_offset name_size new_name
             (d0, d1, d2) Hname Hfit); unfold size in *; simpl drivers_list; lia.
  - split.
    + unfold patched_info, size.
      rewrite !length_app, length_firstn, length_skipn. lia.
    + rewrite (patched_data_size data [d0; d1; d2] 0 Hfit). lia.
Qed.

Lemma create_uncompressed_output_exact_witness :
  create_uncompressed_output (json_of "{'name':'old'}")
    (json_of "{'a':0,'b':-1,'c':1}") 9 3 (json_of "renamed")
    ({| name := json_of "A B"; position := reserve; original_position := car1;
        car_id_file_offset := 5 |},
     {| name := json_of "C D"; position := car1; original_position := reserve;
        car_id_file_offset := 11 |},
     {| name := json_of "E F"; position := car2; original_position := car2;
        car_id_file_offset := 18 |})
  = Ok (json_of "{'name':'renamed'}", json_of "{'a':-1,'b':0,'c':1}").
Proof.
  refine (proj1 (create_uncompressed_output_exact (json_of "{'name':'old'}")
           (json_of "{'a':0,'b':-1,'c':1}") 9 3 (json_of "renamed")
           {| name := json_of "A B"; position := reserve; original_position := car1;
              car_id_file_offset := 5 |}
           {| name := json_of "C D"; position := car1; original_position := reserve;
              car_id_file_offset := 11 |}
           {| name := json_of "E F"; position := car2; original_position := car2;
              car_id_file_offset := 18 |} _ _ _ _ _ _ _)).
  - simpl. lia.
  - repeat constructor; vm_compute; lia.
  - intros _ _. vm_compute. lia.
  - intros _ _. vm_compute. lia.
  - intros _ _. vm_compute. lia.
  - vm_compute. lia.
  - vm_compute. reflexivity.
Defined.

(** ** The round trip without changes *)

Lemma get_save_name_inside (info : u8string) (name_offset name_size : nat) :
  get_save_name info = Ok (name_offset, name_size) ->
  name_offset + name_size < length info.
Proof.
  unfold get_save_name.
  destruct (find info save_info_obj_start 0) as [k|]; [|discriminate].
  destruct (lookup_value_in_object info _ _) as [[p|]|e| |]; simpl; try discriminate.
  unfold read. destruct (at_ info p) as [c|]; [|discriminate].
  destruct (Ascii.eqb c ch_quote); [|discriminate].
  pose proof (find_closing_quote_outcome info p) as Hq.
  destruct (find_closing_quote info p) as [q|e| |]; simpl; try discriminate.
  simpl in Hq. intros H. inversion H; subst. lia.
Qed.

Lemma patched_data_unchanged (data : u8string) (ds : list Driver) :
  Forall (fun d => position d = original_position d) ds ->
  filter changed ds = [] /\ changed_delta_sum ds = 0%Z /\ patched_data data ds 0 = data.
Proof.
  induction 1 as [|d ds Hd _ IH]; [repeat split|].
  destruct IH as (I1 & I2 & I3).
  assert (E : changed d = false).
  { unfold changed. apply negb_false_iff, DriverPosition_eqb_eq. exact Hd. }
  simpl. rewrite token_delta_changed, E, I1, I2, I3. repeat split.
Qed.

Lemma patched_info_same_name (info : u8string) (name_offset name_size : nat) :
  patched_info info name_offset name_size (firstn name_size (skipn name_offset info)) = info.
Proof.
  unfold patched_info.
  replace (name_offset + name_size) with (name_size + name_offset) by lia.
  rewrite <- skipn_skipn, firstn_skipn, firstn_skipn. reflexivity.
Qed.

Lemma create_uncompressed_output_noop (info data : u8string) (name_offset name_size : nat)
  (ds : driver_array) :
  name_offset + name_size <= length info ->
  Forall (fun d => position d = original_position d) (drivers_list ds) ->
  (size info + size data < 2 ^ 64)%Z ->
  create_uncompressed_output info data name_offset name_size
    (firstn name_size (skipn name_offset info)) ds
  = Ok (info, data).
Proof.
  intros Hname Hsame Hsz.
  destruct (patched_data_unchanged data (drivers_list ds) Hsame) as (F1 & F2 & F3).
  assert (Hn : size (firstn name_size (skipn name_offset info)) = Z.of_nat name_size).
  { unfold size. rewrite length_firstn, length_skipn. lia. }
  rewrite (create_uncompressed_output_fills info data name_offset name_size _ ds Hname).
  - rewrite F3, patched_info_same_name. reflexivity.
  - rewrite F1. simpl. lia.
  - unfold size in *. lia.
  - unfold size in *. lia.
  - rewrite F2, Hn. unfold size in *. lia.
Qed.

(** C1: for every opened save, the patched buffers built with the original
    save name and with every driver's position equal to its
    original_position (as they are after the open, or after edits that
    end there) are the original info and data buffers. *)
Theorem noop_round_trip (info data : u8string) (sf : SaveFile) :
  open_SaveFile info data = Ok sf ->
  (size info + size data < 2 ^ 64)%Z ->
  uncompressed_output_of sf (save_name_of sf) = Ok (info, data)
  /\ forall es : list (nat * DriverPosition),
       Forall (fun d => position d = original_position d)
              (drivers_list (drivers (edits sf es))) ->
       uncompressed_output_of (edits sf es) (save_name_of (edits sf es)) = Ok (info, data).
Proof.
  intros Hopen Hsz.
  assert (Hall : forall es : list (nat * DriverPosition),
             Forall (fun d => position d = original_position d)
                    (drivers_list (drivers (edits sf es))) ->
             uncompressed_output_of (edits sf es) (save_name_of (edits sf es))
             = Ok (info, data)).
  { intros es Hsame.
    destruct (edits_keep sf es) as (K1 & K2 & K3 & K4 & _).
    unfold uncompressed_output_of, save_name_of. rewrite K1, K2, K3, K4.
    unfold open_SaveFile in Hopen.
    destruct (get_save_name info) as [[off sz]|e| |] eqn:En; simpl in Hopen; try discriminate.
    destruct (get_driver_data_from_json data) as [ds|e| |]; simpl in Hopen; try discriminate.
    inversion Hopen; subst. simpl.
    apply create_uncompressed_output_noop; try assumption.
    apply get_save_name_inside in En. lia. }
  split; [|exact Hall].
  apply (Hall []). simpl.
  unfold open_SaveFile in Hopen.
  destruct (get_save_name info) as [nm|e| |]; simpl in Hopen; try discriminate.
  destruct (get_driver_data_from_json data) as [[[d0 d1] d2]|e| |] eqn:E; simpl in Hopen;
    try discriminate.
  inversion Hopen; subst. simpl.
  destruct (get_driver_data_from_json_fresh data d0 d1 d2 E) as [Hf _].
  eapply Forall_impl; [|exact Hf]. intros d [_ Hd]. exact Hd.
Qed.

Lemma noop_round_trip_witness :
  uncompressed_output_of example_session (save_name_of example_session)
  = Ok (example_info, example_data)
  /\ uncompressed_output_of (edits example_session [(0, reserve); (0, car1)])
       (save_name_of (edits example_session [(0, reserve); (0, car1)]))
     = Ok (example_info, example_data).
Proof.
  destruct (noop_round_trip example_info example_data example_session) as [H1 H2].
  - vm_compute. reflexivity.
  - vm_compute. reflexivity.
  - split; [exact H1|]. apply H2. repeat constructor.
Defined.

(* ------------------------------------------------------------------------- *)
(** * Further properties *)

(** ** Decoding a position token *)

Lemma at_skipn (json : u8string) (o k : nat) :
  nth_error (skipn o json) k = at_ json (o + k).
Proof. unfold at_. apply nth_error_skipn. Qed.

Lemma starts_with_at (s pattern : u8string) :
  starts_with s pattern = true ->
  forall k x, nth_error pattern k = Some x -> nth_error s k = Some x.
Proof.
  revert s. induction pattern as [|p pattern IH]; intros s H k x Hk.
  - destruct k; discriminate.
  - destruct s as [|c s]; [discriminate|]. simpl in H.
    apply andb_true_iff in H. destruct H as [H1 H2]. apply Ascii.eqb_eq in H1. subst c.
    destruct k as [|k]; [exact Hk|]. simpl in *. apply (IH s H2 k x Hk).
Qed.

Lemma parse_driver_position_of_token (data : u8string) (offset : nat) (p : DriverPosition) :
  offset + 2 < length data -> token_at data offset p ->
  parse_driver_position data offset = Ok p.
Proof.
  intros Hlen [Hs (c & Hc & Hterm)].
  pose proof (starts_with_at _ _ Hs) as Hat.
  unfold parse_driver_position, read.
  destruct (Nat.ltb_spec (offset + 2) (length data)); [|lia].
  destruct (at_in_range data (offset + 2) Hlen) as [c2 E2].
  destruct (at_in_range data (offset + 1)) as [c1 E1]; [lia|].
  destruct p.
  - specialize (Hat 0 "-"%char eq_refl) as H0. specialize (Hat 1 "1"%char eq_refl) as H1.
    rewrite at_skipn in H0, H1. rewrite Nat.add_0_r in H0.
    change (offset + token_len reserve) with (offset + 2) in Hc.
    rewrite H0, H1, Hc. cbn [Ascii.eqb Bool.eqb andb]. rewrite Hterm. reflexivity.
  - specialize (Hat 0 "0"%char eq_refl) as H0.
    rewrite at_skipn in H0. rewrite Nat.add_0_r in H0.
    change (offset + token_len car1) with (offset + 1) in Hc.
    rewrite H0, Hc, E2. cbn [Ascii.eqb Bool.eqb andb]. rewrite Hterm. reflexivity.
  - specialize (Hat 0 "1"%char eq_refl) as H0.
    rewrite at_skipn in H0. rewrite Nat.add_0_r in H0.
    change (offset + token_len car2) with (offset + 1) in Hc.
    rewrite H0, Hc, E2. cbn [Ascii.eqb Bool.eqb andb]. rewrite Hterm. reflexivity.
Qed.

(** X1: decoding is the inverse of [get_position_as_json_value]: an offset
    decodes to a position exactly when the token of that position stands
    there, followed by a comma or a closing brace, with a third character
    inside the buffer. *)
Theorem parse_driver_position_iff (data : u8string) (offset : nat) (p : DriverPosition) :
  parse_driver_position data offset = Ok p
  <-> offset + 2 < length data /\ token_at data offset p.
Proof.
  split.
  - intros H. split; [|apply parse_driver_position_token; exact H].
    unfold parse_driver_position in H.
    destruct (Nat.ltb_spec (offset + 2) (length data)); [assumption|discriminate].
  - intros [H1 H2]. apply parse_driver_position_of_token; assumption.
Qed.

(** X2: the failures of decoding: with fewer than three characters left it is
    MalformedJson, even when a one-character token and its closing brace end
    the buffer; with three characters left and no token there it is
    InvalidPositionValue; and there is no other outcome. *)
Theorem parse_driver_position_failures (data : u8string) (offset : nat) :
  (length data <= offset + 2 -> parse_driver_position data offset = Throw MalformedJson)
  /\ (forall (before : u8string) (p : DriverPosition) (c : ascii),
        p <> reserve ->
        parse_driver_position (before ++ get_position_as_json_value p ++ [c]) (length before)
        = Throw MalformedJson)
  /\ (offset + 2 < length data -> (forall p, ~ token_at data offset p) ->
      parse_driver_position data offset = Throw InvalidPositionValue)
  /\ ((exists p, parse_driver_position data offset = Ok p)
      \/ parse_driver_position data offset = Throw MalformedJson
      \/ parse_driver_position data offset = Throw InvalidPositionValue).
Proof.
  assert (Hshort : forall d o, length d <= o + 2 ->
            parse_driver_position d o = Throw MalformedJson).
  { intros d o H. unfold parse_driver_position.
    destruct (Nat.ltb_spec (o + 2) (length d)); [lia|reflexivity]. }
  assert (Hall : forall d o, (exists p, parse_driver_position d o = Ok p)
            \/ parse_driver_position d o = Throw MalformedJson
            \/ parse_driver_position d o = Throw InvalidPositionValue).
  { intros d o. unfold parse_driver_position, read.
    destruct (Nat.ltb_spec (o + 2) (length d)) as [Hin|]; [|right; left; reflexivity].
    destruct (at_in_range d o) as [c0 E0]; [lia|].
    destruct (at_in_range d (o + 1)) as [c1 E1]; [lia|].
    destruct (at_in_range d (o + 2) Hin) as [c2 E2].
    rewrite E0, E1, E2.
    destruct (_ && _ && _); [left; eexists; reflexivity|].
    destruct (_ && _); [left; eexists; reflexivity|].
    destruct (_ && _); [left; eexists; reflexivity|].
    right; right; reflexivity. }
  split; [apply Hshort|]. split.
  - intros before p c Hp. apply Hshort. rewrite !length_app.
    destruct p; [congruence| |]; simpl; lia.
  - split; [|apply Hall].
    intros Hin Hno. destruct (Hall data offset) as [[p Hp] | [H | H]].
    + exfalso. apply (Hno p). apply parse_driver_position_token. exact Hp.
    + unfold parse_driver_position in H.
      destruct (Nat.ltb_spec (offset + 2) (length data)); [|lia].
      unfold read in H.
      destruct (at_ data offset); [|discriminate].
      destruct (at_ data (offset + 1)); [|discriminate].
      destruct (at_ data (offset + 2)); [|discriminate].
      destruct (_ && _ && _); [discriminate|].
      destruct (_ && _); [discriminate|]. destruct (_ && _); discriminate.
    + exact H.
Qed.

Lemma parse_driver_position_failures_witness :
  parse_driver_position (json_of "{'mCarID':1}") 10 = Throw MalformedJson
  /\ parse_driver_position (json_of "{'mCarID':0}") (length (json_of "{'mCarID':"))
     = Throw MalformedJson.
Proof.
  split.
  - apply (proj1 (parse_driver_position_failures (json_of "{'mCarID':1}") 10)).
    vm_compute. lia.
  - apply (proj1 (proj2 (parse_driver_position_failures [] 0))
             (json_of "{'mCarID':") car1 "}"%char).
    discriminate.
Defined.

(** ** What the walk over the keys hands to its callback *)

Lemma char_is_at (json : u8string) (i : nat) (c : ascii) :
  char_is json i c = true -> at_ json i = Some c.
Proof.
  unfold char_is. intros H. apply andb_true_iff in H. destruct H as [_ H].
  destruct (at_ json i) as [x|]; [|discriminate]. apply Ascii.eqb_eq in H. congruence.
Qed.

Lemma value_start_after_colon_le (json : u8string) (j v : nat) :
  value_start_after_colon json j = Ok v -> v <= j.
Proof.
  revert v. induction j as [|j IH]; intros v H; simpl in H; [discriminate|].
  unfold read in H. destruct (at_ json j) as [c|]; [|discriminate].
  destruct (Ascii.eqb c ch_colon).
  - inversion H. lia.
  - apply IH in H. lia.
Qed.

Lemma value_start_before_le (json : u8string) (e v : nat) :
  value_start_before json e = Ok v -> v <= e /\ e < length json.
Proof.
  unfold value_start_before, read. destruct (at_ json e) as [c|] eqn:Hc; [|discriminate].
  pose proof (at_some_lt json e c Hc) as Hlt. intros H. split; [|exact Hlt].
  destruct (Ascii.eqb c ch_quote).
  - apply rfind_opening_quote_below in H; lia.
  - destruct (is_close c) eqn:Hcl.
    + unfold find_matching_brace, read in H. rewrite Hc, Hcl in H.
      destruct (is_open c) eqn:Hop;
        [apply is_open_not_close in Hop; congruence|].
      destruct e as [|before]; [discriminate|].
      apply rfind_opening_brace_from_returns in H. lia.
    + apply value_start_after_colon_le in H. exact H.
Qed.

Section WalkInvariant.

Context {St : Type}.
Variable json : u8string.
Variable callback : KeyValueCallback St.
Variable I : St -> Prop.

Hypothesis callback_keeps :
  forall st key value_offset r,
    I st -> key_value_at json key value_offset ->
    callback st json key value_offset = Ok r -> I (fst r).

Lemma sibling_keys_forward_keeps :
  forall fuel i st r,
    sibling_keys_forward fuel json i callback st = Ok r -> I st -> I (fst r).
Proof.
  induction fuel as [|fuel IH]; intros i st r H Hi; cbn [sibling_keys_forward] in H.
  - destruct (char_is json i ch_quote); cbn [negb] in H; [discriminate|].
    inversion H. exact Hi.
  - destruct (char_is json i ch_quote) eqn:Hq; cbn [negb] in H;
      [|inversion H; exact Hi].
    apply char_is_at in Hq.
    pose proof (find_closing_quote_outcome json i) as Ho.
    destruct (find_closing_quote json i) as [ke|e| |]; cbn [bind] in H; try discriminate.
    simpl in Ho. destruct Ho as (Ho1 & Ho2 & _).
    destruct (Nat.leb_spec (length json) (ke + 2)) as [|Hin]; cbn [orb] in H; [discriminate|].
    destruct (char_is json (ke + 1) ch_colon) eqn:Hcolon; cbn [negb] in H; [|discriminate].
    apply char_is_at in Hcolon.
    destruct (callback st json (string_view_between json i ke) (ke + 2)) as [r1|e| |] eqn:Hcb;
      cbn [bind] in H; try discriminate.
    assert (Hi1 : I (fst r1)).
    { apply (callback_keeps st (string_view_between json i ke) (ke + 2) r1 Hi);
        [|exact Hcb].
      exists i, ke. repeat split; try assumption; lia. }
    destruct (snd r1); cbn [negb] in H.
    + destruct (value_end_from json (ke + 2)) as [ve|e| |]; cbn [bind] in H; try discriminate.
      apply (IH _ _ _ H Hi1).
    + inversion H. exact Hi1.
Qed.

Lemma sibling_keys_backward_keeps :
  forall fuel i st st',
    sibling_keys_backward fuel json i callback st = Ok st' -> I st -> I st'.
Proof.
  induction fuel as [|fuel IH]; intros i st st' H Hi; cbn [sibling_keys_backward] in H.
  - destruct (i =? 0); [inversion H; subst; exact Hi|].
    unfold read in H. destruct (at_ json i) as [c|]; [|discriminate].
    destruct (Ascii.eqb c ch_lbrace); [inversion H; subst; exact Hi|discriminate].
  - destruct (i =? 0); [inversion H; subst; exact Hi|].
    unfold read in H at 1. destruct (at_ json i) as [c|]; [|discriminate].
    destruct (Ascii.eqb c ch_lbrace); [inversion H; subst; exact Hi|].
    destruct (Ascii.eqb c ch_comma); cbn [negb] in H; [|discriminate].
    destruct (value_start_before json (i - 1)) as [vs|e| |] eqn:Hvs; cbn [bind] in H;
      try discriminate.
    apply value_start_before_le in Hvs.
    destruct (Nat.ltb_spec vs 3) as [|Hvs3]; [discriminate|].
    unfold read in H at 1. destruct (at_ json (vs - 1)) as [c1|] eqn:Hc1; [|discriminate].
    destruct (Ascii.eqb_spec c1 ch_colon) as [->|]; cbn [negb] in H; [|discriminate].
    unfold read in H at 1. destruct (at_ json (vs - 2)) as [c2|] eqn:Hc2; [|discriminate].
    destruct (Ascii.eqb_spec c2 ch_quote) as [->|]; cbn [negb] in H; [|discriminate].
    destruct (rfind_opening_quote json (vs - 2)) as [ks|e| |] eqn:Hks; cbn [bind] in H;
      try discriminate.
    pose proof (rfind_opening_quote_outcome json (vs - 2)) as Ho.
    rewrite Hks in Ho. simpl in Ho. destruct Ho as (Ho1 & Ho2 & _); [lia|].
    destruct (ks =? 0); [discriminate|].
    destruct (callback st json (string_view_between json ks (vs - 2)) vs) as [r1|e| |] eqn:Hcb;
      cbn [bind] in H; try discriminate.
    assert (Hi1 : I (fst r1)).
    { apply (callback_keeps st (string_view_between json ks (vs - 2)) vs r1 Hi);
        [|exact Hcb].
      exists ks, (vs - 2). replace (vs - 2 + 1) with (vs - 1) by lia.
      repeat split; try assumption; lia. }
    destruct (snd r1); cbn [negb] in H.
    + apply (IH _ _ _ H Hi1).
    + inversion H; subst. exact Hi1.
Qed.

Lemma for_sibling_key_values_in_object_keeps (start : nat) (st st' : St) :
  for_sibling_key_values_in_object json start callback st = Ok st' -> I st -> I st'.
Proof.
  unfold for_sibling_key_values_in_object. intros H Hi.
  destruct (sibling_keys_forward (length json) json start callback st) as [r| | |] eqn:Hf;
    cbn [bind] in H; try discriminate.
  pose proof (sibling_keys_forward_keeps _ _ _ _ Hf Hi) as Hi1.
  destruct (snd r); cbn [negb] in H.
  - destruct start as [|i]; [discriminate|].
    apply (sibling_keys_backward_keeps _ _ _ _ H Hi1).
  - inversion H; subst. exact Hi1.
Qed.

Lemma for_key_values_in_object_keeps (brace : nat) (st st' : St) :
  for_key_values_in_object json brace callback st = Ok st' -> I st -> I st'.
Proof.
  unfold for_key_values_in_object, read. intros H Hi.
  destruct (brace + 1 <? length json); [|discriminate].
  destruct (at_ json (brace + 1)) as [c|]; [|discriminate].
  destruct (Ascii.eqb c ch_quote).
  - apply (for_sibling_key_values_in_object_keeps _ _ _ H Hi).
  - destruct (Ascii.eqb c ch_rbrace); [|discriminate]. inversion H; subst. exact Hi.
Qed.

End WalkInvariant.

(** ** Looking a key up *)

Lemma lookup_value_in_object_key (json : u8string) (brace : nat) (key : u8string) (v : nat) :
  lookup_value_in_object json brace key = Ok (Some v) -> key_value_at json key v.
Proof.
  unfold lookup_value_in_object. intros H.
  refine (for_key_values_in_object_keeps json _
            (fun value_pos => forall p, value_pos = Some p -> key_value_at json key p)
            _ brace None (Some v) H _ v eq_refl).
  - intros st k vo r Hst Hkv Hcb.
    destruct (u8_eqb k key) eqn:E.
    + apply u8_eqb_eq in E. subst k. inversion Hcb; subst. simpl.
      intros p Hp. inversion Hp; subst. exact Hkv.
    + inversion Hcb; subst. exact Hst.
  - discriminate.
Qed.

(** X3: [lookup_value_in_object] finds nothing in an object without keys, throws
    MalformedJson when the opening brace is the last character or is followed
    by neither a key nor the closing brace, and an offset it returns is where
    the value of the sought key starts, right after the quoted key and its
    colon. *)
Theorem lookup_value_in_object_found (json : u8string) (brace : nat) (key : u8string) :
  (at_ json (brace + 1) = Some ch_rbrace -> lookup_value_in_object json brace key = Ok None)
  /\ (length json <= brace + 1 -> lookup_value_in_object json brace key = Throw MalformedJson)
  /\ (forall c, at_ json (brace + 1) = Some c -> c <> ch_quote -> c <> ch_rbrace ->
                lookup_value_in_object json brace key = Throw MalformedJson)
  /\ (forall v, lookup_value_in_object json brace key = Ok (Some v) ->
                key_value_at json key v).
Proof.
  split; [|split; [|split]].
  - intros H. unfold lookup_value_in_object, for_key_values_in_object, read.
    pose proof (at_some_lt _ _ _ H). destruct (Nat.ltb_spec (brace + 1) (length json)); [|lia].
    rewrite H. reflexivity.
  - intros H. unfold lookup_value_in_object, for_key_values_in_object.
    destruct (Nat.ltb_spec (brace + 1) (length json)); [lia|reflexivity].
  - intros c H Hq Hb. unfold lookup_value_in_object, for_key_values_in_object, read.
    pose proof (at_some_lt _ _ _ H). destruct (Nat.ltb_spec (brace + 1) (length json)); [|lia].
    rewrite H. apply Ascii.eqb_neq in Hq, Hb. rewrite Hq, Hb. reflexivity.
  - intros v. apply lookup_value_in_object_key.
Qed.

Lemma lookup_value_in_object_found_witness :
  lookup_value_in_object (json_of "{}") 0 (json_of "k") = Ok None
  /\ key_value_at (json_of "{'a':1,'k':2}") (json_of "k") 11.
Proof.
  split.
  - apply (proj1 (lookup_value_in_object_found (json_of "{}") 0 (json_of "k"))). reflexivity.
  - apply (proj2 (proj2 (proj2 (lookup_value_in_object_found (json_of "{'a':1,'k':2}") 0
                                  (json_of "k"))))).
    vm_compute. reflexivity.
Defined.

(** ** Where the save name and the team id are read *)

Lemma quoted_value_content (json : u8string) (p q : nat) (c : ascii) :
  at_ json p = Some c -> Ascii.eqb c ch_quote = true -> find_closing_quote json p = Ok q ->
  string_content_at json p (string_view_between json p q).
Proof.
  intros Hc Hq Hf. apply Ascii.eqb_eq in Hq. subst c.
  split; [exact Hc|]. exists q. split; [exact Hf|reflexivity].
Qed.

(** X4: a location that [get_save_name] returns lies in the first saveInfo
    object text of the buffer: it starts right after the opening quote of the
    value of a name key, and ends at the closing quote that
    find_closing_quote finds for it, which is the first unescaped quote after
    the opening one.  Without the saveInfo text there is no name. *)
Theorem get_save_name_location (info : u8string) :
  (find info save_info_obj_start 0 = None -> get_save_name info = Throw SaveNameNotFound)
  /\ forall name_offset name_size,
       get_save_name info = Ok (name_offset, name_size) ->
       1 <= name_offset
       /\ key_value_at info (json_of "name") (name_offset - 1)
       /\ at_ info (name_offset - 1) = Some ch_quote
       /\ find_closing_quote info (name_offset - 1) = Ok (name_offset + name_size)
       /\ closing_quote_outcome info (name_offset - 1) name_offset
            (Ok (name_offset + name_size))
       /\ string_view_between info (name_offset - 1) (name_offset + name_size)
          = firstn name_size (skipn name_offset info).
Proof.
  split.
  - unfold get_save_name. intros ->. reflexivity.
  - intros name_offset name_size. unfold get_save_name.
    destruct (find info save_info_obj_start 0) as [k|]; [|discriminate].
    destruct (lookup_value_in_object info _ _) as [[p|]|e| |] eqn:Hl; cbn [bind];
      try discriminate.
    apply lookup_value_in_object_key in Hl.
    unfold read. destruct (at_ info p) as [c|] eqn:Hc; [|discriminate].
    destruct (Ascii.eqb_spec c ch_quote) as [->|]; [|discriminate].
    pose proof (find_closing_quote_outcome info p) as Hq.
    destruct (find_closing_quote info p) as [q|e| |] eqn:Hf; cbn [bind]; try discriminate.
    intros H. inversion H; subst. clear H.
    assert (Hle : p + 1 <= q) by (cbn [closing_quote_outcome] in Hq; lia).
    replace (p + 1 - 1) with p by lia.
    replace (p + 1 + (q - (p + 1))) with q by lia.
    split; [lia|]. split; [exact Hl|]. split; [exact Hc|]. split; [exact Hf|].
    split; [exact Hq|].
    unfold string_view_between. f_equal. lia.
Qed.

Lemma get_save_name_location_witness :
  get_save_name (json_of "{}") = Throw SaveNameNotFound
  /\ key_value_at example_info (json_of "name") (30 - 1).
Proof.
  split.
  - apply (proj1 (get_save_name_location (json_of "{}"))). reflexivity.
  - apply (proj2 (get_save_name_location example_info) 30 7). reflexivity.
Defined.

(** X5: a team id that [get_player_team_id] returns is the content of a string
    that is the value of a $id key; without the mPlayerTeam text, or when
    the value of that key is not a string, PlayerTeamNotFound is thrown. *)
Theorem get_player_team_id_location (data : u8string) :
  (find data player_team_obj_start 0 = None ->
   get_player_team_id data = Throw PlayerTeamNotFound)
  /\ (forall id, get_player_team_id data = Ok id ->
        exists v, key_value_at data id_key v /\ string_content_at data v id)
  /\ forall k v c,
       find data player_team_obj_start 0 = Some k ->
       lookup_value_in_object data (k + length player_team_obj_start - 1) id_key = Ok (Some v) ->
       at_ data v = Some c -> c <> ch_quote ->
       get_player_team_id data = Throw PlayerTeamNotFound.
Proof.
  split; [|split].
  - unfold get_player_team_id. intros ->. reflexivity.
  - intros id. unfold get_player_team_id.
    destruct (find data player_team_obj_start 0) as [k|]; [|discriminate].
    destruct (lookup_value_in_object data _ _) as [[p|]|e| |] eqn:Hl; cbn [bind];
      try discriminate.
    apply lookup_value_in_object_key in Hl.
    unfold read. destruct (at_ data p) as [c|] eqn:Hc; [|discriminate].
    destruct (Ascii.eqb c ch_quote) eqn:Hcq; [|discriminate].
    destruct (find_closing_quote data p) as [q|e| |] eqn:Hf; cbn [bind]; try discriminate.
    intros H. inversion H; subst. exists p. split; [exact Hl|].
    apply (quoted_value_content data p q c Hc Hcq Hf).
  - intros k v c Hk Hl Hc Hq. unfold get_player_team_id. rewrite Hk, Hl. cbn [bind].
    unfold read. rewrite Hc. apply Ascii.eqb_neq in Hq. rewrite Hq. reflexivity.
Qed.

Lemma get_player_team_id_location_witness :
  get_player_team_id (json_of "{}") = Throw PlayerTeamNotFound
  /\ get_player_team_id (json_of "{'mPlayerTeam':{'$id':7}}") = Throw PlayerTeamNotFound.
Proof.
  split.
  - apply (proj1 (get_player_team_id_location (json_of "{}"))). reflexivity.
  - apply (proj2 (proj2 (get_player_team_id_location (json_of "{'mPlayerTeam':{'$id':7}}")))
             1 22 "7"%char);
      [vm_compute; reflexivity|vm_compute; reflexivity|vm_compute; reflexivity|discriminate].
Defined.

(** ** The fields of a driver record *)

Lemma parse_driver_name_string_content (json : u8string) (v : nat) (n : u8string) :
  parse_driver_name_string json v = Ok n -> string_content_at json v n.
Proof.
  unfold parse_driver_name_string, read.
  destruct (at_ json v) as [c|] eqn:Hc; [|discriminate].
  destruct (Ascii.eqb c ch_quote) eqn:Hq; [|discriminate].
  destruct (find_closing_quote json v) as [q|e| |] eqn:Hf; cbn [bind]; try discriminate.
  intros H. inversion H; subst. apply (quoted_value_content json v q c Hc Hq Hf).
Qed.

Lemma driver_field_callback_keeps (json : u8string) (st : driver_fields) (key : u8string)
  (value_offset : nat) (r : driver_fields * bool) :
  driver_fields_ok json st -> key_value_at json key value_offset ->
  driver_field_callback st json key value_offset = Ok r -> driver_fields_ok json (fst r).
Proof.
  destruct st as [[cp fn] ln]. intros (H1 & H2 & H3) Hkv. unfold driver_field_callback.
  destruct (u8_eqb key (json_of "mCarID")) eqn:E1.
  { apply u8_eqb_eq in E1. subst key. cbn [bind]. intros H. inversion H; subst. cbn [fst].
    split; [|split; assumption]. intros p Hp. inversion Hp; subst. exact Hkv. }
  destruct (u8_eqb key (json_of "mFirstName")) eqn:E2.
  { apply u8_eqb_eq in E2. subst key.
    destruct (parse_driver_name_string json value_offset) as [n|e| |] eqn:Hn; cbn [bind];
      try discriminate.
    intros H. inversion H; subst. cbn [fst].
    split; [assumption|split; [|assumption]].
    intros n' Hn'. inversion Hn'; subst. exists value_offset. split; [exact Hkv|].
    apply parse_driver_name_string_content. exact Hn. }
  destruct (u8_eqb key (json_of "mLastName")) eqn:E3.
  { apply u8_eqb_eq in E3. subst key.
    destruct (parse_driver_name_string json value_offset) as [n|e| |] eqn:Hn; cbn [bind];
      try discriminate.
    intros H. inversion H; subst. cbn [fst].
    split; [assumption|split; [assumption|]].
    intros n' Hn'. inversion Hn'; subst. exists value_offset. split; [exact Hkv|].
    apply parse_driver_name_string_content. exact Hn. }
  cbn [bind]. intros H. inversion H; subst. cbn [fst]. repeat split; assumption.
Qed.

Lemma maybe_get_driver_fields (data : u8string) (c : nat) (d : Driver) :
  maybe_get_driver data c = Ok (Some d) -> driver_from_fields data d.
Proof.
  unfold maybe_get_driver.
  destruct (for_sibling_key_values_in_object data c driver_field_callback (None, None, None))
    as [st|e| |] eqn:Hw; cbn [bind]; try discriminate.
  assert (Hst : driver_fields_ok data st).
  { refine (for_sibling_key_values_in_object_keeps data driver_field_callback
              (driver_fields_ok data) _ c (None, None, None) st Hw _).
    - intros s k vo r. apply driver_field_callback_keeps.
    - repeat split; discriminate. }
  destruct st as [[[cp|] [fn|]] [ln|]]; try discriminate.
  destruct (parse_driver_position data cp) as [p|e| |]; cbn [bind]; try discriminate.
  intros H. inversion H; subst. clear H. destruct Hst as (H1 & H2 & H3).
  split; [apply H1; reflexivity|].
  destruct (H2 fn eq_refl) as (v1 & K1 & S1). destruct (H3 ln eq_refl) as (v2 & K2 & S2).
  exists fn, ln, v1, v2.
  split; [exact K1|split; [exact S1|split; [exact K2|split; [exact S2|reflexivity]]]].
Qed.

Lemma collect_driver_forall (P : Driver -> Prop) (data : u8string) :
  (forall c d, maybe_get_driver data c = Ok (Some d) -> P d) ->
  forall found ref found',
    collect_driver data found ref = Ok found' -> Forall P found -> Forall P found'.
Proof.
  intros HP found ref found'. unfold collect_driver.
  destruct (find_employeer_team_ref_contract_offset data ref) as [[c|]|e| |];
    cbn [bind]; try discriminate.
  - destruct (maybe_get_driver data c) as [[d|]|e| |] eqn:E; cbn [bind]; try discriminate.
    + intros H Hf. inversion H; subst. apply Forall_app. split; [exact Hf|].
      constructor; [|constructor]. apply (HP c d E).
    + intros H Hf. inversion H; subst. exact Hf.
  - intros H Hf. inversion H; subst. exact Hf.
Qed.

Lemma get_driver_data_from_json_forall (P : Driver -> Prop) (data : u8string)
  (d0 d1 d2 : Driver) :
  (forall c d, maybe_get_driver data c = Ok (Some d) -> P d) ->
  get_driver_data_from_json data = Ok (d0, d1, d2) -> Forall P [d0; d1; d2].
Proof.
  intros HP. unfold get_driver_data_from_json.
  destruct (get_player_team_id data) as [id|e| |]; cbn [bind]; try discriminate.
  destruct (for_each_employeer_team_ref data id (collect_driver data) []) as [found|e| |] eqn:E;
    cbn [bind]; try discriminate.
  destruct (length found =? 3); cbn [negb]; [|discriminate].
  pose proof (sort_drivers_perm found) as Hperm.
  destruct (sort_drivers found) as [|x0 [|x1 [|x2 [|? ?]]]]; try discriminate.
  intros H. inversion H; subst. clear H.
  assert (Hall : Forall P found).
  { unfold for_each_employeer_team_ref in E.
    refine (for_each_ref_from_invariant (Forall P) data _ (collect_driver data) _ _ 0 []
              found E (Forall_nil P)).
    intros st p st' Hc Hf. apply (collect_driver_forall P data HP st p st' Hc Hf). }
  rewrite Forall_forall in *. intros d Hd. apply Hall.
  apply (Permutation_in d Hperm Hd).
Qed.

(** X6: every driver record of a save whose data could be read has its offset
    right after a quoted mCarID key and its colon, and its name is a first
    name, a space and a last name, the two being the contents of strings
    that are the values of an mFirstName key and of an mLastName key. *)
Theorem driver_records_from_fields (data : u8string) (d0 d1 d2 : Driver) :
  get_driver_data_from_json data = Ok (d0, d1, d2) ->
  Forall (driver_from_fields data) [d0; d1; d2].
Proof.
  apply get_driver_data_from_json_forall. apply maybe_get_driver_fields.
Qed.

Lemma driver_records_from_fields_witness :
  Forall (driver_from_fields example_data) example_records.
Proof.
  apply (driver_records_from_fields example_data
           (new_Driver (json_of "A B") car1 53)
           (new_Driver (json_of "C D") reserve 230)
           (new_Driver (json_of "E F") car2 314)).
  vm_compute. reflexivity.
Defined.

(** ** The brace a scan returns *)

Lemma last_cons_cons (x : ascii) (l : list ascii) (d : ascii) :
  l <> [] -> last (x :: l) d = last l d.
Proof. destruct l; [congruence|reflexivity]. Qed.

Lemma find_closing_brace_from_kind (json : u8string) :
  forall (fuel i : nat) (stack : list ascii) (c : nat),
    stack <> [] -> find_closing_brace_from fuel json i stack = Ok c ->
    at_ json c = Some (last stack ch_rbrace).
Proof.
  induction fuel as [|fuel IH]; intros i stack c Hne H; cbn [find_closing_brace_from] in H.
  - destruct (length json <=? i); discriminate.
  - destruct (length json <=? i); [discriminate|].
    unfold read in H. destruct (at_ json i) as [x|] eqn:Hx; [|discriminate].
    destruct (Ascii.eqb x ch_quote).
    + destruct (find_closing_quote json i) as [q|e| |]; cbn [bind] in H; try discriminate.
      apply (IH _ _ _ Hne H).
    + destruct (is_open x).
      * apply IH in H; [|discriminate]. rewrite last_cons_cons in H by exact Hne. exact H.
      * destruct (is_close x).
        -- destruct stack as [|top rest]; [discriminate|].
           destruct (Ascii.eqb_spec x top) as [->|]; [|discriminate].
           destruct rest as [|y rest].
           ++ inversion H; subst. exact Hx.
           ++ apply IH in H; [|discriminate]. exact H.
        -- apply (IH _ _ _ Hne H).
Qed.

Lemma rfind_opening_brace_from_kind (json : u8string) :
  forall (fuel i : nat) (stack : list ascii) (p : nat),
    stack <> [] -> rfind_opening_brace_from fuel json i stack = Ok p ->
    at_ json p = Some (last stack ch_lbrace).
Proof.
  induction fuel as [|fuel IH]; intros i stack p Hne H; cbn [rfind_opening_brace_from] in H;
    [discriminate|].
  unfold read in H. destruct (at_ json i) as [x|] eqn:Hx; [|discriminate].
  destruct (Ascii.eqb x ch_quote).
  - destruct (rfind_opening_quote json i) as [q|e| |]; cbn [bind] in H; try discriminate.
    destruct q as [|q]; [discriminate|]. apply (IH _ _ _ Hne H).
  - destruct (is_close x).
    + destruct i as [|i]; [discriminate|]. apply IH in H; [|discriminate].
      rewrite last_cons_cons in H by exact Hne. exact H.
    + destruct (is_open x).
      * destruct stack as [|top rest]; [discriminate|].
        destruct (Ascii.eqb_spec x top) as [->|]; [|discriminate].
        destruct rest as [|y rest].
        -- inversion H; subst. exact Hx.
        -- destruct i as [|i]; [discriminate|]. apply IH in H; [|discriminate]. exact H.
      * destruct i as [|i]; [discriminate|]. apply (IH _ _ _ Hne H).
Qed.

Lemma find_closing_brace_kind (json : u8string) (start : nat) (brace : ascii) (c : nat) :
  find_closing_brace json start brace = Ok c ->
  start <= c < length json /\ at_ json c = Some brace.
Proof.
  unfold find_closing_brace. intros H.
  assert (Hne : [brace] <> []) by discriminate.
  pose proof (find_closing_brace_from_kind json _ _ _ _ Hne H) as Hk.
  apply find_closing_brace_from_returns in H. destruct H as [Hle _].
  split; [|exact Hk]. split; [exact Hle|]. apply (at_some_lt json c _ Hk).
Qed.

Lemma rfind_opening_brace_kind (json : u8string) (start : nat) (brace : ascii) (p : nat) :
  rfind_opening_brace json start brace = Ok p ->
  p <= start /\ at_ json p = Some brace.
Proof.
  unfold rfind_opening_brace. intros H.
  assert (Hne : [brace] <> []) by discriminate.
  pose proof (rfind_opening_brace_from_kind json _ _ _ _ Hne H) as Hk.
  apply rfind_opening_brace_from_returns in H. destruct H as [Hle _].
  split; [exact Hle|exact Hk].
Qed.

(** X7: an offset that [find_closing_brace] returns lies at or after the start of
    the scan and holds the brace asked for; an offset that
    [rfind_opening_brace] returns lies at or before the start and holds the
    brace asked for.  A brace of the other kind is never returned. *)
Theorem brace_scans_return_the_brace (json : u8string) (start : nat) (brace : ascii) :
  (forall c, find_closing_brace json start brace = Ok c ->
             start <= c < length json /\ at_ json c = Some brace)
  /\ (forall p, rfind_opening_brace json start brace = Ok p ->
                p <= start /\ at_ json p = Some brace).
Proof.
  split.
  - intros c. apply find_closing_brace_kind.
  - intros p. apply rfind_opening_brace_kind.
Qed.

Lemma brace_scans_return_the_brace_witness :
  (6 <= 13 < length nested_example /\ at_ nested_example 13 = Some ch_rbracket)
  /\ (0 <= 3 /\ at_ (json_of "{[1]") 0 = Some ch_lbrace).
Proof.
  split.
  - apply (proj1 (brace_scans_return_the_brace nested_example 6 ch_rbracket) 13).
    vm_compute. reflexivity.
  - apply (proj2 (brace_scans_return_the_brace (json_of "{[1]") 3 ch_lbrace) 0).
    vm_compute. reflexivity.
Defined.

(** X8: a match that [find_matching_brace] returns for an opening brace lies
    after it and holds its closing partner; a match for a closing brace lies
    before it and holds its opening partner.  The one exception: for an
    opening brace that is the last character of the buffer the scan runs
    backwards, and a match then lies before it and holds an opening square
    bracket. *)
Theorem find_matching_brace_partner (json : u8string) (o m : nat) :
  find_matching_brace json o = Ok m ->
  exists x, at_ json o = Some x
    /\ ((is_open x = true /\ o + 1 < length json /\ o < m < length json
         /\ at_ json m = Some (closer_of x))
        \/ (is_close x = true /\ m < o /\ at_ json m = Some (opener_of x))
        \/ (is_open x = true /\ o + 1 = length json /\ m < o
            /\ at_ json m = Some ch_lbracket)).
Proof.
  unfold find_matching_brace, read.
  destruct (at_ json o) as [x|] eqn:Hx; [|discriminate].
  pose proof (at_some_lt json o x Hx) as Hlt.
  intros H. exists x. split; [reflexivity|].
  destruct (is_open x) eqn:Hop.
  - destruct (Nat.ltb_spec (o + 1) (length json)) as [Hin|Hout].
    + left. apply find_closing_brace_kind in H. repeat split; try lia. apply H.
    + right. right. destruct o as [|before]; [discriminate|].
      apply rfind_opening_brace_kind in H.
      assert (Ho : opener_of x = ch_lbracket).
      { unfold is_open in Hop. unfold opener_of.
        destruct (Ascii.eqb_spec x ch_lbrace) as [->|]; [reflexivity|].
        destruct (Ascii.eqb_spec x ch_lbracket) as [->|]; [reflexivity|discriminate]. }
      rewrite Ho in H. repeat split; try lia. apply H.
  - destruct (is_close x) eqn:Hcl; [|discriminate].
    right. left. destruct o as [|before]; [discriminate|].
    apply rfind_opening_brace_kind in H. repeat split; try lia. apply H.
Qed.

Lemma find_matching_brace_partner_witness :
  exists x, at_ nested_example 5 = Some x
    /\ ((is_open x = true /\ 5 + 1 < length nested_example /\ 5 < 13 < length nested_example
         /\ at_ nested_example 13 = Some (closer_of x))
        \/ (is_close x = true /\ 13 < 5 /\ at_ nested_example 13 = Some (opener_of x))
        \/ (is_open x = true /\ 5 + 1 = length nested_example /\ 13 < 5
            /\ at_ nested_example 13 = Some ch_lbracket)).
Proof.
  apply (find_matching_brace_partner nested_example 5 13). vm_compute. reflexivity.
Defined.

(** ** The contract key before a reference *)

(** X9: an offset that [find_employeer_team_ref_contract_offset] returns is not
    the start of the buffer; the text of the contract key stands there and,
    right after it, the opening curly brace that the backward scan from the
    reference has returned, which lies before the reference.  A reference at
    offset zero has no contract. *)
Theorem find_employeer_team_ref_contract_offset_found (data : u8string) (ref : nat) :
  (ref = 0 -> find_employeer_team_ref_contract_offset data ref = Ok None)
  /\ forall c, find_employeer_team_ref_contract_offset data ref = Ok (Some c) ->
       1 <= c
       /\ firstn (length contract_key) (skipn c data) = contract_key
       /\ at_ data (c + length contract_key) = Some ch_lbrace
       /\ c + length contract_key < ref
       /\ rfind_opening_brace data (ref - 1) ch_lbrace = Ok (c + length contract_key).
Proof.
  split; [intros ->; reflexivity|].
  intros c. unfold find_employeer_team_ref_contract_offset.
  destruct ref as [|before]; [discriminate|].
  destruct (rfind_opening_brace data before ch_lbrace) as [b|e| |] eqn:Hb; cbn [bind];
    try discriminate.
  destruct (Nat.ltb_spec (length contract_key) b) as [Hlt|]; cbn [andb]; [|discriminate].
  destruct (u8_eqb _ contract_key) eqn:E; [|discriminate].
  intros H. inversion H; subst. clear H.
  apply u8_eqb_eq in E.
  pose proof (rfind_opening_brace_kind data before ch_lbrace b Hb) as [Hle Hat].
  change (length contract_key) with 11 in *.
  replace (b - 11 + 11) with b by lia.
  replace (S before - 1) with before by lia.
  split; [lia|]. split; [exact E|]. split; [exact Hat|]. split; [lia|exact Hb].
Qed.

Lemma find_employeer_team_ref_contract_offset_found_witness :
  find_employeer_team_ref_contract_offset example_data 0 = Ok None
  /\ at_ (json_of "{'contract':{'mEmployeerTeam':{'$ref':'7'}}}") (1 + length contract_key)
     = Some ch_lbrace.
Proof.
  split.
  - apply (proj1 (find_employeer_team_ref_contract_offset_found example_data 0)). reflexivity.
  - apply (proj2 (find_employeer_team_ref_contract_offset_found
                    (json_of "{'contract':{'mEmployeerTeam':{'$ref':'7'}}}") 13) 1).
    vm_compute. reflexivity.
Defined.

(** ** Reading a save comes to an end *)

Lemma throws_only_bind {A B : Type} (allowed : error -> Prop) (r : result A)
  (k : A -> result B) :
  throws_only allowed r -> (forall a, r = Ok a -> throws_only allowed (k a)) ->
  throws_only allowed (bind r k).
Proof.
  destruct r as [a|e| |]; cbn [bind throws_only]; intros H Hk; try assumption.
  apply Hk. reflexivity.
Qed.

Lemma throws_only_weaken {A : Type} (allowed allowed' : error -> Prop) (r : result A) :
  (forall e, allowed e -> allowed' e) -> throws_only allowed r -> throws_only allowed' r.
Proof. intros Hw. destruct r; cbn [throws_only]; auto. Qed.

Lemma settled_throws_only (r : result nat) : settled r -> throws_only malformed r.
Proof. intros [[q ->]| ->]; cbn [throws_only]; [exact I|reflexivity]. Qed.

Lemma find_closing_quote_defined (json : u8string) (o : nat) :
  throws_only malformed (find_closing_quote json o).
Proof.
  pose proof (find_closing_quote_outcome json o) as H.
  destruct (find_closing_quote json o); cbn [closing_quote_outcome throws_only] in *;
    try exact I; try contradiction. apply H.
Qed.

Lemma rfind_opening_quote_defined (json : u8string) (c : nat) :
  c <= length json -> throws_only malformed (rfind_opening_quote json c).
Proof.
  intros Hc. pose proof (rfind_opening_quote_outcome json c Hc) as H.
  destruct (rfind_opening_quote json c); cbn [opening_quote_outcome throws_only] in *;
    try exact I; try contradiction. apply H.
Qed.

Lemma index_where_ge (p : ascii -> bool) (l : list ascii) :
  forall j k, index_where p l j = Some k -> j <= k.
Proof.
  induction l as [|c l IH]; intros j k H; cbn [index_where] in H; [discriminate|].
  destruct (p c).
  - inversion H. lia.
  - apply IH in H. lia.
Qed.

(** The end of a value lies at or after its start, unless the value is an
    opening brace that is the last character of the buffer. *)
Lemma value_end_from_progress (json : u8string) (vs : nat) :
  ends_with_open json = false -> vs < length json ->
  match value_end_from json vs with
  | Ok ve => vs <= ve
  | Throw e => malformed e
  | Undefined | OutOfFuel => False
  end.
Proof.
  intros Hend Hin. unfold value_end_from, read.
  destruct (at_in_range json vs Hin) as [x Hx]. rewrite Hx.
  destruct (Ascii.eqb x ch_quote).
  - pose proof (find_closing_quote_outcome json vs) as H.
    destruct (find_closing_quote json vs); cbn [closing_quote_outcome] in H;
      try contradiction; [lia|apply H].
  - destruct (is_open x) eqn:Hop.
    + unfold find_matching_brace, read. rewrite Hx, Hop.
      destruct (Nat.ltb_spec (vs + 1) (length json)) as [Hin1|Hout].
      * assert (Hne : [closer_of x] <> []) by discriminate.
        pose proof (find_closing_brace_from_settled json (length json - (vs + 1)) (vs + 1)
                      [closer_of x] (Nat.le_refl _) Hne) as Hs.
        fold (find_closing_brace json (vs + 1) (closer_of x)) in Hs.
        destruct Hs as [[q Hq]|Hq]; rewrite Hq; [|reflexivity].
        apply find_closing_brace_kind in Hq. lia.
      * exfalso. unfold ends_with_open in Hend.
        replace (length json - 1) with vs in Hend by lia. rewrite Hx in Hend. congruence.
    + destruct (index_where _ _ _) as [j|] eqn:Hj; [|reflexivity].
      apply index_where_ge in Hj. lia.
Qed.

Lemma value_start_after_colon_defined (json : u8string) :
  forall j, j <= length json -> throws_only malformed (value_start_after_colon json j).
Proof.
  induction j as [|j IH]; intros Hj; cbn [value_start_after_colon]; [reflexivity|].
  unfold read. destruct (at_in_range json j) as [c Hc]; [lia|]. rewrite Hc.
  destruct (Ascii.eqb c ch_colon); [exact I|]. apply IH. lia.
Qed.

Lemma value_start_before_defined (json : u8string) (e : nat) :
  e < length json -> throws_only malformed (value_start_before json e).
Proof.
  intros Hin. unfold value_start_before, read.
  destruct (at_in_range json e Hin) as [c Hc]. rewrite Hc.
  destruct (Ascii.eqb c ch_quote).
  - apply rfind_opening_quote_defined. lia.
  - destruct (is_close c).
    + apply settled_throws_only, find_matching_brace_settled. exact Hin.
    + apply value_start_after_colon_defined. lia.
Qed.

Section WalkDefined.

Context {St : Type}.
Variable json : u8string.
Variable callback : KeyValueCallback St.
Variable allowed : error -> Prop.

Hypothesis allowed_malformed : allowed MalformedJson.
Hypothesis open_not_last : ends_with_open json = false.
Hypothesis callback_defined :
  forall st key value_offset,
    value_offset < length json -> throws_only allowed (callback st json key value_offset).

Lemma sibling_keys_forward_defined :
  forall fuel i st,
    length json - i <= fuel ->
    throws_only allowed (sibling_keys_forward fuel json i callback st).
Proof.
  induction fuel as [|fuel IH]; intros i st Hfuel; cbn [sibling_keys_forward].
  - destruct (char_is json i ch_quote) eqn:Hq; cbn [negb]; [|exact I].
    apply char_is_at, at_some_lt in Hq. lia.
  - destruct (char_is json i ch_quote) eqn:Hq; cbn [negb]; [|exact I].
    pose proof (find_closing_quote_outcome json i) as Ho.
    destruct (find_closing_quote json i) as [ke|e| |]; cbn [closing_quote_outcome] in Ho;
      cbn [bind throws_only]; try contradiction.
    2:{ destruct Ho as [-> _]. exact allowed_malformed. }
    destruct (Nat.leb_spec (length json) (ke + 2)) as [|Hin]; cbn [orb];
      [exact allowed_malformed|].
    destruct (char_is json (ke + 1) ch_colon); cbn [negb]; [|exact allowed_malformed].
    apply throws_only_bind; [apply callback_defined; exact Hin|].
    intros r1 _. destruct (snd r1); cbn [negb]; [|exact I].
    pose proof (value_end_from_progress json (ke + 2) open_not_last Hin) as Hve.
    destruct (value_end_from json (ke + 2)) as [ve|e| |]; cbn [bind throws_only];
      try contradiction.
    + apply IH. destruct (char_is json (ve + 1) ch_comma); lia.
    + unfold malformed in Hve. subst e. exact allowed_malformed.
Qed.

Lemma sibling_keys_backward_defined :
  forall fuel i st,
    i < fuel -> i < length json ->
    throws_only allowed (sibling_keys_backward fuel json i callback st).
Proof.
  induction fuel as [|fuel IH]; intros i st Hfuel Hin; [lia|].
  cbn [sibling_keys_backward].
  destruct (Nat.eqb_spec i 0) as [|Hi]; [exact I|].
  unfold read at 1. destruct (at_in_range json i Hin) as [c Hc]. rewrite Hc.
  destruct (Ascii.eqb c ch_lbrace); [exact I|].
  destruct (Ascii.eqb c ch_comma); cbn [negb]; [|exact allowed_malformed].
  assert (Hin1 : i - 1 < length json) by lia.
  apply throws_only_bind.
  { apply (throws_only_weaken malformed); [|apply value_start_before_defined; exact Hin1].
    intros e ->. exact allowed_malformed. }
  intros vs Hvs. apply value_start_before_le in Hvs.
  destruct (Nat.ltb_spec vs 3) as [|Hvs3]; [exact allowed_malformed|].
  unfold read at 1. destruct (at_in_range json (vs - 1)) as [c1 Hc1]; [lia|]. rewrite Hc1.
  destruct (Ascii.eqb c1 ch_colon); cbn [negb]; [|exact allowed_malformed].
  unfold read at 1. destruct (at_in_range json (vs - 2)) as [c2 Hc2]; [lia|]. rewrite Hc2.
  destruct (Ascii.eqb c2 ch_quote); cbn [negb]; [|exact allowed_malformed].
  pose proof (rfind_opening_quote_outcome json (vs - 2)) as Ho.
  destruct (rfind_opening_quote json (vs - 2)) as [ks|e| |]; cbn [opening_quote_outcome] in Ho;
    cbn [bind throws_only].
  - destruct Ho as [Hks _]; [lia|].
    destruct (Nat.eqb_spec ks 0); [exact allowed_malformed|].
    apply throws_only_bind; [apply callback_defined; lia|].
    intros r1 _. destruct (snd r1); cbn [negb]; [|exact I].
    apply IH; lia.
  - destruct Ho as [-> _]; [lia|]. exact allowed_malformed.
  - apply Ho. lia.
  - apply Ho. lia.
Qed.

Lemma for_sibling_key_values_in_object_defined (start : nat) (st : St) :
  1 <= start <= length json ->
  throws_only allowed (for_sibling_key_values_in_object json start callback st).
Proof.
  intros Hs. unfold for_sibling_key_values_in_object.
  apply throws_only_bind; [apply sibling_keys_forward_defined; lia|].
  intros r _. destruct (snd r); cbn [negb]; [|exact I].
  destruct start as [|i]; [lia|]. apply sibling_keys_backward_defined; lia.
Qed.

Lemma for_key_values_in_object_defined (brace : nat) (st : St) :
  throws_only allowed (for_key_values_in_object json brace callback st).
Proof.
  unfold for_key_values_in_object, read.
  destruct (Nat.ltb_spec (brace + 1) (length json)) as [Hin|]; [|exact allowed_malformed].
  destruct (at_in_range json (brace + 1) Hin) as [c Hc]. rewrite Hc.
  destruct (Ascii.eqb c ch_quote).
  - apply for_sibling_key_values_in_object_defined. lia.
  - destruct (Ascii.eqb c ch_rbrace); [exact I|exact allowed_malformed].
Qed.

End WalkDefined.

Lemma lookup_value_in_object_defined (json : u8string) (brace : nat) (key : u8string) :
  ends_with_open json = false ->
  throws_only malformed (lookup_value_in_object json brace key).
Proof.
  intros Hend. unfold lookup_value_in_object.
  apply for_key_values_in_object_defined; [reflexivity|exact Hend|].
  intros st k vo _. destruct (u8_eqb k key); exact I.
Qed.

Lemma get_save_name_defined (info : u8string) :
  ends_with_open info = false ->
  throws_only (fun e => e = MalformedJson \/ e = SaveNameNotFound) (get_save_name info).
Proof.
  intros Hend. unfold get_save_name.
  destruct (find info save_info_obj_start 0) as [k|]; [|right; reflexivity].
  apply throws_only_bind.
  { apply (throws_only_weaken malformed); [intros e ->; left; reflexivity|].
    apply lookup_value_in_object_defined. exact Hend. }
  intros [p|] Hl; [|right; reflexivity].
  apply lookup_value_in_object_key in Hl. destruct Hl as (ks & ke & _ & _ & _ & _ & _ & Hp & _).
  unfold read. destruct (at_in_range info p Hp) as [c Hc]. rewrite Hc.
  destruct (Ascii.eqb c ch_quote); [|right; reflexivity].
  apply throws_only_bind; [|intros q _; exact I].
  apply (throws_only_weaken malformed); [intros e ->; left; reflexivity|].
  apply find_closing_quote_defined.
Qed.

Lemma get_player_team_id_defined (data : u8string) :
  ends_with_open data = false ->
  throws_only (fun e => e = MalformedJson \/ e = PlayerTeamNotFound) (get_player_team_id data).
Proof.
  intros Hend. unfold get_player_team_id.
  destruct (find data player_team_obj_start 0) as [k|]; [|right; reflexivity].
  apply throws_only_bind.
  { apply (throws_only_weaken malformed); [intros e ->; left; reflexivity|].
    apply lookup_value_in_object_defined. exact Hend. }
  intros [p|] Hl; [|right; reflexivity].
  apply lookup_value_in_object_key in Hl. destruct Hl as (ks & ke & _ & _ & _ & _ & _ & Hp & _).
  unfold read. destruct (at_in_range data p Hp) as [c Hc]. rewrite Hc.
  destruct (Ascii.eqb c ch_quote); [|right; reflexivity].
  apply throws_only_bind; [|intros q _; exact I].
  apply (throws_only_weaken malformed); [intros e ->; left; reflexivity|].
  apply find_closing_quote_defined.
Qed.

Lemma parse_driver_position_defined (data : u8string) (offset : nat) :
  throws_only (fun e => e = MalformedJson \/ e = InvalidPositionValue)
              (parse_driver_position data offset).
Proof.
  unfold parse_driver_position, read.
  destruct (Nat.ltb_spec (offset + 2) (length data)) as [Hin|]; [|left; reflexivity].
  destruct (at_in_range data offset) as [c0 ->]; [lia|].
  destruct (at_in_range data (offset + 1)) as [c1 ->]; [lia|].
  destruct (at_in_range data (offset + 2)) as [c2 ->]; [lia|].
  destruct (_ && _ && _); [exact I|].
  destruct (_ && _); [exact I|].
  destruct (_ && _); [exact I|right; reflexivity].
Qed.

Lemma parse_driver_name_string_defined (json : u8string) (v : nat) :
  v < length json ->
  throws_only (fun e => e = MalformedJson \/ e = InvalidDriverName)
              (parse_driver_name_string json v).
Proof.
  intros Hin. unfold parse_driver_name_string, read.
  destruct (at_in_range json v Hin) as [c ->].
  destruct (Ascii.eqb c ch_quote); [|right; reflexivity].
  apply throws_only_bind; [|intros q _; exact I].
  apply (throws_only_weaken malformed); [intros e ->; left; reflexivity|].
  apply find_closing_quote_defined.
Qed.

Lemma driver_field_callback_defined (json : u8string) (st : driver_fields) (key : u8string)
  (v : nat) :
  v < length json ->
  throws_only (fun e => e = MalformedJson \/ e = InvalidDriverName)
              (driver_field_callback st json key v).
Proof.
  intros Hin. destruct st as [[cp fn] ln]. unfold driver_field_callback.
  apply throws_only_bind; [|intros st' _; exact I].
  destruct (u8_eqb key (json_of "mCarID")); [exact I|].
  destruct (u8_eqb key (json_of "mFirstName")).
  { apply throws_only_bind; [|intros n _; exact I].
    apply parse_driver_name_string_defined. exact Hin. }
  destruct (u8_eqb key (json_of "mLastName")); [|exact I].
  apply throws_only_bind; [|intros n _; exact I].
  apply parse_driver_name_string_defined. exact Hin.
Qed.

Lemma maybe_get_driver_defined (data : u8string) (c : nat) :
  ends_with_open data = false -> 1 <= c <= length data ->
  throws_only driver_error (maybe_get_driver data c).
Proof.
  intros Hend Hc. unfold maybe_get_driver.
  apply throws_only_bind.
  { apply for_sibling_key_values_in_object_defined;
      [left; reflexivity|exact Hend| |exact Hc].
    intros st key v Hv.
    apply (throws_only_weaken (fun e => e = MalformedJson \/ e = InvalidDriverName));
      [|apply driver_field_callback_defined; exact Hv].
    unfold driver_error. tauto. }
  intros [[[cp|] [fn|]] [ln|]] _; try exact I.
  apply throws_only_bind; [|intros p _; exact I].
  apply (throws_only_weaken (fun e => e = MalformedJson \/ e = InvalidPositionValue));
    [|apply parse_driver_position_defined].
  unfold driver_error. tauto.
Qed.

Lemma find_employeer_team_ref_contract_offset_defined (data : u8string) (ref : nat) :
  ref <= length data ->
  throws_only malformed (find_employeer_team_ref_contract_offset data ref).
Proof.
  intros Href. unfold find_employeer_team_ref_contract_offset.
  destruct ref as [|before]; [exact I|].
  apply throws_only_bind.
  - apply settled_throws_only.
    apply rfind_opening_brace_from_settled; [lia|lia|discriminate].
  - intros b _. destruct (_ && _); exact I.
Qed.

Lemma collect_driver_defined (data : u8string) (found : list Driver) (ref : nat) :
  ends_with_open data = false -> ref <= length data ->
  throws_only driver_error (collect_driver data found ref).
Proof.
  intros Hend Href. unfold collect_driver.
  apply throws_only_bind.
  { apply (throws_only_weaken malformed); [intros e ->; left; reflexivity|].
    apply find_employeer_team_ref_contract_offset_defined. exact Href. }
  intros [c|] Hc; [|exact I].
  assert (Hb : 1 <= c <= length data).
  { unfold find_employeer_team_ref_contract_offset in Hc.
    destruct ref as [|before]; [discriminate|].
    destruct (rfind_opening_brace data before ch_lbrace) as [b|e| |] eqn:Hb; cbn [bind] in Hc;
      try discriminate.
    apply rfind_opening_brace_kind in Hb.
    destruct (Nat.ltb_spec (length contract_key) b) as [Hlt|]; cbn [andb] in Hc;
      [|discriminate].
    destruct (u8_eqb _ contract_key); [|discriminate].
    inversion Hc; subst. change (length contract_key) with 11 in *. lia. }
  apply throws_only_bind; [apply maybe_get_driver_defined; assumption|].
  intros [d|] _; exact I.
Qed.

Lemma fold_result_defined {St : Type} (allowed : error -> Prop)
  (f : St -> nat -> result St) (l : list nat) :
  (forall st r, In r l -> throws_only allowed (f st r)) ->
  forall st, throws_only allowed (fold_result f l st).
Proof.
  induction l as [|r l IH]; intros Hf st; cbn [fold_result]; [exact I|].
  apply throws_only_bind; [apply Hf; left; reflexivity|].
  intros st' _. apply IH. intros s x Hx. apply Hf. right. exact Hx.
Qed.

Lemma get_driver_data_from_json_defined (data : u8string) :
  ends_with_open data = false ->
  throws_only (fun e => driver_error e \/ e = PlayerTeamNotFound \/ e = DriverCountMismatch)
              (get_driver_data_from_json data).
Proof.
  intros Hend. unfold get_driver_data_from_json.
  apply throws_only_bind.
  { apply (throws_only_weaken (fun e => e = MalformedJson \/ e = PlayerTeamNotFound));
      [|apply get_player_team_id_defined; exact Hend].
    unfold driver_error. tauto. }
  intros id _. apply throws_only_bind.
  { unfold for_each_employeer_team_ref. rewrite for_each_ref_from_occurrences by lia.
    apply (throws_only_weaken driver_error); [tauto|].
    apply fold_result_defined. intros st r Hr. apply collect_driver_defined; [exact Hend|].
    unfold occurrences_from in Hr. apply filter_In in Hr. destruct Hr as [Hr _].
    apply in_seq in Hr. lia. }
  intros found _. destruct (Nat.eqb_spec (length found) 3) as [Hlen|]; cbn [negb];
    [|right; right; reflexivity].
  pose proof (Permutation_length (sort_drivers_perm found)) as Hl. rewrite Hlen in Hl.
  destruct (sort_drivers found) as [|x0 [|x1 [|x2 [|? ?]]]]; try discriminate. exact I.
Qed.

(** X10: reading the two buffers of a save comes to an end when neither buffer
    has an opening brace as its last character: the constructor returns a
    session or throws, it reads at no offset outside a buffer, and what it
    throws is one of MalformedJson, SaveNameNotFound, PlayerTeamNotFound,
    InvalidDriverName, InvalidPositionValue and DriverCountMismatch. *)
Theorem open_SaveFile_comes_to_an_end (info data : u8string) :
  ends_with_open info = false -> ends_with_open data = false ->
  throws_only open_error (open_SaveFile info data).
Proof.
  intros Hi Hd. unfold open_SaveFile.
  apply throws_only_bind.
  { apply (throws_only_weaken (fun e => e = MalformedJson \/ e = SaveNameNotFound));
      [|apply get_save_name_defined; exact Hi].
    unfold open_error. cbn [In]. intros e [->| ->]; auto. }
  intros nm _. apply throws_only_bind; [|intros ds _; exact I].
  apply (throws_only_weaken
           (fun e => driver_error e \/ e = PlayerTeamNotFound \/ e = DriverCountMismatch));
    [|apply get_driver_data_from_json_defined; exact Hd].
  unfold open_error, driver_error. cbn [In].
  intros e [[->|[->| ->]]|[->| ->]]; auto 10.
Qed.

Lemma open_SaveFile_comes_to_an_end_witness :
  throws_only open_error (open_SaveFile example_info bad_position_data).
Proof.
  apply (open_SaveFile_comes_to_an_end example_info bad_position_data); reflexivity.
Defined.

(** ** The data that is written *)

Lemma firstn_plus {A : Type} (m n : nat) (l : list A) :
  firstn (m + n) l = firstn m l ++ firstn n (skipn m l).
Proof.
  revert l. induction m as [|m IH]; intros l; [reflexivity|].
  destruct l as [|x l]; cbn [Nat.add firstn skipn app].
  - rewrite firstn_nil. reflexivity.
  - f_equal. apply IH.
Qed.

Lemma between_split (json : u8string) (a b c : nat) :
  a <= b <= c -> between json a c = between json a b ++ between json b c.
Proof.
  intros H. unfold between.
  replace (c - a) with ((b - a) + (c - b)) by lia.
  rewrite firstn_plus. f_equal. rewrite skipn_skipn. f_equal. f_equal. lia.
Qed.

Lemma between_to_end (json : u8string) (a b : nat) :
  a <= b -> skipn a json = between json a b ++ skipn b json.
Proof.
  intros H. unfold between.
  rewrite <- (firstn_skipn (b - a) (skipn a json)) at 1. f_equal.
  rewrite skipn_skipn. f_equal. lia.
Qed.

Lemma starts_with_firstn (s pattern : u8string) :
  starts_with s pattern = true -> firstn (length pattern) s = pattern.
Proof.
  revert s. induction pattern as [|p pattern IH]; intros s H; [reflexivity|].
  destruct s as [|c s]; [discriminate|]. cbn [starts_with] in H.
  apply andb_true_iff in H. destruct H as [H1 H2]. apply Ascii.eqb_eq in H1. subst c.
  cbn [length firstn]. f_equal. apply IH. exact H2.
Qed.

Lemma starts_with_app (pattern rest : u8string) : starts_with (pattern ++ rest) pattern = true.
Proof.
  induction pattern as [|p pattern IH]; [reflexivity|].
  cbn [app starts_with]. rewrite Ascii.eqb_refl. exact IH.
Qed.

Lemma token_between (data : u8string) (offset : nat) (p : DriverPosition) :
  token_at data offset p ->
  between data offset (offset + token_len p) = get_position_as_json_value p.
Proof.
  intros [Hs _]. unfold between. replace (offset + token_len p - offset) with (token_len p) by lia.
  apply starts_with_firstn. exact Hs.
Qed.

Lemma tokens_apart_weaken (data : u8string) (ds : list Driver) (from from' : nat) :
  from' <= from -> tokens_apart data ds from -> tokens_apart data ds from'.
Proof.
  destruct ds as [|d rest]; cbn [tokens_apart]; [trivial|].
  intros Hle (H1 & H2 & H3 & H4).
  split; [lia|]. split; [exact H2|]. split; assumption.
Qed.

Lemma tokens_fit_weaken (data : u8string) (ds : list Driver) (from from' : nat) :
  from' <= from -> tokens_fit data ds from -> tokens_fit data ds from'.
Proof.
  destruct ds as [|d rest]; cbn [tokens_fit]; [lia|].
  intros Hle [H1 H2]. split; [lia|exact H2].
Qed.

Lemma tokens_apart_fit (data : u8string) (ds : list Driver) (from : nat) :
  from <= length data -> tokens_apart data ds from -> tokens_fit data ds from.
Proof.
  revert from. induction ds as [|d rest IH]; intros from Hle H; cbn [tokens_fit];
    [exact Hle|].
  destruct H as (H1 & H2 & H3 & H4). split; [exact H1|].
  apply IH; [lia|]. apply (tokens_apart_weaken data rest _ _ (Nat.le_succ_diag_r _)).
  rewrite <- Nat.add_1_r. exact H4.
Qed.

Lemma tokens_fit_filter (f : Driver -> bool) (data : u8string) (ds : list Driver) (from : nat) :
  tokens_fit data ds from -> tokens_fit data (filter f ds) from.
Proof.
  revert from. induction ds as [|d rest IH]; intros from H; [exact H|].
  destruct H as [H1 H2]. cbn [filter]. destruct (f d).
  - split; [exact H1|]. apply IH. exact H2.
  - apply IH. eapply tokens_fit_weaken; [|exact H2]. lia.
Qed.

(** The loop of the writer copies what lies before the next changed token
    in one piece or in several. *)
Lemma patched_data_skip (data : u8string) (ds : list Driver) :
  forall from k, from <= k -> tokens_fit data ds k ->
    patched_data data ds from = between data from k ++ patched_data data ds k.
Proof.
  induction ds as [|d rest IH]; intros from k Hle Hfit; cbn [patched_data].
  - apply between_to_end. exact Hle.
  - destruct Hfit as [H1 H2]. destruct (changed d).
    + fold (between data from (car_id_file_offset d)).
      fold (between data k (car_id_file_offset d)).
      rewrite (between_split data from k (car_id_file_offset d)) by lia.
      rewrite <- app_assoc. reflexivity.
    + apply IH; [exact Hle|]. eapply tokens_fit_weaken; [|exact H2]. lia.
Qed.

Lemma patched_data_respelled (data : u8string) (ds : list Driver) :
  forall from, from <= length data -> tokens_apart data ds from ->
    patched_data data ds from = respelled data ds from.
Proof.
  induction ds as [|d rest IH]; intros from Hle H; cbn [patched_data respelled];
    [reflexivity|].
  destruct H as (H1 & H2 & H3 & H4).
  assert (H4' : tokens_apart data rest
                  (car_id_file_offset d + token_len (original_position d))).
  { apply (tokens_apart_weaken data rest _ _ (Nat.le_succ_diag_r _)).
    rewrite <- Nat.add_1_r. exact H4. }
  destruct (changed d) eqn:Hch.
  - fold (between data from (car_id_file_offset d)). rewrite IH; [reflexivity|lia|exact H4'].
  - assert (Hp : position d = original_position d).
    { unfold changed in Hch. apply negb_false_iff, DriverPosition_eqb_eq in Hch. exact Hch. }
    rewrite (patched_data_skip data rest from
               (car_id_file_offset d + token_len (original_position d))).
    + rewrite (between_split data from (car_id_file_offset d)) by lia.
      rewrite (token_between data _ _ H2), Hp, <- app_assoc, IH; [reflexivity|lia|exact H4'].
    + lia.
    + apply tokens_apart_fit; [lia|exact H4'].
Qed.

(** After a token the respelled text goes on with the character that
    follows the token in the data, and with at least one more. *)
Lemma respelled_head (data : u8string) (rest : list Driver) (k : nat) (c : ascii) :
  at_ data k = Some c -> k + 1 < length data -> tokens_apart data rest (k + 1) ->
  exists x tl, respelled data rest k = c :: x :: tl.
Proof.
  intros Hc Hk H. destruct rest as [|d rest]; cbn [respelled].
  - rewrite (skipn_at data k c Hc).
    destruct (at_in_range data (S k)) as [x Hx]; [lia|].
    rewrite (skipn_at data (S k) x Hx). eauto.
  - destruct H as (H1 & H2 & _).
    rewrite (between_split data k (k + 1)) by lia.
    assert (E : between data k (k + 1) = [c]).
    { unfold between. replace (k + 1 - k) with 1 by lia.
      rewrite (skipn_at data k c Hc). reflexivity. }
    rewrite E, <- app_assoc. cbn [app].
    destruct (between data (k + 1) (car_id_file_offset d)) as [|x tl]; cbn [app].
    + destruct (position d); vm_compute; eauto.
    + eauto.
Qed.

Lemma parse_driver_position_in_context (pre tl : u8string) (p : DriverPosition) (c x : ascii) :
  comma_or_rbrace c = true ->
  parse_driver_position (pre ++ get_position_as_json_value p ++ c :: x :: tl) (length pre)
  = Ok p.
Proof.
  intros Hc. apply parse_driver_position_of_token.
  - rewrite !length_app. cbn [length]. pose proof (token_len_pos p). unfold token_len in *. lia.
  - split.
    + rewrite skipn_app, skipn_all, Nat.sub_diag. cbn [skipn app]. apply starts_with_app.
    + exists c. split; [|exact Hc]. unfold at_.
      rewrite nth_error_app2 by lia.
      replace (length pre + token_len p - length pre) with (token_len p) by lia.
      unfold token_len. rewrite nth_error_app2 by lia. rewrite Nat.sub_diag. reflexivity.
Qed.

Lemma respelled_reads_back (data : u8string) (ds : list Driver) :
  forall from pre, tokens_apart data ds from ->
    Forall2 (fun d o => parse_driver_position (pre ++ respelled data ds from) o
                        = Ok (position d))
            ds (respelled_offsets ds from (length pre)).
Proof.
  induction ds as [|d rest IH]; intros from pre H; [constructor|].
  destruct H as (H1 & H2 & H3 & H4).
  destruct H2 as [Hs (c & Hc & Hterm)].
  destruct (respelled_head data rest _ c Hc H3 H4) as (x & tl & Hhead).
  assert (Hlen : length (pre ++ between data from (car_id_file_offset d))
                 = length pre + (car_id_file_offset d - from)).
  { rewrite length_app. unfold between. rewrite length_firstn, length_skipn. lia. }
  cbn [respelled respelled_offsets]. constructor.
  - rewrite app_assoc, Hhead, <- Hlen. apply parse_driver_position_in_context. exact Hterm.
  - assert (H4' : tokens_apart data rest
                    (car_id_file_offset d + token_len (original_position d))).
    { apply (tokens_apart_weaken data rest _ _ (Nat.le_succ_diag_r _)).
      rewrite <- Nat.add_1_r. exact H4. }
    specialize (IH _ (pre ++ between data from (car_id_file_offset d)
                        ++ get_position_as_json_value (position d)) H4').
    rewrite <- !app_assoc in IH. rewrite !length_app in IH.
    unfold between in IH at 2. rewrite length_firstn, length_skipn in IH.
    fold (token_len (position d)) in IH.
    replace (length pre + (Nat.min (car_id_file_offset d - from) (length data - from)
                           + token_len (position d)))
      with (length pre + (car_id_file_offset d - from) + token_len (position d)) in IH by lia.
    exact IH.
Qed.

Lemma create_uncompressed_output_respelled (info data : u8string)
  (name_offset name_size : nat) (new_name : u8string) (d0 d1 d2 : Driver) :
  tokens_apart data [d0; d1; d2] 0 ->
  name_offset + name_size <= length info ->
  (size info + size new_name + size data + 3 < 2 ^ 64)%Z ->
  create_uncompressed_output info data name_offset name_size new_name (d0, d1, d2)
  = Ok (patched_info info name_offset name_size new_name, respelled data [d0; d1; d2] 0).
Proof.
  intros Hap Hname Hsz.
  assert (Hfit : tokens_fit data (filter changed [d0; d1; d2]) 0).
  { apply tokens_fit_filter, tokens_apart_fit; [lia|exact Hap]. }
  pose proof (changed_delta_sum_le [d0; d1; d2]) as Hle. cbn [length] in Hle.
  rewrite <- (patched_data_respelled data [d0; d1; d2] 0 (Nat.le_0_l _) Hap).
  apply (create_uncompressed_output_fills info data name_offset name_size new_name
           (d0, d1, d2) Hname Hfit); unfold size in *; cbn [drivers_list]; lia.
Qed.

(** X11: when the tokens of the three drivers stand apart in the data, what is
    written is the data with each of the three tokens respelled as the token
    of the driver's position and every other character kept, and decoding
    the written data where a token now starts gives the position of its
    driver. *)
Theorem create_uncompressed_output_reads_back (info data : u8string)
  (name_offset name_size : nat) (new_name : u8string) (d0 d1 d2 : Driver) :
  tokens_apart data [d0; d1; d2] 0 ->
  name_offset + name_size <= length info ->
  (size info + size new_name + size data + 3 < 2 ^ 64)%Z ->
  exists out_info out_data,
    create_uncompressed_output info data name_offset name_size new_name (d0, d1, d2)
    = Ok (out_info, out_data)
    /\ out_data = respelled data [d0; d1; d2] 0
    /\ Forall2 (fun d o => parse_driver_position out_data o = Ok (position d))
               [d0; d1; d2] (respelled_offsets [d0; d1; d2] 0 0).
Proof.
  intros Hap Hname Hsz.
  exists (patched_info info name_offset name_size new_name), (respelled data [d0; d1; d2] 0).
  split; [apply create_uncompressed_output_respelled; assumption|].
  split; [reflexivity|].
  apply (respelled_reads_back data [d0; d1; d2] 0 [] Hap).
Qed.

Lemma create_uncompressed_output_reads_back_witness :
  exists out_info out_data,
    create_uncompressed_output example_info example_data 30 7 (json_of "renamed")
      (drivers (edits example_session [(0, reserve); (1, car2); (2, car1)]))
    = Ok (out_info, out_data)
    /\ out_data = respelled example_data
                    (drivers_list (drivers (edits example_session
                                              [(0, reserve); (1, car2); (2, car1)]))) 0
    /\ Forall2 (fun d o => parse_driver_position out_data o = Ok (position d))
               (drivers_list (drivers (edits example_session
                                         [(0, reserve); (1, car2); (2, car1)])))
               [53; 231; 314].
Proof.
  apply (create_uncompressed_output_reads_back example_info example_data 30 7
           (json_of "renamed")
           (set_position_of (new_Driver (json_of "A B") car1 53) reserve)
           (set_position_of (new_Driver (json_of "C D") reserve 230) car2)
           (set_position_of (new_Driver (json_of "E F") car2 314) car1)).
  - cbn [tokens_apart set_position_of new_Driver car_id_file_offset original_position].
    unfold token_at.
    repeat split; try (vm_compute; lia); try (vm_compute; reflexivity);
      eexists; split; vm_compute; reflexivity.
  - vm_compute. lia.
  - vm_compute. reflexivity.
Defined.

(** ** Sessions: what is written after edits *)

Lemma token_has_no_colon (data : u8string) (offset k : nat) (p : DriverPosition) :
  token_at data offset p -> offset <= k <= offset + token_len p ->
  at_ data k <> Some ch_colon.
Proof.
  intros [Hs (c & Hc & Hterm)] Hk Hcolon.
  pose proof (starts_with_at _ _ Hs) as Hat.
  assert (Hfollow : k <> offset + token_len p).
  { intros ->. rewrite Hc in Hcolon. inversion Hcolon; subst. discriminate. }
  unfold ch_colon in Hcolon.
  destruct p.
  - change (token_len reserve) with 2 in *.
    assert (Hk' : k = offset + 0 \/ k = offset + 1) by lia.
    destruct Hk' as [-> | ->].
    + specialize (Hat 0 "-"%char eq_refl). rewrite at_skipn in Hat. congruence.
    + specialize (Hat 1 "1"%char eq_refl). rewrite at_skipn in Hat. congruence.
  - change (token_len car1) with 1 in *. assert (k = offset + 0) by lia. subst k.
    specialize (Hat 0 "0"%char eq_refl). rewrite at_skipn in Hat. congruence.
  - change (token_len car2) with 1 in *. assert (k = offset + 0) by lia. subst k.
    specialize (Hat 0 "1"%char eq_refl). rewrite at_skipn in Hat. congruence.
Qed.

Lemma key_value_after_colon (json key : u8string) (v : nat) :
  key_value_at json key v -> 1 <= v /\ at_ json (v - 1) = Some ch_colon.
Proof.
  intros (ks & ke & _ & _ & _ & Hcolon & -> & _). split; [lia|].
  replace (ke + 2 - 1) with (ke + 1) by lia. exact Hcolon.
Qed.

(** A later token that follows a colon starts after the character that
    ends the token before it. *)
Lemma tokens_after_colon_apart (data : u8string) (a b : Driver) :
  token_at data (car_id_file_offset a) (original_position a) ->
  1 <= car_id_file_offset b -> at_ data (car_id_file_offset b - 1) = Some ch_colon ->
  car_id_file_offset a < car_id_file_offset b ->
  car_id_file_offset a + token_len (original_position a) + 1 <= car_id_file_offset b.
Proof.
  intros Ha Hb Hcolon Hlt.
  destruct (Nat.le_gt_cases (car_id_file_offset b - 1)
              (car_id_file_offset a + token_len (original_position a))) as [Hle|]; [|lia].
  exfalso. apply (token_has_no_colon data _ (car_id_file_offset b - 1) _ Ha); [lia|exact Hcolon].
Qed.

Lemma open_SaveFile_records (info data : u8string) (sf : SaveFile)
  (es : list (nat * DriverPosition)) :
  open_SaveFile info data = Ok sf ->
  save_info (edits sf es) = info /\ save_data (edits sf es) = data
  /\ save_name_offset (edits sf es) + save_name_size (edits sf es) < length info
  /\ Forall (fun d => token_at data (car_id_file_offset d) (original_position d)
                      /\ 1 <= car_id_file_offset d
                      /\ at_ data (car_id_file_offset d - 1) = Some ch_colon
                      /\ car_id_file_offset d + 2 < length data)
            (drivers_list (drivers (edits sf es))).
Proof.
  unfold open_SaveFile.
  destruct (get_save_name info) as [[off sz]|e| |] eqn:En; cbn [bind]; try discriminate.
  destruct (get_driver_data_from_json data) as [[[d0 d1] d2]|e| |] eqn:E; cbn [bind];
    try discriminate.
  intros H. inversion H; subst. clear H.
  match goal with |- context [edits ?s es] => set (sf := s) end.
  destruct (edits_keep sf es) as (K1 & K2 & K3 & K4 & K5).
  rewrite K1, K2, K3, K4. cbn [sf save_info save_data save_name_offset save_name_size fst snd].
  split; [reflexivity|]. split; [reflexivity|].
  split; [apply (get_save_name_inside info off sz En)|].
  assert (Hrec : Forall (fun d => token_at data (car_id_file_offset d) (original_position d)
                      /\ 1 <= car_id_file_offset d
                      /\ at_ data (car_id_file_offset d - 1) = Some ch_colon
                      /\ car_id_file_offset d + 2 < length data) [d0; d1; d2]).
  { apply (get_driver_data_from_json_forall _ data d0 d1 d2); [|exact E].
    intros c d Hd. pose proof (maybe_get_driver_fresh data c d Hd) as [Hp _].
    pose proof (maybe_get_driver_fields data c d Hd) as [Hkv _].
    apply key_value_after_colon in Hkv. destruct Hkv as [Hv Hcolon].
    split; [apply parse_driver_position_token; exact Hp|].
    split; [exact Hv|]. split; [exact Hcolon|].
    unfold parse_driver_position in Hp.
    destruct (Nat.ltb_spec (car_id_file_offset d + 2) (length data)); [assumption|discriminate]. }
  cbn [sf drivers] in K5.
  destruct (drivers (edits sf es)) as [[e0 e1] e2]. cbn [drivers_list].
  inversion K5 as [|? ? ? ? (A1 & A2 & A3) K5']; subst.
  inversion K5' as [|? ? ? ? (B1 & B2 & B3) K5'']; subst.
  inversion K5'' as [|? ? ? ? (C1 & C2 & C3) _]; subst.
  inversion Hrec as [|? ? R0 Hrec1]; subst. inversion Hrec1 as [|? ? R1 Hrec2]; subst.
  inversion Hrec2 as [|? ? R2 _]; subst.
  rewrite <- A1, <- A2 in R0. rewrite <- B1, <- B2 in R1. rewrite <- C1, <- C2 in R2.
  constructor; [exact R0|]. constructor; [exact R1|]. constructor; [exact R2|constructor].
Qed.

Lemma session_tokens_apart (info data : u8string) (sf : SaveFile)
  (es : list (nat * DriverPosition)) (d0 d1 d2 : Driver) :
  open_SaveFile info data = Ok sf ->
  drivers (edits sf es) = (d0, d1, d2) ->
  car_id_file_offset d0 < car_id_file_offset d1 < car_id_file_offset d2 ->
  car_id_file_offset d2 + token_len (original_position d2) + 1 < length data ->
  tokens_apart data [d0; d1; d2] 0.
Proof.
  intros Hopen Hds Hlt Hlast.
  destruct (open_SaveFile_records info data sf es Hopen) as (_ & _ & _ & Hrec).
  rewrite Hds in Hrec. cbn [drivers_list] in Hrec.
  inversion Hrec as [|? ? (T0 & V0 & C0 & L0) Hrec1]; subst.
  inversion Hrec1 as [|? ? (T1 & V1 & C1 & L1) Hrec2]; subst.
  inversion Hrec2 as [|? ? (T2 & V2 & C2 & L2) _]; subst.
  pose proof (tokens_after_colon_apart data d0 d1 T0 V1 C1 (proj1 Hlt)) as H01.
  pose proof (tokens_after_colon_apart data d1 d2 T1 V2 C2 (proj2 Hlt)) as H12.
  cbn [tokens_apart].
  split; [lia|]. split; [exact T0|]. split; [lia|].
  split; [lia|]. split; [exact T1|]. split; [lia|].
  split; [lia|]. split; [exact T2|]. split; [exact Hlast|exact I].
Qed.

(** X12: after a save has been opened and positions have been assigned in any
    sequence, if the three records have three different offsets and the
    character that ends the last token is not the last one of the data, then
    writing succeeds, and decoding the written data where each driver's
    token now starts gives the position assigned to that driver: the first
    token starts where it did, and each later one is shifted by the lengths
    gained or lost before it. *)
Theorem edited_positions_read_back (info data : u8string) (sf : SaveFile)
  (es : list (nat * DriverPosition)) (new_name : u8string) (d0 d1 d2 : Driver) :
  open_SaveFile info data = Ok sf ->
  drivers (edits sf es) = (d0, d1, d2) ->
  car_id_file_offset d0 < car_id_file_offset d1 < car_id_file_offset d2 ->
  car_id_file_offset d2 + token_len (original_position d2) + 1 < length data ->
  (size info + size new_name + size data + 3 < 2 ^ 64)%Z ->
  exists out_info out_data,
    uncompressed_output_of (edits sf es) new_name = Ok (out_info, out_data)
    /\ parse_driver_position out_data (car_id_file_offset d0) = Ok (position d0)
    /\ parse_driver_position out_data
         (car_id_file_offset d1 + token_len (position d0)
          - token_len (original_position d0))
       = Ok (position d1)
    /\ parse_driver_position out_data
         (car_id_file_offset d2 + token_len (position d0) + token_len (position d1)
          - token_len (original_position d0) - token_len (original_position d1))
       = Ok (position d2).
Proof.
  intros Hopen Hds Hlt Hlast Hsz.
  pose proof (session_tokens_apart info data sf es d0 d1 d2 Hopen Hds Hlt Hlast) as Hap.
  destruct (open_SaveFile_records info data sf es Hopen) as (K1 & K2 & K3 & _).
  exists (patched_info info (save_name_offset (edits sf es)) (save_name_size (edits sf es))
            new_name),
         (respelled data [d0; d1; d2] 0).
  split.
  { unfold uncompressed_output_of. rewrite K1, K2, Hds.
    apply create_uncompressed_output_respelled; [exact Hap|lia|exact Hsz]. }
  pose proof (respelled_reads_back data [d0; d1; d2] 0 [] Hap) as Hrb.
  cbn [respelled_offsets length app] in Hrb.
  cbn [tokens_apart] in Hap.
  destruct Hap as (_ & _ & _ & A1 & _ & _ & A2 & _).
  inversion Hrb as [|? ? ? ? R0 Hrb1]; subst.
  inversion Hrb1 as [|? ? ? ? R1 Hrb2]; subst.
  inversion Hrb2 as [|? ? ? ? R2 _]; subst.
  split; [rewrite <- R0; f_equal; lia|].
  split; [rewrite <- R1; f_equal; lia|].
  rewrite <- R2. f_equal. lia.
Qed.

Lemma edited_positions_read_back_witness :
  exists out_info out_data,
    uncompressed_output_of (edits example_session [(0, reserve); (1, car2); (2, car1)])
      (json_of "renamed")
    = Ok (out_info, out_data)
    /\ parse_driver_position out_data 53 = Ok reserve
    /\ parse_driver_position out_data (230 + 2 - 1) = Ok car2
    /\ parse_driver_position out_data (314 + 2 + 1 - 1 - 2) = Ok car1.
Proof.
  apply (edited_positions_read_back example_info example_data example_session
           [(0, reserve); (1, car2); (2, car1)] (json_of "renamed")
           (set_position_of (new_Driver (json_of "A B") car1 53) reserve)
           (set_position_of (new_Driver (json_of "C D") reserve 230) car2)
           (set_position_of (new_Driver (json_of "E F") car2 314) car1)).
  - vm_compute. reflexivity.
  - vm_compute. reflexivity.
  - cbn [set_position_of new_Driver car_id_file_offset]. lia.
  - vm_compute. lia.
  - vm_compute. reflexivity.
Defined.

(** ** The name that is written *)

Lemma at_app_middle (pre post : u8string) (c : ascii) :
  at_ (pre ++ c :: post) (length pre) = Some c.
Proof. unfold at_. rewrite nth_error_app2 by lia. rewrite Nat.sub_diag. reflexivity. Qed.

Lemma find_closing_quote_from_plain (rest : u8string) :
  forall (a pre : u8string) (fuel : nat),
    plain_text a = true -> length a < fuel ->
    find_closing_quote_from fuel (pre ++ a ++ ch_quote :: rest) (length pre) false
    = Ok (length pre + length a).
Proof.
  induction a as [|c a IH]; intros pre fuel Hp Hfuel;
    (destruct fuel as [|fuel]; [cbn [length] in Hfuel; lia|]);
    cbn [find_closing_quote_from app].
  - destruct (Nat.leb_spec (length (pre ++ ch_quote :: rest)) (length pre)) as [H|_].
    { rewrite length_app in H. cbn [length] in H. lia. }
    unfold read. rewrite at_app_middle. cbn [negb]. rewrite Nat.add_0_r. reflexivity.
  - destruct (Nat.leb_spec (length (pre ++ c :: a ++ ch_quote :: rest)) (length pre)) as [H|_].
    { rewrite length_app in H. cbn [length] in H. lia. }
    unfold read. rewrite at_app_middle.
    cbn [plain_text forallb] in Hp. apply andb_true_iff in Hp. destruct Hp as [Hc Hp].
    unfold plain_char in Hc. apply andb_true_iff in Hc. destruct Hc as [Hq Hb].
    apply negb_true_iff in Hq, Hb. rewrite Hq, Hb.
    specialize (IH (pre ++ [c]) fuel Hp).
    rewrite <- app_assoc in IH. cbn [app] in IH. rewrite length_app in IH. cbn [length] in IH.
    replace (length pre + 1) with (S (length pre)) in IH by lia.
    rewrite IH by (cbn [length] in Hfuel; lia). f_equal. cbn [length]. lia.
Qed.

Lemma find_closing_quote_plain (pre a rest : u8string) :
  plain_text a = true ->
  find_closing_quote (pre ++ ch_quote :: a ++ ch_quote :: rest) (length pre)
  = Ok (length pre + 1 + length a).
Proof.
  intros Hp. unfold find_closing_quote.
  assert (Hfuel : length a
                  < length (pre ++ ch_quote :: a ++ ch_quote :: rest) - (length pre + 1)).
  { rewrite length_app. cbn [length]. rewrite length_app. cbn [length]. lia. }
  revert Hfuel.
  generalize (length (pre ++ ch_quote :: a ++ ch_quote :: rest) - (length pre + 1)).
  intros fuel Hfuel.
  pose proof (find_closing_quote_from_plain rest a (pre ++ [ch_quote]) fuel Hp Hfuel) as H.
  rewrite <- app_assoc in H. cbn [app] in H. rewrite length_app in H. cbn [length] in H.
  exact H.
Qed.

(** ** Scans read no further than what they return *)

Lemma agree_at (n : nat) (a b : u8string) (i : nat) :
  agree_upto n a b -> i < n -> at_ a i = at_ b i.
Proof.
  intros H Hi. unfold at_.
  pose proof (nth_error_firstn n a i) as Ha. pose proof (nth_error_firstn n b i) as Hb.
  destruct (Nat.ltb_spec i n); [|lia]. rewrite <- Ha, <- Hb, H. reflexivity.
Qed.

Lemma agree_length (n : nat) (a b : u8string) :
  agree_upto n a b -> n <= length a -> n <= length b.
Proof.
  intros H Hn. apply (f_equal (@length ascii)) in H. rewrite !length_firstn in H. lia.
Qed.

Lemma agree_le (n m : nat) (a b : u8string) :
  agree_upto n a b -> m <= n -> agree_upto m a b.
Proof.
  unfold agree_upto. intros H Hm.
  replace m with (Nat.min m n) by lia. rewrite <- !firstn_firstn, H. reflexivity.
Qed.

Lemma agree_char_is (n : nat) (a b : u8string) (i : nat) (c : ascii) :
  agree_upto n a b -> i < n -> n <= length a -> char_is b i c = char_is a i c.
Proof.
  intros H Hi Hn. pose proof (agree_length n a b H Hn). unfold char_is.
  rewrite (agree_at n a b i H Hi).
  destruct (Nat.ltb_spec i (length a)), (Nat.ltb_spec i (length b)); try lia. reflexivity.
Qed.

Lemma agree_string_view_between (n : nat) (a b : u8string) (i j : nat) :
  agree_upto n a b -> i < j <= n ->
  string_view_between b i j = string_view_between a i j.
Proof.
  intros H Hij. unfold string_view_between.
  rewrite !firstn_skipn_comm. replace (i + 1 + (j - i - 1)) with j by lia.
  rewrite (agree_le n j a b H) by lia. reflexivity.
Qed.

Lemma find_closing_quote_from_ge (json : u8string) :
  forall fuel i esc q, find_closing_quote_from fuel json i esc = Ok q -> i <= q < length json.
Proof.
  induction fuel as [|fuel IH]; intros i esc q H; cbn [find_closing_quote_from] in H.
  - destruct (length json <=? i); discriminate.
  - destruct (Nat.leb_spec (length json) i); [discriminate|].
    unfold read in H. destruct (at_ json i) as [c|]; [|discriminate].
    destruct (Ascii.eqb c ch_backslash); [apply IH in H; lia|].
    destruct (Ascii.eqb c ch_quote); [|apply IH in H; lia].
    destruct esc; cbn [negb] in H; [apply IH in H; lia|].
    inversion H; subst. lia.
Qed.

Lemma find_closing_quote_from_prefix (json json' : u8string) :
  forall fuel i esc q fuel',
    find_closing_quote_from fuel json i esc = Ok q ->
    agree_upto (q + 1) json json' -> q - i < fuel' ->
    find_closing_quote_from fuel' json' i esc = Ok q.
Proof.
  induction fuel as [|fuel IH]; intros i esc q fuel' H Hag Hfuel;
    cbn [find_closing_quote_from] in H.
  { destruct (length json <=? i); discriminate. }
  pose proof (find_closing_quote_from_ge json (S fuel) i esc q) as Hge.
  cbn [find_closing_quote_from] in Hge. specialize (Hge H).
  pose proof (agree_length _ _ _ Hag) as Hlen.
  destruct (Nat.leb_spec (length json) i); [discriminate|].
  destruct fuel' as [|fuel']; [lia|]. cbn [find_closing_quote_from].
  destruct (Nat.leb_spec (length json') i); [lia|].
  unfold read in *. rewrite <- (agree_at _ _ _ i Hag) by lia.
  destruct (at_ json i) as [c|]; [|discriminate].
  assert (Hrec : forall e, find_closing_quote_from fuel json (S i) e = Ok q ->
                           find_closing_quote_from fuel' json' (S i) e = Ok q).
  { intros e He. pose proof (find_closing_quote_from_ge json fuel (S i) e q He).
    apply (IH _ _ _ _ He Hag). lia. }
  destruct (Ascii.eqb c ch_backslash); [apply Hrec; exact H|].
  destruct (Ascii.eqb c ch_quote); [|apply Hrec; exact H].
  destruct esc; cbn [negb] in *; [apply Hrec; exact H|exact H].
Qed.

Lemma find_closing_quote_prefix (json json' : u8string) (o q : nat) :
  find_closing_quote json o = Ok q -> agree_upto (q + 1) json json' ->
  find_closing_quote json' o = Ok q.
Proof.
  unfold find_closing_quote. intros H Hag.
  pose proof (find_closing_quote_from_ge json _ _ _ _ H) as Hge.
  pose proof (agree_length _ _ _ Hag) as Hlen.
  apply (find_closing_quote_from_prefix json json' _ _ _ _ _ H Hag). lia.
Qed.

Lemma find_closing_brace_from_prefix (json json' : u8string) :
  forall fuel i stack c fuel',
    find_closing_brace_from fuel json i stack = Ok c ->
    agree_upto (c + 1) json json' -> c - i < fuel' ->
    find_closing_brace_from fuel' json' i stack = Ok c.
Proof.
  induction fuel as [|fuel IH]; intros i stack c fuel' H Hag Hfuel.
  { cbn [find_closing_brace_from] in H. destruct (length json <=? i); discriminate. }
  pose proof (find_closing_brace_from_returns json (S fuel) i stack c H) as [Hge (y & Hy & _)].
  apply at_some_lt in Hy.
  pose proof (agree_length _ _ _ Hag) as Hlen.
  cbn [find_closing_brace_from] in H.
  destruct (Nat.leb_spec (length json) i); [discriminate|].
  destruct fuel' as [|fuel']; [lia|]. cbn [find_closing_brace_from].
  destruct (Nat.leb_spec (length json') i); [lia|].
  unfold read in *. rewrite <- (agree_at _ _ _ i Hag) by lia.
  destruct (at_ json i) as [x|]; [|discriminate].
  assert (Hrec : forall j st, i <= j ->
            find_closing_brace_from fuel json (S j) st = Ok c ->
            find_closing_brace_from fuel' json' (S j) st = Ok c).
  { intros j st Hj He.
    pose proof (find_closing_brace_from_returns json fuel (S j) st c He) as [Hge' _].
    apply (IH _ _ _ _ He Hag). lia. }
  destruct (Ascii.eqb x ch_quote).
  - pose proof (find_closing_quote_outcome json i) as Ho.
    destruct (find_closing_quote json i) as [j|e| |] eqn:Hq; cbn [bind] in H; try discriminate.
    cbn [closing_quote_outcome] in Ho.
    pose proof (find_closing_brace_from_returns json fuel (S j) stack c H) as [Hge' _].
    rewrite (find_closing_quote_prefix json json' i j Hq) by (apply (agree_le _ _ _ _ Hag); lia).
    cbn [bind]. apply Hrec; [lia|exact H].
  - destruct (is_open x); [apply Hrec; [lia|exact H]|].
    destruct (is_close x); [|apply Hrec; [lia|exact H]].
    destruct stack as [|top rest]; [discriminate|].
    destruct (Ascii.eqb x top); [|discriminate].
    destruct rest; [exact H|]. apply Hrec; [lia|exact H].
Qed.

Lemma index_where_prefix (p : ascii -> bool) :
  forall (l l' : u8string) (a j : nat),
    index_where p l a = Some j ->
    firstn (j - a + 1) l = firstn (j - a + 1) l' ->
    index_where p l' a = Some j.
Proof.
  induction l as [|c l IH]; intros l' a j H Hag; cbn [index_where] in H; [discriminate|].
  replace (j - a + 1) with (S (j - a)) in Hag by lia.
  destruct l' as [|c' l']; [discriminate|]. cbn [firstn] in Hag.
  inversion Hag as [[Hc Hrest]]. subst c'. cbn [index_where].
  destruct (p c); [exact H|].
  pose proof (index_where_ge p l (S a) j H) as Hge.
  apply (IH l' (S a) j H). replace (j - S a + 1) with (j - a) by lia. exact Hrest.
Qed.

Lemma value_end_from_prefix (json json' : u8string) (vs ve : nat) :
  value_end_from json vs = Ok ve -> vs <= ve -> ve + 2 <= length json ->
  agree_upto (ve + 2) json json' ->
  value_end_from json' vs = Ok ve.
Proof.
  intros H Hle Hin Hag. pose proof (agree_length _ _ _ Hag Hin) as Hlen.
  unfold value_end_from, read in *. rewrite <- (agree_at _ _ _ vs Hag) by lia.
  destruct (at_ json vs) as [x|] eqn:Hx; [|discriminate].
  destruct (Ascii.eqb x ch_quote).
  - apply (find_closing_quote_prefix json json' vs ve H).
    apply (agree_le _ _ _ _ Hag). lia.
  - destruct (is_open x) eqn:Hop.
    + unfold find_matching_brace, read in *. rewrite <- (agree_at _ _ _ vs Hag) by lia.
      rewrite Hx, Hop in *.
      destruct (Nat.ltb_spec (vs + 1) (length json)) as [Hin1|Hout].
      * destruct (Nat.ltb_spec (vs + 1) (length json')); [|lia].
        unfold find_closing_brace in *.
        pose proof (find_closing_brace_from_returns json _ _ _ _ H) as [Hge _].
        apply (find_closing_brace_from_prefix json json' _ _ _ _ _ H);
          [apply (agree_le _ _ _ _ Hag); lia|lia].
      * destruct vs as [|before]; [discriminate|].
        apply rfind_opening_brace_kind in H. lia.
    + destruct (index_where _ (skipn (vs + 1) json) (vs + 1)) as [j|] eqn:Hj; [|discriminate].
      inversion H; subst. pose proof (index_where_ge _ _ _ _ Hj) as Hge.
      rewrite (index_where_prefix _ _ (skipn (vs + 1) json') _ _ Hj); [reflexivity|].
      rewrite !firstn_skipn_comm. f_equal.
      apply (agree_le _ _ _ _ Hag). lia.
Qed.

Section LookupPrefix.

Variable json : u8string.
Variable key : u8string.
Hypothesis open_not_last : ends_with_open json = false.

Lemma sibling_keys_forward_continue :
  forall fuel i st r,
    sibling_keys_forward fuel json i (lookup_callback key) st = Ok (r, true) -> r = st.
Proof.
  induction fuel as [|fuel IH]; intros i st r H; cbn [sibling_keys_forward] in H.
  - destruct (char_is json i ch_quote); cbn [negb] in H; [discriminate|]. congruence.
  - destruct (char_is json i ch_quote); cbn [negb] in H; [|congruence].
    destruct (find_closing_quote json i) as [ke|e| |]; cbn [bind] in H; try discriminate.
    destruct (_ || _); [discriminate|].
    unfold lookup_callback in H at 1.
    destruct (u8_eqb _ key); cbn [bind snd fst negb] in H; [discriminate|].
    destruct (value_end_from json (ke + 2)) as [ve|e| |]; cbn [bind] in H; try discriminate.
    apply (IH _ _ _ H).
Qed.

Lemma sibling_keys_forward_stop :
  forall fuel i st v,
    sibling_keys_forward fuel json i (lookup_callback key) st = Ok (Some v, false) ->
    i < v /\ v < length json
    /\ forall json' fuel',
         agree_upto v json json' -> v < length json' -> v - i <= fuel' ->
         sibling_keys_forward fuel' json' i (lookup_callback key) st = Ok (Some v, false).
Proof.
  induction fuel as [|fuel IH]; intros i st v H; cbn [sibling_keys_forward] in H.
  { destruct (char_is json i ch_quote); cbn [negb] in H; discriminate. }
  destruct (char_is json i ch_quote) eqn:Hq; cbn [negb] in H; [|discriminate].
  pose proof (find_closing_quote_outcome json i) as Ho.
  destruct (find_closing_quote json i) as [ke|e| |] eqn:Hke; cbn [bind] in H; try discriminate.
  cbn [closing_quote_outcome] in Ho. destruct Ho as (Hke1 & _).
  destruct (Nat.leb_spec (length json) (ke + 2)) as [|Hin]; cbn [orb] in H; [discriminate|].
  destruct (char_is json (ke + 1) ch_colon) eqn:Hcolon; cbn [negb] in H; [|discriminate].
  unfold lookup_callback in H at 1.
  destruct (u8_eqb (string_view_between json i ke) key) eqn:Hkey; cbn [bind snd fst negb] in H.
  - inversion H; subst. clear H. split; [lia|]. split; [exact Hin|].
    intros json' fuel' Hag Hlen Hfuel.
    destruct fuel' as [|fuel']; [lia|]. cbn [sibling_keys_forward].
    rewrite (agree_char_is _ _ _ i ch_quote Hag), Hq by lia. cbn [negb].
    rewrite (find_closing_quote_prefix json json' i ke Hke)
      by (apply (agree_le _ _ _ _ Hag); lia).
    cbn [bind].
    destruct (Nat.leb_spec (length json') (ke + 2)); [lia|]. cbn [orb].
    rewrite (agree_char_is _ _ _ (ke + 1) ch_colon Hag), Hcolon by lia. cbn [negb].
    unfold lookup_callback at 1.
    rewrite (agree_string_view_between _ _ _ i ke Hag), Hkey by lia. reflexivity.
  - pose proof (value_end_from_progress json (ke + 2) open_not_last Hin) as Hve.
    destruct (value_end_from json (ke + 2)) as [ve|e| |] eqn:Eve; cbn [bind] in H;
      try discriminate.
    destruct (IH _ _ _ H) as (I1 & I2 & I3).
    assert (Hi2 : ve + 1 <= (if char_is json (ve + 1) ch_comma then S (ve + 1) else ve + 1)
                  /\ (if char_is json (ve + 1) ch_comma then S (ve + 1) else ve + 1) <= ve + 2)
      by (destruct (char_is json (ve + 1) ch_comma); lia).
    split; [lia|]. split; [exact I2|].
    intros json' fuel' Hag Hlen Hfuel.
    destruct fuel' as [|fuel']; [lia|]. cbn [sibling_keys_forward].
    rewrite (agree_char_is _ _ _ i ch_quote Hag), Hq by lia. cbn [negb].
    rewrite (find_closing_quote_prefix json json' i ke Hke)
      by (apply (agree_le _ _ _ _ Hag); lia).
    cbn [bind].
    destruct (Nat.leb_spec (length json') (ke + 2)); [lia|]. cbn [orb].
    rewrite (agree_char_is _ _ _ (ke + 1) ch_colon Hag), Hcolon by lia. cbn [negb].
    unfold lookup_callback at 1.
    rewrite (agree_string_view_between _ _ _ i ke Hag), Hkey by lia.
    cbn [bind snd fst negb].
    rewrite (value_end_from_prefix json json' (ke + 2) ve Eve Hve)
      by (try (apply (agree_le _ _ _ _ Hag)); lia).
    cbn [bind].
    rewrite (agree_char_is _ _ _ (ve + 1) ch_comma Hag) by lia.
    apply I3; [exact Hag|exact Hlen|lia].
Qed.

Lemma lookup_value_in_object_prefix (brace v : nat) (json' : u8string) :
  at_ json brace = Some ch_lbrace ->
  lookup_value_in_object json brace key = Ok (Some v) ->
  brace + 1 < v /\ v < length json
  /\ (agree_upto v json json' -> v < length json' ->
      lookup_value_in_object json' brace key = Ok (Some v)).
Proof.
  intros Hbrace H.
  change (for_key_values_in_object json brace (lookup_callback key) None = Ok (Some v)) in H.
  unfold for_key_values_in_object, read in H.
  destruct (Nat.ltb_spec (brace + 1) (length json)) as [Hin|]; [|discriminate].
  destruct (at_ json (brace + 1)) as [c|] eqn:Hc; [|discriminate].
  destruct (Ascii.eqb c ch_quote) eqn:Hcq.
  2:{ destruct (Ascii.eqb c ch_rbrace); discriminate. }
  unfold for_sibling_key_values_in_object in H.
  destruct (sibling_keys_forward (length json) json (brace + 1) (lookup_callback key) None)
    as [[r b]| | |] eqn:Hf; cbn [bind snd fst] in H; try discriminate.
  destruct b; cbn [negb] in H.
  { apply sibling_keys_forward_continue in Hf. subst r.
    replace (brace + 1) with (S brace) in H by lia.
    cbn [sibling_keys_backward] in H. destruct (brace =? 0); [discriminate|].
    unfold read in H. rewrite Hbrace in H. cbn [Ascii.eqb] in H.
    vm_compute in H. discriminate. }
  inversion H; subst r. clear H.
  destruct (sibling_keys_forward_stop _ _ _ _ Hf) as (S1 & S2 & S3).
  split; [exact S1|]. split; [exact S2|].
  intros Hag Hlen.
  change (for_key_values_in_object json' brace (lookup_callback key) None = Ok (Some v)).
  unfold for_key_values_in_object, read.
  destruct (Nat.ltb_spec (brace + 1) (length json')); [|lia].
  rewrite <- (agree_at _ _ _ (brace + 1) Hag), Hc, Hcq by lia.
  unfold for_sibling_key_values_in_object.
  rewrite (S3 json' (length json') Hag Hlen) by lia. reflexivity.
Qed.

End LookupPrefix.

Lemma starts_with_of_firstn (s pattern : u8string) :
  firstn (length pattern) s = pattern -> starts_with s pattern = true.
Proof.
  intros H. rewrite <- (firstn_skipn (length pattern) s), H. apply starts_with_app.
Qed.

Lemma find_from_ge (pattern : u8string) :
  forall s i k, find_from pattern s i = Some k -> i <= k.
Proof.
  induction s as [|c s IH]; intros i k H; cbn [find_from] in H.
  - destruct (starts_with [] pattern); [|discriminate]. inversion H. lia.
  - destruct (starts_with (c :: s) pattern); [inversion H; lia|].
    apply IH in H. lia.
Qed.

Lemma find_from_starts (pattern : u8string) :
  forall s i k, find_from pattern s i = Some k ->
    starts_with (skipn (k - i) s) pattern = true.
Proof.
  induction s as [|c s IH]; intros i k H; cbn [find_from] in H.
  - destruct (starts_with [] pattern) eqn:E; [|discriminate].
    inversion H; subst. rewrite Nat.sub_diag. exact E.
  - destruct (starts_with (c :: s) pattern) eqn:E.
    + inversion H; subst. rewrite Nat.sub_diag. exact E.
    + pose proof (find_from_ge pattern s (S i) k H).
      apply IH in H. replace (k - i) with (S (k - S i)) by lia. exact H.
Qed.

Lemma find_from_prefix (pattern : u8string) :
  forall s s' i k,
    find_from pattern s i = Some k ->
    firstn (k - i + length pattern) s = firstn (k - i + length pattern) s' ->
    find_from pattern s' i = Some k.
Proof.
  induction s as [|c s IH]; intros s' i k H Hag.
  - cbn [find_from] in H. destruct (starts_with [] pattern) eqn:E; [|discriminate].
    inversion H; subst. rewrite Nat.sub_diag in Hag. cbn [Nat.add] in Hag.
    apply starts_with_firstn in E. rewrite Hag in E.
    apply starts_with_of_firstn in E.
    destruct s'; cbn [find_from]; rewrite E; reflexivity.
  - cbn [find_from] in H. destruct (starts_with (c :: s) pattern) eqn:E.
    + inversion H; subst. rewrite Nat.sub_diag in Hag. cbn [Nat.add] in Hag.
      apply starts_with_firstn in E. rewrite Hag in E.
      apply starts_with_of_firstn in E.
      destruct s'; cbn [find_from]; rewrite E; reflexivity.
    + pose proof (find_from_ge pattern s (S i) k H) as Hge.
      replace (k - i + length pattern) with (S (k - S i + length pattern)) in Hag by lia.
      destruct s' as [|c' s']; [discriminate|]. cbn [firstn] in Hag.
      inversion Hag as [[Hc Hrest]]. subst c'.
      cbn [find_from].
      destruct (starts_with (c :: s') pattern) eqn:E'.
      * exfalso. apply starts_with_firstn in E'.
        assert (Hp : firstn (length pattern) (c :: s) = firstn (length pattern) (c :: s')).
        { change (agree_upto (length pattern) (c :: s) (c :: s')).
          apply (agree_le (S (k - S i + length pattern))); [|lia].
          unfold agree_upto. cbn [firstn]. rewrite Hrest. reflexivity. }
        rewrite <- Hp in E'. apply starts_with_of_firstn in E'. congruence.
      * apply (IH s' (S i) k H Hrest).
Qed.

Lemma find_prefix (json json' pattern : u8string) (k : nat) :
  find json pattern 0 = Some k ->
  agree_upto (k + length pattern) json json' ->
  find json' pattern 0 = Some k.
Proof.
  unfold find. cbn [Nat.ltb Nat.leb skipn]. intros H Hag.
  apply (find_from_prefix pattern json json' 0 k H).
  rewrite Nat.sub_0_r. exact Hag.
Qed.

Lemma patched_info_agree (info : u8string) (name_offset name_size : nat) (new_name : u8string) :
  name_offset <= length info ->
  agree_upto name_offset info (patched_info info name_offset name_size new_name).
Proof.
  intros H. unfold agree_upto, patched_info.
  rewrite firstn_app, firstn_firstn, Nat.min_id, length_firstn.
  replace (name_offset - Nat.min name_offset (length info)) with 0 by lia.
  rewrite firstn_0, app_nil_r. reflexivity.
Qed.

(** The info with a new name, read again: up to a first quote that the new
    text holds, it is the name that [get_save_name] finds. *)
Lemma get_save_name_of_patched (info : u8string) (name_offset name_size : nat)
  (new_name a rest : u8string) :
  get_save_name info = Ok (name_offset, name_size) ->
  ends_with_open info = false ->
  new_name ++ skipn (name_offset + name_size) info = a ++ ch_quote :: rest ->
  plain_text a = true ->
  get_save_name (patched_info info name_offset name_size new_name)
  = Ok (name_offset, length a).
Proof.
  intros Hget Hend Hsplit Hplain.
  pose proof (get_save_name_inside info name_offset name_size Hget) as Hinside.
  unfold get_save_name in Hget.
  destruct (find info save_info_obj_start 0) as [k|] eqn:Hk; [|discriminate].
  destruct (lookup_value_in_object info (k + length save_info_obj_start - 1) (json_of "name"))
    as [[p|]|e| |] eqn:Hl; cbn [bind] in Hget; try discriminate.
  unfold read in Hget. destruct (at_ info p) as [c|] eqn:Hc; [|discriminate].
  destruct (Ascii.eqb_spec c ch_quote) as [->|]; [|discriminate].
  destruct (find_closing_quote info p) as [q|e| |] eqn:Hq; cbn [bind] in Hget;
    try discriminate.
  inversion Hget; subst name_offset name_size. clear Hget.
  set (out := patched_info info (p + 1) (q - (p + 1)) new_name).
  assert (Hag : agree_upto (p + 1) info out).
  { apply patched_info_agree. apply at_some_lt in Hc. lia. }
  assert (Hstart : starts_with (skipn k info) save_info_obj_start = true).
  { pose proof (find_from_starts save_info_obj_start info 0 k) as Hs.
    unfold find in Hk. cbn [Nat.ltb Nat.leb skipn] in Hk. specialize (Hs Hk).
    rewrite Nat.sub_0_r in Hs. exact Hs. }
  assert (Hbrace : at_ info (k + length save_info_obj_start - 1) = Some ch_lbrace).
  { pose proof (starts_with_at _ _ Hstart 11 ch_lbrace eq_refl) as Hb.
    rewrite at_skipn in Hb. change (length save_info_obj_start) with 12.
    replace (k + 12 - 1) with (k + 11) by lia. exact Hb. }
  destruct (lookup_value_in_object_prefix info (json_of "name") Hend
              (k + length save_info_obj_start - 1) p out Hbrace Hl) as (L1 & L2 & L3).
  change (length save_info_obj_start) with 12 in *.
  assert (Hout : out = firstn p info ++ ch_quote :: a ++ ch_quote :: rest).
  { unfold out, patched_info.
    replace (p + 1) with (S p) at 1 by lia. rewrite (firstn_snoc info p ch_quote Hc).
    rewrite <- app_assoc. cbn [app]. rewrite Hsplit. reflexivity. }
  assert (Hlen : p + 1 < length out).
  { rewrite Hout, !length_app, length_firstn. cbn [length]. rewrite length_app. cbn [length].
    apply at_some_lt in Hc. lia. }
  unfold get_save_name. fold out.
  rewrite (find_prefix info out save_info_obj_start k Hk)
    by (apply (agree_le _ _ _ _ Hag); change (length save_info_obj_start) with 12; lia). change (length save_info_obj_start) with 12.
  rewrite L3; [|apply (agree_le _ _ _ _ Hag); lia|lia].
  cbn [bind]. unfold read.
  rewrite <- (agree_at _ _ _ p Hag), Hc by lia. rewrite Ascii.eqb_refl.
  assert (Hp : length (firstn p info) = p).
  { rewrite length_firstn. apply at_some_lt in Hc. lia. }
  rewrite Hout. rewrite <- Hp at 2.
  rewrite find_closing_quote_plain by exact Hplain. cbn [bind]. rewrite Hp.
  f_equal. f_equal. lia.
Qed.

Lemma create_uncompressed_output_info (info data : u8string) (name_offset name_size : nat)
  (new_name : u8string) (ds : driver_array) (out_info out_data : u8string) :
  create_uncompressed_output info data name_offset name_size new_name ds
  = Ok (out_info, out_data) ->
  name_offset + name_size <= length info -> (size info < 2 ^ 64)%Z ->
  out_info = patched_info info name_offset name_size new_name.
Proof.
  intros H Hname Hsize. unfold create_uncompressed_output in H.
  destruct (create_uncompressed_output_buffer info data name_size new_name ds)
    as [[bi bd]|e| |] eqn:Hb; cbn [bind fst snd] in H; try discriminate.
  assert (Hw : written bi = []).
  { unfold create_uncompressed_output_buffer in Hb.
    destruct (_ <? _)%Z; [discriminate|]. inversion Hb; subst. reflexivity. }
  rewrite substr_prefix in H by lia. cbn [bind] in H.
  unfold copy_to_buffer in H at 1.
  destruct (remaining bi <? size (firstn name_offset info))%Z; cbn [bind] in H;
    [discriminate|].
  unfold copy_to_buffer in H at 1. cbn [remaining written] in H.
  destruct (_ <? size new_name)%Z; cbn [bind] in H; [discriminate|].
  rewrite <- Nat2Z.inj_add, wrap_small in H by (unfold size in Hsize; lia).
  rewrite substr_rest in H by (unfold size in *; lia). cbn [bind] in H.
  unfold copy_to_buffer in H at 1. cbn [remaining written] in H.
  destruct (_ <? size (skipn (name_offset + name_size) info))%Z; cbn [bind] in H;
    [discriminate|].
  destruct (copy_changed_positions data (drivers_list ds) 0 bd) as [r|e| |]; cbn [bind] in H;
    try discriminate.
  destruct (substr data (fst r) npos) as [tail|e| |]; cbn [bind] in H; try discriminate.
  destruct (copy_to_buffer tail (snd r)) as [bd'|e| |]; cbn [bind] in H; try discriminate.
  destruct (_ || _); [discriminate|].
  inversion H; subst. cbn [written]. rewrite Hw. unfold patched_info.
  cbn [app]. rewrite <- app_assoc. reflexivity.
Qed.

Lemma get_save_name_quotes (info : u8string) (name_offset name_size : nat) :
  get_save_name info = Ok (name_offset, name_size) ->
  at_ info (name_offset + name_size) = Some ch_quote.
Proof.
  unfold get_save_name.
  destruct (find info save_info_obj_start 0) as [k|]; [|discriminate].
  destruct (lookup_value_in_object info _ _) as [[p|]|e| |]; cbn [bind]; try discriminate.
  unfold read. destruct (at_ info p) as [c|]; [|discriminate].
  destruct (Ascii.eqb c ch_quote); [|discriminate].
  pose proof (find_closing_quote_outcome info p) as Hq.
  destruct (find_closing_quote info p) as [q|e| |]; cbn [bind]; try discriminate.
  cbn [closing_quote_outcome] in Hq. intros H. inversion H; subst.
  replace (p + 1 + (q - (p + 1))) with q by lia. apply Hq.
Qed.

(** X13: what is written as the info of an opened save, read again, has the new
    name where the old one was, when the info does not end in an opening
    brace and the new name holds no double quote and no backslash.  A new
    name is written as it is, without escapes: when it holds a double quote,
    the name read again ends before the first one. *)
Theorem renamed_save_reads_back (info data : u8string) (sf : SaveFile)
  (es : list (nat * DriverPosition)) (new_name out_info out_data : u8string) :
  open_SaveFile info data = Ok sf ->
  uncompressed_output_of (edits sf es) new_name = Ok (out_info, out_data) ->
  (size info < 2 ^ 64)%Z ->
  ends_with_open info = false ->
  (plain_text new_name = true ->
   get_save_name out_info = Ok (save_name_offset sf, length new_name)
   /\ firstn (length new_name) (skipn (save_name_offset sf) out_info) = new_name)
  /\ (forall a b, new_name = a ++ ch_quote :: b -> plain_text a = true ->
        get_save_name out_info = Ok (save_name_offset sf, length a)).
Proof.
  intros Hopen Hout Hsize Hend.
  destruct (open_SaveFile_records info data sf es Hopen) as (K1 & K2 & K3 & _).
  destruct (edits_keep sf es) as (_ & _ & K4 & K5 & _).
  assert (Hget : get_save_name info = Ok (save_name_offset sf, save_name_size sf)).
  { unfold open_SaveFile in Hopen.
    destruct (get_save_name info) as [[off sz]|e| |]; cbn [bind] in Hopen; try discriminate.
    destruct (get_driver_data_from_json data) as [ds|e| |]; cbn [bind] in Hopen;
      try discriminate.
    inversion Hopen; subst. reflexivity. }
  unfold uncompressed_output_of in Hout. rewrite K1, K2, K4, K5 in Hout. rewrite K4, K5 in K3.
  apply create_uncompressed_output_info in Hout; [|lia|exact Hsize]. subst out_info.
  pose proof (get_save_name_quotes info _ _ Hget) as Hquote.
  split.
  - intros Hplain. split.
    + apply (get_save_name_of_patched info _ _ new_name new_name
               (skipn (S (save_name_offset sf + save_name_size sf)) info) Hget Hend);
        [|exact Hplain].
      rewrite (skipn_at info _ ch_quote Hquote). reflexivity.
    + unfold patched_info. rewrite skipn_app, length_firstn.
      replace (Nat.min (save_name_offset sf) (length info)) with (save_name_offset sf) by lia.
      rewrite Nat.sub_diag. rewrite skipn_all2 by (rewrite length_firstn; lia).
      cbn [skipn app]. rewrite firstn_app, Nat.sub_diag, firstn_all. cbn [firstn].
      apply app_nil_r.
  - intros a b Hn Hplain.
    apply (get_save_name_of_patched info _ _ new_name a
             (b ++ skipn (save_name_offset sf + save_name_size sf) info) Hget Hend);
      [|exact Hplain].
    rewrite Hn, <- app_assoc. reflexivity.
Qed.

Lemma renamed_save_reads_back_witness :
  get_save_name (patched_info example_info 30 7 (json_of "renamed")) = Ok (30, 7)
  /\ get_save_name (patched_info example_info 30 7 (json_of "a'b")) = Ok (30, 1).
Proof.
  split.
  - apply (proj1 (renamed_save_reads_back example_info example_data example_session []
                    (json_of "renamed")
                    (patched_info example_info 30 7 (json_of "renamed")) example_data
                    ltac:(vm_compute; reflexivity) ltac:(vm_compute; reflexivity)
                    ltac:(vm_compute; reflexivity) ltac:(vm_compute; reflexivity))).
    vm_compute. reflexivity.
  - apply (proj2 (renamed_save_reads_back example_info example_data example_session []
                    (json_of "a'b")
                    (patched_info example_info 30 7 (json_of "a'b")) example_data
                    ltac:(vm_compute; reflexivity) ltac:(vm_compute; reflexivity)
                    ltac:(vm_compute; reflexivity) ltac:(vm_compute; reflexivity))
             (json_of "a") (json_of "b")).
    + vm_compute. reflexivity.
    + vm_compute. reflexivity.
Defined.

(** ** The window: radio buttons *)

Lemma one_checked_row (row : radio_row) :
  one_checked row = true -> row = set_radio_buttons (set_position_from_radios row).
Proof.
  destruct row as [[|] [|] [|]]; cbv; intros H; try discriminate; reflexivity.
Qed.

Lemma radios_unique_distinct (p0 p1 p2 : DriverPosition) :
  selected_driver_positions_are_unique (set_radio_buttons p0) (set_radio_buttons p1)
    (set_radio_buttons p2) = true
  <-> NoDup [p0; p1; p2].
Proof.
  split.
  - intros H. destruct p0, p1, p2; try (cbv in H; discriminate);
      repeat constructor; cbn [In]; intuition discriminate.
  - intros H.
    inversion H as [|? ? N0 H1]; subst. inversion H1 as [|? ? N1 _]; subst.
    cbn [In] in N0, N1.
    destruct p0, p1, p2; try reflexivity; exfalso; tauto.
Qed.

(** X14: the radio buttons show the positions and give them back: reading the
    buttons that [set_radio_buttons] has set for a position gives that
    position; and when every driver has exactly one button checked, the
    check that enables saving passes exactly when the three positions read
    from the buttons are three different ones. *)
Theorem radio_buttons_round_trip (driver_0 driver_1 driver_2 : radio_row) :
  (forall p, set_position_from_radios (set_radio_buttons p) = p
             /\ one_checked (set_radio_buttons p) = true)
  /\ (one_checked driver_0 = true -> one_checked driver_1 = true ->
      one_checked driver_2 = true ->
      (selected_driver_positions_are_unique driver_0 driver_1 driver_2 = true
       <-> NoDup [set_position_from_radios driver_0; set_position_from_radios driver_1;
                  set_position_from_radios driver_2])).
Proof.
  split.
  - intros p. destruct p; split; reflexivity.
  - intros H0 H1 H2.
    rewrite (one_checked_row driver_0 H0) at 1.
    rewrite (one_checked_row driver_1 H1) at 1.
    rewrite (one_checked_row driver_2 H2) at 1.
    apply radios_unique_distinct.
Qed.

Lemma radio_buttons_round_trip_witness :
  selected_driver_positions_are_unique (set_radio_buttons car2) (set_radio_buttons reserve)
    (set_radio_buttons car1) = true
  <-> NoDup [set_position_from_radios (set_radio_buttons car2);
             set_position_from_radios (set_radio_buttons reserve);
             set_position_from_radios (set_radio_buttons car1)].
Proof.
  apply (proj2 (radio_buttons_round_trip (set_radio_buttons car2) (set_radio_buttons reserve)
                  (set_radio_buttons car1))); reflexivity.
Defined.

(** X15: the positions that the save button assigns: with exactly one button
    checked for every driver, a session it goes on with has each of the
    three positions on exactly one driver, and offsets and original
    positions as they were. *)
Theorem save_button_assigns_each_position_once (sf sf' : SaveFile)
  (driver_0 driver_1 driver_2 : radio_row) :
  one_checked driver_0 = true -> one_checked driver_1 = true -> one_checked driver_2 = true ->
  save_button_positions sf driver_0 driver_1 driver_2 = Some sf' ->
  Permutation (map position (drivers_list (drivers sf'))) [car1; car2; reserve]
  /\ map car_id_file_offset (drivers_list (drivers sf'))
     = map car_id_file_offset (drivers_list (drivers sf))
  /\ map original_position (drivers_list (drivers sf'))
     = map original_position (drivers_list (drivers sf))
  /\ save_data sf' = save_data sf /\ save_info sf' = save_info sf.
Proof.
  intros H0 H1 H2. unfold save_button_positions.
  destruct (selected_driver_positions_are_unique driver_0 driver_1 driver_2) eqn:Hu;
    cbn [negb]; [|discriminate].
  intros H. inversion H; subst. clear H.
  rewrite (one_checked_row driver_0 H0), (one_checked_row driver_1 H1),
    (one_checked_row driver_2 H2) in Hu.
  destruct (drivers sf) as [[d0 d1] d2] eqn:Hd.
  cbn [edit drivers set_position save_data save_info]. rewrite Hd.
  cbn [set_position drivers_list map set_position_of position car_id_file_offset
       original_position].
  split; [|repeat split].
  destruct (set_position_from_radios driver_0), (set_position_from_radios driver_1),
    (set_position_from_radios driver_2); try (cbv in Hu; discriminate);
    solve [ reflexivity
          | apply perm_swap
          | apply perm_skip, perm_swap
          | eapply perm_trans; [apply perm_swap|apply perm_skip, perm_swap]
          | eapply perm_trans; [apply perm_skip, perm_swap|apply perm_swap]
          | eapply perm_trans;
            [apply perm_swap|eapply perm_trans; [apply perm_skip, perm_swap|apply perm_swap]] ].
Qed.

Lemma save_button_assigns_each_position_once_witness :
  Permutation
    (map position
       (drivers_list
          (drivers (edit (edit (edit example_session 0 car2) 1 reserve) 2 car1))))
    [car1; car2; reserve].
Proof.
  apply (save_button_assigns_each_position_once example_session
           (edit (edit (edit example_session 0 car2) 1 reserve) 2 car1)
           (set_radio_buttons car2) (set_radio_buttons reserve) (set_radio_buttons car1));
    reflexivity.
Defined.

(** ** The window: file names *)

Lemma find_last_of_from_none (chars : u8string) :
  forall s i, find_last_of_from s chars i = None
              <-> forallb (fun c => negb (existsb (Ascii.eqb c) chars)) s = true.
Proof.
  induction s as [|c s IH]; intros i; cbn [find_last_of_from forallb]; [tauto|].
  specialize (IH (S i)).
  destruct (find_last_of_from s chars (S i)) as [j|].
  - split; [discriminate|]. intros H. apply andb_true_iff in H.
    destruct H as [_ H]. apply IH in H. discriminate.
  - destruct (existsb (Ascii.eqb c) chars); cbn [negb andb].
    + split; discriminate.
    + split; intros _; [apply IH|]; reflexivity.
Qed.

Lemma find_last_of_from_app (chars pre post : u8string) (c : ascii) :
  existsb (Ascii.eqb c) chars = true ->
  forallb (fun x => negb (existsb (Ascii.eqb x) chars)) post = true ->
  forall i, find_last_of_from (pre ++ c :: post) chars i = Some (i + length pre).
Proof.
  intros Hc Hpost. induction pre as [|x pre IH]; intros i; cbn [app find_last_of_from length].
  - apply (find_last_of_from_none chars post (S i)) in Hpost. rewrite Hpost, Hc.
    f_equal. lia.
  - rewrite IH. f_equal. lia.
Qed.

Lemma find_last_of_from_some (chars : u8string) :
  forall s i j, find_last_of_from s chars i = Some j ->
    exists pre c post,
      s = pre ++ c :: post /\ j = i + length pre
      /\ existsb (Ascii.eqb c) chars = true
      /\ forallb (fun x => negb (existsb (Ascii.eqb x) chars)) post = true.
Proof.
  induction s as [|x s IH]; intros i j H; cbn [find_last_of_from] in H; [discriminate|].
  destruct (find_last_of_from s chars (S i)) as [k|] eqn:E.
  - inversion H; subst k. destruct (IH _ _ E) as (pre & c & post & -> & -> & Hc & Hp).
    exists (x :: pre), c, post. cbn [app length]. repeat split; try assumption. lia.
  - destruct (existsb (Ascii.eqb x) chars) eqn:Hx; [|discriminate].
    inversion H; subst j. exists [], x, s. cbn [app length].
    repeat split; try assumption; [lia|]. apply (find_last_of_from_none chars s (S i)). exact E.
Qed.

Lemma ends_with_app (s suffix : u8string) : ends_with (s ++ suffix) suffix = true.
Proof.
  unfold ends_with. rewrite length_app.
  destruct (Nat.leb_spec (length suffix) (length s + length suffix)); [|lia].
  replace (length s + length suffix - length suffix) with (length s) by lia.
  rewrite skipn_app, skipn_all, Nat.sub_diag. cbn [skipn app andb].
  apply u8_eqb_eq. reflexivity.
Qed.

Lemma ends_with_split (s suffix : u8string) :
  ends_with s suffix = true -> exists t, s = t ++ suffix.
Proof.
  unfold ends_with. intros H. apply andb_true_iff in H. destruct H as [_ H].
  apply u8_eqb_eq in H. exists (firstn (length s - length suffix) s).
  transitivity (firstn (length s - length suffix) s ++ skipn (length s - length suffix) s);
    [symmetry; apply firstn_skipn|rewrite H; reflexivity].
Qed.

Lemma separator_free_app (a b : u8string) :
  separator_free (a ++ b) = separator_free a && separator_free b.
Proof. apply forallb_app. Qed.

(** A path with a separator that ends with the extension has the extension
    after the last separator. *)
Lemma extension_after_separator (pre post t : u8string) (c : ascii) :
  is_separator c = true -> pre ++ c :: post = t ++ extension ->
  exists base, post = base ++ extension /\ t = pre ++ c :: base.
Proof.
  intros Hc H.
  assert (Hrev : rev extension ++ rev t = rev post ++ c :: rev pre).
  { rewrite <- rev_app_distr, <- H, rev_app_distr. cbn [rev].
    rewrite <- app_assoc. reflexivity. }
  assert (Hno : forall x, In x extension -> is_separator x = false).
  { intros x Hx. cbv in Hx. destruct Hx as [<-|[<-|[<-|[<-|[]]]]]; reflexivity. }
  destruct (rev post) as [|p0 [|p1 [|p2 [|p3 rp]]]] eqn:Hp; cbn in Hrev;
    inversion Hrev; subst;
    try (exfalso; rewrite Hno in Hc; [discriminate|cbv; tauto]).
  exists (rev rp).
  apply (f_equal (@rev ascii)) in Hp. rewrite rev_involutive in Hp. cbn [rev] in Hp.
  rewrite <- !app_assoc in Hp. cbn [app] in Hp.
  split; [exact Hp|].
  match goal with Ht : rev t = _ |- _ => apply (f_equal (@rev ascii)) in Ht;
    rewrite rev_involutive in Ht; rewrite Ht end.
  rewrite rev_app_distr. cbn [rev]. rewrite rev_involutive, <- app_assoc. reflexivity.
Qed.

Lemma substr_from (s : u8string) (pos : nat) :
  pos <= length s -> (size s < 2 ^ 64)%Z ->
  substr s (wrap (Z.of_nat pos)) npos = Ok (skipn pos s).
Proof.
  intros H Hs. rewrite wrap_small by (unfold size in Hs; lia).
  apply substr_rest; assumption.
Qed.

Lemma substr_drop_extension (t : u8string) :
  (size (t ++ extension) < 2 ^ 64)%Z ->
  substr (t ++ extension) 0 (wrap (size (t ++ extension) - size extension)) = Ok t.
Proof.
  intros Hs. unfold size in *. rewrite length_app in *.
  rewrite wrap_small by lia.
  replace (Z.of_nat (length t + length extension) - Z.of_nat (length extension))%Z
    with (Z.of_nat (length t)) by lia.
  rewrite substr_prefix by (rewrite length_app; lia).
  rewrite firstn_app, Nat.sub_diag, firstn_all. cbn [firstn]. rewrite app_nil_r. reflexivity.
Qed.

Lemma extract_save_name_of_parts (NDEBUG : bool) (dir base : u8string) (c : ascii) :
  is_separator c = true -> separator_free base = true ->
  (size (dir ++ c :: base ++ extension) < 2 ^ 64)%Z ->
  extract_save_name_from_save_path NDEBUG (dir ++ c :: base ++ extension)
  = match base with
    | [] => if NDEBUG then Ok (Passed default_save_name) else Ok Aborted
    | _ :: _ => Ok (Passed base)
    end.
Proof.
  intros Hc Hbase Hsize. unfold extract_save_name_from_save_path.
  assert (Hpath : dir ++ c :: base ++ extension = (dir ++ c :: base) ++ extension).
  { rewrite <- app_assoc. reflexivity. }
  assert (Hends : ends_with (dir ++ c :: base ++ extension) extension = true).
  { rewrite Hpath. apply ends_with_app. }
  rewrite Hends.
  assert (Hfind : find_last_of (dir ++ c :: base ++ extension) path_separators
                  = Some (length dir)).
  { unfold find_last_of. rewrite find_last_of_from_app; [reflexivity|exact Hc|].
    change (separator_free (base ++ extension) = true).
    rewrite separator_free_app, Hbase. reflexivity. }
  rewrite Hfind. rewrite Hpath at 1 2. rewrite Hpath in Hsize.
  rewrite substr_drop_extension by exact Hsize. cbn [bind].
  replace (Z.of_nat (length dir) + 1)%Z with (Z.of_nat (length dir + 1)) by lia.
  rewrite substr_from.
  - rewrite skipn_app, skipn_all2 by lia.
    replace (length dir + 1 - length dir) with 1 by lia. cbn [skipn app bind].
    destruct base; reflexivity.
  - rewrite length_app. cbn [length]. lia.
  - unfold size in *. rewrite !length_app in *. cbn [length] in *. lia.
Qed.

(** What is left of a path once the extension and the directory have been
    taken off holds no separator, and the function comes to it in both
    builds. *)
Lemma extract_save_name_stem (path : u8string) :
  (size path < 2 ^ 64)%Z ->
  exists n,
    separator_free n = true
    /\ forall NDEBUG,
         extract_save_name_from_save_path NDEBUG path
         = match n with
           | [] => if NDEBUG then Ok (Passed default_save_name) else Ok Aborted
           | _ :: _ => Ok (Passed n)
           end.
Proof.
  intros Hsize. unfold extract_save_name_from_save_path.
  destruct (ends_with path extension) eqn:Hends.
  - destruct (ends_with_split _ _ Hends) as [t ->].
    rewrite substr_drop_extension by exact Hsize. cbn [bind].
    destruct (find_last_of (t ++ extension) path_separators) as [j|] eqn:Hfind.
    + destruct (find_last_of_from_some _ _ _ _ Hfind) as (pre & c & post & Hs & -> & Hc & Hp).
      destruct (extension_after_separator pre post t c Hc (eq_sym Hs)) as (base & -> & ->).
      cbn [Nat.add].
      replace (Z.of_nat (length pre) + 1)%Z with (Z.of_nat (length pre + 1)) by lia.
      rewrite substr_from.
      * rewrite skipn_app, skipn_all2 by lia.
        replace (length pre + 1 - length pre) with 1 by lia. cbn [skipn app bind].
        exists base. split; [|intros NDEBUG; reflexivity].
        change (separator_free (base ++ extension) = true) in Hp.
        rewrite separator_free_app in Hp. apply andb_true_iff in Hp. apply Hp.
      * rewrite length_app. cbn [length]. lia.
      * unfold size in *. rewrite !length_app in *. cbn [length] in *. lia.
    + cbn [bind]. exists t. split; [|intros NDEBUG; reflexivity].
      apply (find_last_of_from_none path_separators (t ++ extension) 0) in Hfind.
      change (separator_free (t ++ extension) = true) in Hfind.
      rewrite separator_free_app in Hfind. apply andb_true_iff in Hfind. apply Hfind.
  - cbn [bind].
    destruct (find_last_of path path_separators) as [j|] eqn:Hfind.
    + destruct (find_last_of_from_some _ _ _ _ Hfind) as (pre & c & post & -> & -> & Hc & Hp).
      cbn [Nat.add].
      replace (Z.of_nat (length pre) + 1)%Z with (Z.of_nat (length pre + 1)) by lia.
      rewrite substr_from.
      * rewrite skipn_app, skipn_all2 by lia.
        replace (length pre + 1 - length pre) with 1 by lia. cbn [skipn app bind].
        exists post. split; [exact Hp|intros NDEBUG; reflexivity].
      * rewrite length_app. cbn [length]. lia.
      * exact Hsize.
    + cbn [bind]. exists path. split; [|intros NDEBUG; reflexivity].
      apply (find_last_of_from_none path_separators path 0). exact Hfind.
Qed.

(** X16: [extract_save_name_from_save_path] never throws: the offset after the
    last separator lies inside what is left of the path once the extension
    has been taken off.  It returns a name that is not empty and holds no
    slash and no backslash, or, in a build without [NDEBUG] only, it aborts
    on its failed assertion; where the build without [NDEBUG] aborts, the
    build with [NDEBUG] returns the default name, and everywhere else the
    two builds return the same name.  For a path made of a directory, a
    separator, a base name without separators and the extension, it returns
    the base name; when the base name is empty it returns the default name
    in a build with [NDEBUG] and aborts on the assertion in a build
    without. *)
Theorem extract_save_name_from_save_path_name (NDEBUG : bool) (path : u8string) :
  (size path < 2 ^ 64)%Z ->
  (exists r,
     extract_save_name_from_save_path NDEBUG path = Ok r
     /\ match r with
        | Passed save_name => save_name <> [] /\ separator_free save_name = true
        | Aborted => NDEBUG = false
        end)
  /\ ((extract_save_name_from_save_path false path = Ok Aborted
       /\ extract_save_name_from_save_path true path = Ok (Passed default_save_name))
      \/ exists save_name,
           extract_save_name_from_save_path false path = Ok (Passed save_name)
           /\ extract_save_name_from_save_path true path = Ok (Passed save_name))
  /\ forall dir c base,
       path = dir ++ c :: base ++ extension ->
       is_separator c = true -> separator_free base = true ->
       extract_save_name_from_save_path NDEBUG path
       = Ok (match base with
             | [] => if NDEBUG then Passed default_save_name else Aborted
             | _ :: _ => Passed base
             end).
Proof.
  intros Hsize. destruct (extract_save_name_stem path Hsize) as (n & Hn & Hstem).
  split; [|split].
  - rewrite Hstem. destruct n as [|x n].
    + destruct NDEBUG; eexists; (split; [reflexivity|]).
      * split; [discriminate|reflexivity].
      * reflexivity.
    + eexists. split; [reflexivity|]. split; [discriminate|exact Hn].
  - rewrite !Hstem. destruct n as [|x n].
    + left. split; reflexivity.
    + right. exists (x :: n). split; reflexivity.
  - intros dir c base -> Hc Hbase. rewrite extract_save_name_of_parts by assumption.
    destruct base; [destruct NDEBUG|]; reflexivity.
Qed.

Lemma extract_save_name_from_save_path_name_witness :
  extract_save_name_from_save_path true (json_of "C:\saves\.sav")
  = Ok (Passed default_save_name)
  /\ extract_save_name_from_save_path false (json_of "C:\saves\.sav") = Ok Aborted
  /\ extract_save_name_from_save_path false (json_of "C:\saves/race 3.sav")
     = Ok (Passed (json_of "race 3")).
Proof.
  split; [|split].
  - apply (proj2 (proj2 (extract_save_name_from_save_path_name true
                           (json_of "C:\saves\.sav") ltac:(vm_compute; reflexivity)))
             (json_of "C:\saves") ch_backslash []); reflexivity.
  - apply (proj2 (proj2 (extract_save_name_from_save_path_name false
                           (json_of "C:\saves\.sav") ltac:(vm_compute; reflexivity)))
             (json_of "C:\saves") ch_backslash []); reflexivity.
  - apply (proj2 (proj2 (extract_save_name_from_save_path_name false
                           (json_of "C:\saves/race 3.sav") ltac:(vm_compute; reflexivity)))
             (json_of "C:\saves") "/"%char (json_of "race 3")); reflexivity.
Defined.

(** X17: the file name that is suggested for the fixed save: for a path made of
    a directory, a separator, a base name without separators and the
    extension it is the base name followed by (fixed).sav, and the save name
    that [extract_save_name_from_save_path] takes from a path that ends in
    the suggested file name is, with [NDEBUG] defined or not, the base name
    followed by (fixed).  For a path without a separator, or one that does
    not end with the extension, the suggestion is empty. *)
Theorem get_suggested_output_file_name_fixed (path : u8string) :
  (size path + 16 < 2 ^ 64)%Z ->
  (find_last_of path path_separators = None -> get_suggested_output_file_name path = Ok [])
  /\ (ends_with path extension = false -> get_suggested_output_file_name path = Ok [])
  /\ forall dir c base,
       path = dir ++ c :: base ++ extension ->
       is_separator c = true -> separator_free base = true ->
       get_suggested_output_file_name path = Ok (base ++ json_of "(fixed).sav")
       /\ forall NDEBUG,
            extract_save_name_from_save_path NDEBUG
              (dir ++ c :: base ++ json_of "(fixed).sav")
            = Ok (Passed (base ++ json_of "(fixed)")).
Proof.
  intros Hsize. split; [|split].
  - unfold get_suggested_output_file_name. intros ->. reflexivity.
  - unfold get_suggested_output_file_name. intros ->.
    destruct (find_last_of path path_separators); reflexivity.
  - intros dir c base -> Hc Hbase. split.
    + unfold get_suggested_output_file_name.
      assert (Hfind : find_last_of (dir ++ c :: base ++ extension) path_separators
                      = Some (length dir)).
      { unfold find_last_of. rewrite find_last_of_from_app; [reflexivity|exact Hc|].
        change (separator_free (base ++ extension) = true).
        rewrite separator_free_app, Hbase. reflexivity. }
      rewrite Hfind.
      replace (dir ++ c :: base ++ extension) with ((dir ++ c :: base) ++ extension) at 1
        by (rewrite <- app_assoc; reflexivity).
      rewrite ends_with_app.
      replace (Z.of_nat (length dir) + 1)%Z with (Z.of_nat (length dir + 1)) by lia.
      rewrite substr_from.
      * rewrite skipn_app, skipn_all2 by lia.
        replace (length dir + 1 - length dir) with 1 by lia. cbn [skipn app bind].
        rewrite substr_drop_extension; [reflexivity|].
        unfold size in *. rewrite !length_app in *. cbn [length] in *.
        rewrite length_app in Hsize. lia.
      * rewrite length_app. cbn [length]. lia.
      * lia.
    + intros NDEBUG. change (json_of "(fixed).sav") with (json_of "(fixed)" ++ extension).
      rewrite app_assoc.
      rewrite extract_save_name_of_parts.
      * destruct base; reflexivity.
      * exact Hc.
      * rewrite separator_free_app, Hbase. reflexivity.
      * unfold size in *. rewrite !length_app in *. cbn [length] in *.
        rewrite !length_app in *. cbn [length] in *.
        change (length extension) with 4 in *.
        change (length (json_of "(fixed)")) with 7. lia.
Qed.

Lemma get_suggested_output_file_name_fixed_witness :
  get_suggested_output_file_name (json_of "race 3.sav") = Ok []
  /\ get_suggested_output_file_name (json_of "C:\saves\race 3.sav")
     = Ok (json_of "race 3(fixed).sav").
Proof.
  split.
  - apply (proj1 (get_suggested_output_file_name_fixed (json_of "race 3.sav")
                    ltac:(vm_compute; reflexivity))). reflexivity.
  - apply (proj2 (proj2 (get_suggested_output_file_name_fixed (json_of "C:\saves\race 3.sav")
                           ltac:(vm_compute; reflexivity)))
             (json_of "C:\saves") ch_backslash (json_of "race 3")); reflexivity.
Defined.

(** ** The header: what is accepted *)

Lemma byte_val_range (b : Byte.byte) : (0 <= byte_val b < 256)%Z.
Proof.
  unfold byte_val. pose proof (Strings.Byte.to_N_bounded b). lia.
Qed.

Lemma as_int_range (u : Z) : (0 <= u < 2 ^ 32)%Z -> int_range (as_int u).
Proof.
  intros H. unfold as_int, int_range. destruct (Z.ltb_spec u (2 ^ 31)); lia.
Qed.

Lemma int_at_range (file_data : list Byte.byte) (off : nat) : int_range (int_at file_data off).
Proof.
  unfold int_at.
  destruct (firstn 4 (skipn off file_data)) as [|b0 [|b1 [|b2 [|b3 [|? ?]]]]];
    try (unfold int_range; lia).
  apply as_int_range.
  pose proof (byte_val_range b0). pose proof (byte_val_range b1).
  pose proof (byte_val_range b2). pose proof (byte_val_range b3). lia.
Qed.

Lemma read_save_file_header_cases (file_data : list Byte.byte) :
  read_save_file_header file_data
  = if length file_data <? sizeof_SaveFileHeader then Throw InvalidFormat
    else if negb (magic (header_of file_data) =? mm_save_file_magic)%Z
            || (compressed_info_size (header_of file_data) <=? 0)%Z
            || (decompressed_info_size (header_of file_data) <=? 0)%Z
            || (compressed_data_size (header_of file_data) <=? 0)%Z
            || (decompressed_data_size (header_of file_data) <=? 0)%Z
    then Throw InvalidFormat
    else if negb (version (header_of file_data) =? mm_save_file_supported_version)%Z
    then Throw (UnsupportedVersion (version (header_of file_data)))
    else Ok (header_of file_data).
Proof.
  unfold read_save_file_header.
  destruct (length file_data <? sizeof_SaveFileHeader); [reflexivity|].
  destruct (_ || _); [reflexivity|].
  destruct (negb _); [reflexivity|].
  pose proof (int_at_range file_data 12) as H1. pose proof (int_at_range file_data 20) as H2.
  unfold int_range in *. cbn [header_of decompressed_info_size decompressed_data_size].
  destruct (Z.ltb_spec max_decompressed_buffer_size
              (int_at file_data 12 + int_at file_data 20)) as [H|]; [|reflexivity].
  unfold max_decompressed_buffer_size in H. lia.
Qed.

Lemma read_save_file_header_ok (file_data : list Byte.byte) (h : SaveFileHeader) :
  read_save_file_header file_data = Ok h
  <-> sizeof_SaveFileHeader <= length file_data
      /\ h = header_of file_data
      /\ magic h = mm_save_file_magic
      /\ version h = mm_save_file_supported_version
      /\ sizes_positive h.
Proof.
  rewrite read_save_file_header_cases. unfold sizes_positive.
  destruct (Nat.ltb_spec (length file_data) sizeof_SaveFileHeader) as [Hl|Hl].
  { split; [discriminate|]. intros []. lia. }
  destruct (Z.eqb_spec (magic (header_of file_data)) mm_save_file_magic) as [Hm|Hm];
    cbn [negb orb].
  2:{ split; [discriminate|]. intros (_ & -> & ? & _). contradiction. }
  destruct (Z.leb_spec (compressed_info_size (header_of file_data)) 0); cbn [orb].
  { split; [discriminate|]. intros (_ & -> & _ & _ & ? & _). lia. }
  destruct (Z.leb_spec (decompressed_info_size (header_of file_data)) 0); cbn [orb].
  { split; [discriminate|]. intros (_ & -> & _ & _ & _ & ? & _). lia. }
  destruct (Z.leb_spec (compressed_data_size (header_of file_data)) 0); cbn [orb].
  { split; [discriminate|]. intros (_ & -> & _ & _ & _ & _ & ? & _). lia. }
  destruct (Z.leb_spec (decompressed_data_size (header_of file_data)) 0); cbn [orb].
  { split; [discriminate|]. intros (_ & -> & _ & _ & _ & _ & _ & ?). lia. }
  destruct (Z.eqb_spec (version (header_of file_data)) mm_save_file_supported_version)
    as [Hv|Hv]; cbn [negb].
  2:{ split; [discriminate|]. intros (_ & -> & _ & ? & _). contradiction. }
  split.
  - intros Hok. inversion Hok; subst. repeat split; try assumption; lia.
  - intros (_ & -> & _). reflexivity.
Qed.

(** X18: a header is accepted exactly when the file has at least the 24 bytes of
    a header, the magic is right, the four sizes are positive and the version
    is 4, and the header returned is the one that these bytes hold.  The
    check of the total decompressed size never fires: two [int]s add up to
    less than 4 GiB, so TooLarge is never thrown. *)
Theorem read_save_file_header_accepts (file_data : list Byte.byte) :
  (forall h, read_save_file_header file_data = Ok h
             <-> sizeof_SaveFileHeader <= length file_data
                 /\ h = header_of file_data
                 /\ magic h = mm_save_file_magic
                 /\ version h = mm_save_file_supported_version
                 /\ sizes_positive h)
  /\ read_save_file_header file_data <> Throw TooLarge
  /\ (decompressed_info_size (header_of file_data)
      + decompressed_data_size (header_of file_data) < max_decompressed_buffer_size)%Z.
Proof.
  split; [intros h; apply read_save_file_header_ok|]. split.
  - rewrite read_save_file_header_cases.
    destruct (_ <? _); [discriminate|]. destruct (_ || _); [discriminate|].
    destruct (negb _); discriminate.
  - pose proof (int_at_range file_data 12) as H1. pose proof (int_at_range file_data 20) as H2.
    unfold int_range, max_decompressed_buffer_size in *.
    cbn [header_of decompressed_info_size decompressed_data_size]. lia.
Qed.

(** ** The header: bytes and fields *)

Lemma byte_val_byte_of (z : Z) : byte_val (byte_of z) = (z mod 256)%Z.
Proof.
  unfold byte_val, byte_of.
  pose proof (Z.mod_pos_bound z 256 ltac:(lia)) as Hm.
  destruct (Byte.of_N (Z.to_N (z mod 256))) as [b|] eqn:E.
  - apply Strings.Byte.to_of_N in E. rewrite E. lia.
  - apply Strings.Byte.of_N_None_iff in E. lia.
Qed.

Lemma int_at_int_bytes (z : Z) (rest : list Byte.byte) :
  int_range z -> int_at (int_bytes z ++ rest) 0 = z.
Proof.
  intros Hz. unfold int_range in Hz. unfold int_at, int_bytes. cbn [skipn app firstn].
  rewrite !byte_val_byte_of.
  set (u := (z mod 2 ^ 32)%Z).
  assert (Hu : (0 <= u < 2 ^ 32)%Z) by (apply Z.mod_pos_bound; lia).
  assert (Hsum : (u mod 256 + 2 ^ 8 * ((u / 2 ^ 8) mod 256) + 2 ^ 16 * ((u / 2 ^ 16) mod 256)
                  + 2 ^ 24 * ((u / 2 ^ 24) mod 256) = u)%Z).
  { pose proof (Z.div_mod u 256 ltac:(lia)) as D0.
    pose proof (Z.div_mod (u / 256) 256 ltac:(lia)) as D1.
    pose proof (Z.div_mod (u / 256 / 256) 256 ltac:(lia)) as D2.
    assert (E1 : (u / 2 ^ 8 = u / 256)%Z) by reflexivity.
    assert (E2 : (u / 2 ^ 16 = u / 256 / 256)%Z)
      by (rewrite Z.div_div by lia; reflexivity).
    assert (E3 : (u / 2 ^ 24 = u / 256 / 256 / 256)%Z)
      by (rewrite !Z.div_div by lia; reflexivity).
    assert (Hsmall : (0 <= u / 256 / 256 / 256 < 256)%Z).
    { rewrite <- E3. split; [apply Z.div_pos; lia|].
      apply Z.div_lt_upper_bound; lia. }
    rewrite E1, E2, E3. rewrite (Z.mod_small (u / 256 / 256 / 256)) by lia. lia. }
  rewrite Hsum. unfold as_int.
  destruct (Z.ltb_spec u (2 ^ 31)) as [H|H].
  - destruct (Z.neg_nonneg_cases z) as [Hn|Hp].
    + assert (u = z + 2 ^ 32)%Z; [|lia]. unfold u. symmetry.
      apply (Z.mod_unique_pos z (2 ^ 32) (-1) (z + 2 ^ 32)); lia.
    + unfold u in *. rewrite Z.mod_small; lia.
  - destruct (Z.neg_nonneg_cases z) as [Hn|Hp].
    + assert (u = z + 2 ^ 32)%Z; [|lia]. unfold u. symmetry.
      apply (Z.mod_unique_pos z (2 ^ 32) (-1) (z + 2 ^ 32)); lia.
    + unfold u in *. rewrite Z.mod_small in H; lia.
Qed.

Lemma header_of_header_bytes (h : SaveFileHeader) (rest : list Byte.byte) :
  header_in_range h -> header_of (header_bytes h ++ rest) = h.
Proof.
  intros (H0 & H1 & H2 & H3 & H4 & H5). destruct h as [m v ci di cd dd].
  cbn [magic version compressed_info_size decompressed_info_size compressed_data_size
       decompressed_data_size] in *.
  unfold header_of, header_bytes.
  cbn [magic version compressed_info_size decompressed_info_size compressed_data_size
       decompressed_data_size].
  rewrite <- !app_assoc.
  assert (Hskip : forall z (l : list Byte.byte) n, skipn (4 + n) (int_bytes z ++ l) = skipn n l).
  { intros z l n. reflexivity. }
  assert (Hat : forall n (l : list Byte.byte) z, int_range z ->
            skipn n l = int_bytes z ++ skipn (4 + n) l -> int_at l n = z).
  { intros n l z Hz Hl. unfold int_at. rewrite Hl.
    change (firstn 4 (int_bytes z ++ skipn (4 + n) l))
      with (firstn 4 (skipn 0 (int_bytes z ++ skipn (4 + n) l))).
    apply (int_at_int_bytes z (skipn (4 + n) l) Hz). }
  f_equal; apply Hat; try assumption; reflexivity.
Qed.

(** X19: the header that has been written is the header that is read: the 24
    bytes of a header whose fields are [int]s, followed by anything, hold
    that header, and it is accepted when its magic is right, its version is
    4 and its sizes are positive. *)
Theorem header_bytes_round_trip (h : SaveFileHeader) (rest : list Byte.byte) :
  header_in_range h ->
  length (header_bytes h) = sizeof_SaveFileHeader
  /\ header_of (header_bytes h ++ rest) = h
  /\ (magic h = mm_save_file_magic -> version h = mm_save_file_supported_version ->
      sizes_positive h ->
      read_save_file_header (header_bytes h ++ rest) = Ok h).
Proof.
  intros Hr. split; [reflexivity|]. split; [apply header_of_header_bytes; exact Hr|].
  intros Hm Hv Hs. apply read_save_file_header_ok.
  rewrite (header_of_header_bytes h rest Hr).
  split.
  { rewrite length_app. change (length (header_bytes h)) with 24.
    unfold sizeof_SaveFileHeader. lia. }
  repeat split; try assumption; apply Hs.
Qed.

Lemma header_bytes_round_trip_witness :
  read_save_file_header
    (header_bytes {| magic := mm_save_file_magic; version := 4;
                     compressed_info_size := 300; decompressed_info_size := 70000;
                     compressed_data_size := 1; decompressed_data_size := 2147483647 |}
     ++ [Byte.x2a])
  = Ok {| magic := mm_save_file_magic; version := 4;
          compressed_info_size := 300; decompressed_info_size := 70000;
          compressed_data_size := 1; decompressed_data_size := 2147483647 |}.
Proof.
  apply (proj2 (proj2 (header_bytes_round_trip
                         {| magic := mm_save_file_magic; version := 4;
                            compressed_info_size := 300; decompressed_info_size := 70000;
                            compressed_data_size := 1; decompressed_data_size := 2147483647 |}
                         [Byte.x2a]
                         ltac:(repeat split; vm_compute; (reflexivity || discriminate))))).
  - reflexivity.
  - reflexivity.
  - repeat split; vm_compute; reflexivity.
Defined.

(** ** The container *)

Lemma to_int_small (z : Z) : (0 <= z <= int_max)%Z -> to_int z = z.
Proof.
  unfold int_max, to_int, as_int. intros H. rewrite Z.mod_small by lia.
  destruct (Z.ltb_spec z (2 ^ 31)); lia.
Qed.

Lemma firstn_repeat_le {A : Type} (x : A) :
  forall n m, n <= m -> firstn n (repeat x m) = repeat x n.
Proof.
  induction n as [|n IH]; intros m H; [reflexivity|].
  destruct m as [|m]; [lia|]. cbn [repeat firstn]. f_equal. apply IH. lia.
Qed.

Lemma skipn_repeat_sub {A : Type} (x : A) :
  forall n m, skipn n (repeat x m) = repeat x (m - n).
Proof.
  induction n as [|n IH]; intros m; [rewrite Nat.sub_0_r; reflexivity|].
  destruct m as [|m]; [reflexivity|]. cbn [repeat skipn Nat.sub]. apply IH.
Qed.

Lemma bsize_as_bytes (s : u8string) : bsize (as_bytes s) = size s.
Proof. unfold bsize, as_bytes, size. rewrite length_map. reflexivity. Qed.

Lemma size_as_u8 (bytes : list Byte.byte) : size (as_u8 bytes) = bsize bytes.
Proof. unfold bsize, as_u8, size. rewrite length_map. reflexivity. Qed.

Lemma as_u8_as_bytes (s : u8string) : as_u8 (as_bytes s) = s.
Proof.
  unfold as_u8, as_bytes. rewrite map_map. rewrite <- (map_id s) at 2.
  apply map_ext. apply ascii_of_byte_of_ascii.
Qed.

Lemma bsize_fresh_buffer (n : Z) : (0 <= n)%Z -> bsize (fresh_buffer n) = n.
Proof. intros H. unfold bsize, fresh_buffer. rewrite repeat_length. lia. Qed.

Lemma overwrite_all (buffer written : list Byte.byte) :
  length written = length buffer -> overwrite buffer written = written.
Proof.
  intros H. unfold overwrite. rewrite <- H, firstn_app, Nat.sub_diag, firstn_all.
  cbn [firstn]. apply app_nil_r.
Qed.

Lemma overwrite_front (buffer written : list Byte.byte) :
  length written <= length buffer ->
  overwrite buffer written = written ++ skipn (length written) buffer.
Proof.
  intros H. unfold overwrite. apply firstn_all2.
  rewrite length_app, length_skipn. lia.
Qed.

Lemma bsize_overwrite (buffer written : list Byte.byte) :
  bsize (overwrite buffer written) = bsize buffer.
Proof.
  unfold bsize, overwrite. rewrite length_firstn, length_app, length_skipn. lia.
Qed.

Lemma lz4_decompress_size `{LZ4} (compressed_data output_buffer out : list Byte.byte) :
  lz4_decompress compressed_data output_buffer = Ok out -> bsize out = bsize output_buffer.
Proof.
  unfold lz4_decompress. destruct (negb _); [discriminate|].
  intros E. inversion E. apply bsize_overwrite.
Qed.

Lemma lz4_decompress_throws `{LZ4} (compressed_data output_buffer : list Byte.byte) :
  throws_only (fun e => e = CorruptPayload) (lz4_decompress compressed_data output_buffer).
Proof. unfold lz4_decompress. destruct (negb _); [reflexivity|exact I]. Qed.

Lemma bsize_firstn (l : list Byte.byte) (n : Z) :
  (0 <= n <= bsize l)%Z -> bsize (firstn (Z.to_nat n) l) = n.
Proof. unfold bsize. intros H. rewrite length_firstn. lia. Qed.

Lemma bsize_skipn (l : list Byte.byte) (n : Z) :
  (0 <= n <= bsize l)%Z -> bsize (skipn (Z.to_nat n) l) = (bsize l - n)%Z.
Proof. unfold bsize. intros H. rewrite length_skipn. lia. Qed.

(** What [open_and_decompress_save] does with the bytes of a file. *)
Lemma open_and_decompress_save_cases `{LZ4} (file_data : list Byte.byte) :
  match read_save_file_header file_data with
  | Ok h =>
      if (bsize file_data
          <? Z.of_nat sizeof_SaveFileHeader + compressed_info_size h + compressed_data_size h)%Z
      then open_and_decompress_save file_data = Undefined
      else
        let payload := skipn sizeof_SaveFileHeader file_data in
        open_and_decompress_save file_data
        = (save_info_buffer <-
             lz4_decompress (firstn (Z.to_nat (compressed_info_size h)) payload)
               (fresh_buffer (decompressed_info_size h)) ;;
           save_data_buffer <-
             lz4_decompress
               (firstn (Z.to_nat (compressed_data_size h))
                  (skipn (Z.to_nat (compressed_info_size h)) payload))
               (fresh_buffer (decompressed_data_size h)) ;;
           Ok (as_u8 save_info_buffer, as_u8 save_data_buffer))
  | Throw e => open_and_decompress_save file_data = Throw e
  | Undefined => open_and_decompress_save file_data = Undefined
  | OutOfFuel => open_and_decompress_save file_data = OutOfFuel
  end.
Proof.
  unfold open_and_decompress_save.
  destruct (read_save_file_header file_data) as [h|e| |] eqn:Hh; cbn [bind]; try reflexivity.
  apply read_save_file_header_ok in Hh.
  destruct Hh as (Hlen & Hof & _ & _ & (P1 & P2 & P3 & P4)).
  assert (R : header_in_range h).
  { rewrite Hof. unfold header_in_range, header_of. cbn.
    repeat split; apply (proj1 (int_at_range file_data _)) || apply (proj2 (int_at_range file_data _)). }
  destruct R as (_ & _ & (_ & R1) & (_ & R2) & (_ & R3) & (_ & R4)).
  rewrite !(wrap_small (compressed_info_size h)), !(wrap_small (compressed_data_size h)),
    !(wrap_small (decompressed_info_size h)), !(wrap_small (decompressed_data_size h)) by lia.
  rewrite !wrap_small by lia.
  unfold sizeof_SaveFileHeader in *. unfold subspan_count.
  destruct (Z.ltb_spec (bsize file_data) (Z.of_nat 24)) as [Hs|_];
    [unfold bsize in Hs; lia|]. cbn [orb].
  destruct (Z.ltb_spec (bsize file_data)
              (Z.of_nat 24 + compressed_info_size h + compressed_data_size h)) as [Hshort|Hlong].
  - destruct (Z.ltb_spec (bsize file_data - Z.of_nat 24)
                (compressed_info_size h + compressed_data_size h)); [reflexivity|lia].
  - destruct (Z.ltb_spec (bsize file_data - Z.of_nat 24)
                (compressed_info_size h + compressed_data_size h)); [lia|].
    cbn [bind]. rewrite Nat2Z.id.
    set (payload := skipn 24 file_data).
    assert (Hp : bsize payload = (bsize file_data - 24)%Z).
    { unfold payload, bsize. rewrite length_skipn. lia. }
    set (both := firstn (Z.to_nat (compressed_info_size h + compressed_data_size h)) payload).
    assert (Hb : bsize both = (compressed_info_size h + compressed_data_size h)%Z).
    { unfold both. apply bsize_firstn. lia. }
    unfold split_span at 1.
    destruct (Z.ltb_spec (bsize both) (compressed_info_size h)); [lia|]. cbn [bind fst snd].
    unfold split_span.
    rewrite bsize_fresh_buffer by lia.
    destruct (Z.ltb_spec (decompressed_info_size h + decompressed_data_size h)
                (decompressed_info_size h)); [lia|]. cbn [bind fst snd].
    assert (E1 : firstn (Z.to_nat (compressed_info_size h)) both
                 = firstn (Z.to_nat (compressed_info_size h)) payload).
    { unfold both. rewrite firstn_firstn. f_equal. lia. }
    assert (E2 : skipn (Z.to_nat (compressed_info_size h)) both
                 = firstn (Z.to_nat (compressed_data_size h))
                     (skipn (Z.to_nat (compressed_info_size h)) payload)).
    { unfold both. rewrite skipn_firstn_comm. f_equal. lia. }
    assert (E3 : firstn (Z.to_nat (decompressed_info_size h))
                   (fresh_buffer (decompressed_info_size h + decompressed_data_size h))
                 = fresh_buffer (decompressed_info_size h)).
    { unfold fresh_buffer. apply firstn_repeat_le. lia. }
    assert (E4 : skipn (Z.to_nat (decompressed_info_size h))
                   (fresh_buffer (decompressed_info_size h + decompressed_data_size h))
                 = fresh_buffer (decompressed_data_size h)).
    { unfold fresh_buffer. rewrite skipn_repeat_sub. f_equal. lia. }
    rewrite E1, E2, E3, E4. reflexivity.
Qed.

Lemma open_and_decompress_save_sizes `{LZ4} (file_data : list Byte.byte)
  (info data : u8string) :
  open_and_decompress_save file_data = Ok (info, data) ->
  exists h, read_save_file_header file_data = Ok h
            /\ size info = decompressed_info_size h
            /\ size data = decompressed_data_size h.
Proof.
  pose proof (open_and_decompress_save_cases file_data) as Hc. intros Hok.
  destruct (read_save_file_header file_data) as [h|e| |] eqn:Hh;
    try (rewrite Hc in Hok; discriminate).
  exists h. split; [reflexivity|].
  destruct (Z.ltb_spec (bsize file_data)
              (Z.of_nat sizeof_SaveFileHeader + compressed_info_size h
               + compressed_data_size h)); [rewrite Hc in Hok; discriminate|].
  cbv zeta in Hc. rewrite Hc in Hok.
  apply read_save_file_header_ok in Hh. destruct Hh as (_ & _ & _ & _ & (P1 & P2 & P3 & P4)).
  destruct (lz4_decompress _ (fresh_buffer (decompressed_info_size h))) as [a| | |] eqn:Ea;
    cbn [bind] in Hok; try discriminate.
  destruct (lz4_decompress _ (fresh_buffer (decompressed_data_size h))) as [b| | |] eqn:Eb;
    cbn [bind] in Hok; try discriminate.
  inversion Hok; subst. rewrite !size_as_u8.
  apply lz4_decompress_size in Ea, Eb. rewrite bsize_fresh_buffer in Ea, Eb by lia.
  split; assumption.
Qed.

(** X20: the outcomes of [open_and_decompress_save]: an error of the header is
    thrown as it is; with a header that is accepted and fewer bytes after it
    than the two compressed sizes say, taking the span of the payload is not
    defined, and nothing is thrown; otherwise the only error is
    CorruptPayload, and buffers that are returned have the two decompressed
    sizes of the header. *)
Theorem open_and_decompress_save_outcomes `{LZ4} (file_data : list Byte.byte) :
  (forall e, read_save_file_header file_data = Throw e ->
             open_and_decompress_save file_data = Throw e)
  /\ (forall h, read_save_file_header file_data = Ok h ->
        (bsize file_data
         < Z.of_nat sizeof_SaveFileHeader + compressed_info_size h + compressed_data_size h)%Z ->
        open_and_decompress_save file_data = Undefined)
  /\ (forall h, read_save_file_header file_data = Ok h ->
        (Z.of_nat sizeof_SaveFileHeader + compressed_info_size h + compressed_data_size h
         <= bsize file_data)%Z ->
        throws_only (fun e => e = CorruptPayload) (open_and_decompress_save file_data))
  /\ (forall info data, open_and_decompress_save file_data = Ok (info, data) ->
        exists h, read_save_file_header file_data = Ok h
                  /\ size info = decompressed_info_size h
                  /\ size data = decompressed_data_size h).
Proof.
  pose proof (open_and_decompress_save_cases file_data) as Hc.
  split; [|split; [|split]].
  - intros e He. rewrite He in Hc. exact Hc.
  - intros h Hh Hshort. rewrite Hh in Hc.
    destruct (Z.ltb_spec (bsize file_data)
                (Z.of_nat sizeof_SaveFileHeader + compressed_info_size h
                 + compressed_data_size h)); [exact Hc|lia].
  - intros h Hh Hlong. rewrite Hh in Hc.
    destruct (Z.ltb_spec (bsize file_data)
                (Z.of_nat sizeof_SaveFileHeader + compressed_info_size h
                 + compressed_data_size h)); [lia|].
    cbv zeta in Hc. rewrite Hc.
    apply throws_only_bind; [apply lz4_decompress_throws|]. intros a _.
    apply throws_only_bind; [apply lz4_decompress_throws|]. intros b _. exact I.
  - intros info data. apply open_and_decompress_save_sizes.
Qed.

Lemma open_and_decompress_save_outcomes_witness :
  open_and_decompress_save
    (header_bytes {| magic := mm_save_file_magic; version := 4;
                     compressed_info_size := 3; decompressed_info_size := 2;
                     compressed_data_size := 2; decompressed_data_size := 1 |}
     ++ [Byte.x00; Byte.x61; Byte.x62; Byte.x00])
  = Undefined.
Proof.
  apply (proj1 (proj2 (open_and_decompress_save_outcomes
                         (header_bytes {| magic := mm_save_file_magic; version := 4;
                                          compressed_info_size := 3;
                                          decompressed_info_size := 2;
                                          compressed_data_size := 2;
                                          decompressed_data_size := 1 |}
                          ++ [Byte.x00; Byte.x61; Byte.x62; Byte.x00])))
           {| magic := mm_save_file_magic; version := 4;
              compressed_info_size := 3; decompressed_info_size := 2;
              compressed_data_size := 2; decompressed_data_size := 1 |}).
  - vm_compute. reflexivity.
  - vm_compute. reflexivity.
Defined.

Lemma subspan_ok (s : list Byte.byte) (offset : Z) :
  (0 <= offset <= bsize s)%Z -> subspan s offset = Ok (skipn (Z.to_nat offset) s).
Proof. intros H. unfold subspan. destruct (Z.ltb_spec (bsize s) offset); [lia|reflexivity]. Qed.

Lemma lz4_compress_ok `{LZ4} `{!LZ4_lossless} (input output_buffer : list Byte.byte) :
  (0 < LZ4_compressBound (bsize input) <= bsize output_buffer)%Z ->
  (bsize input <= int_max)%Z -> (bsize output_buffer <= int_max)%Z ->
  exists (compressed : list Byte.byte),
    lz4_compress input output_buffer
    = Ok (bsize compressed,
          compressed ++ skipn (length compressed) output_buffer)
    /\ (0 < bsize compressed <= LZ4_compressBound (bsize input))%Z
    /\ LZ4_decompress_safe compressed (bsize compressed) (bsize input) = (bsize input, input).
Proof.
  intros Hb Hi Ho. unfold lz4_compress.
  rewrite (to_int_small (bsize input)) by (unfold bsize in *; lia).
  rewrite (to_int_small (bsize output_buffer)) by (unfold bsize in *; lia).
  destruct (compress_within_bound input (bsize output_buffer) Hb Ho) as (C1 & C2 & C3).
  set (r := LZ4_compress_default input (bsize input) (bsize output_buffer)) in *.
  exists (snd r). rewrite C2.
  destruct (Z.eqb_spec (fst r) 0); [lia|].
  rewrite wrap_small by (unfold int_max in *; lia).
  rewrite overwrite_front by (unfold bsize in *; lia).
  repeat split; try lia. exact C3.
Qed.

Lemma lz4_decompress_ok `{LZ4} (compressed original : list Byte.byte) :
  (bsize compressed <= int_max)%Z -> (bsize original <= int_max)%Z ->
  LZ4_decompress_safe compressed (bsize compressed) (bsize original)
  = (bsize original, original) ->
  lz4_decompress compressed (fresh_buffer (bsize original)) = Ok original.
Proof.
  intros Hc Ho Hd. unfold lz4_decompress.
  rewrite bsize_fresh_buffer by (unfold bsize; lia).
  rewrite (to_int_small (bsize compressed)) by (unfold bsize in *; lia).
  rewrite (to_int_small (bsize original)) by (unfold bsize in *; lia).
  rewrite Hd. cbn [fst snd]. rewrite Z.eqb_refl. cbn [negb].
  rewrite overwrite_all; [reflexivity|].
  unfold fresh_buffer, bsize. rewrite repeat_length. lia.
Qed.

(** The file that is written for an output, and what reading it gives. *)
Lemma write_bytes_opens `{LZ4} `{!LZ4_lossless} (sf : SaveFile) (new_save_name : u8string)
  (out_info out_data : u8string) :
  uncompressed_output_of sf new_save_name = Ok (out_info, out_data) ->
  (0 < size out_info)%Z -> (0 < size out_data)%Z ->
  (0 < LZ4_compressBound (size out_info))%Z -> (0 < LZ4_compressBound (size out_data))%Z ->
  (size out_info <= int_max)%Z -> (size out_data <= int_max)%Z ->
  (LZ4_compressBound (size out_info) + LZ4_compressBound (size out_data) <= int_max)%Z ->
  exists file,
    write_bytes sf new_save_name = Ok file
    /\ (bsize file <= Z.of_nat sizeof_SaveFileHeader + LZ4_compressBound (size out_info)
                      + LZ4_compressBound (size out_data))%Z
    /\ open_and_decompress_save file = Ok (out_info, out_data).
Proof.
  intros Hout Pi Pd Bi Bd Mi Md Bsum.
  set (info := as_bytes out_info). set (data := as_bytes out_data).
  assert (Si : bsize info = size out_info) by apply bsize_as_bytes.
  assert (Sd : bsize data = size out_data) by apply bsize_as_bytes.
  set (bi := LZ4_compressBound (size out_info)) in *.
  set (bd := LZ4_compressBound (size out_data)) in *.
  unfold int_max in *.
  (* the first compression *)
  destruct (lz4_compress_ok info (fresh_buffer (bi + bd))) as (w1 & E1 & R1 & D1);
    [rewrite Si, bsize_fresh_buffer by lia; fold bi; lia
    |unfold int_max; lia
    |rewrite bsize_fresh_buffer by lia; unfold int_max; lia|].
  rewrite Si in R1, D1. fold bi in R1.
  assert (L1 : skipn (length w1) (fresh_buffer (bi + bd))
               = fresh_buffer (bi + bd - bsize w1)).
  { unfold fresh_buffer, bsize. rewrite skipn_repeat_sub. f_equal. lia. }
  (* the second compression *)
  destruct (lz4_compress_ok data (fresh_buffer (bi + bd - bsize w1))) as (w2 & E2 & R2 & D2);
    [rewrite Sd, bsize_fresh_buffer by lia; fold bd; lia
    |unfold int_max; lia
    |rewrite bsize_fresh_buffer by lia; unfold int_max; lia|].
  rewrite Sd in R2, D2. fold bd in R2.
  set (h := {| magic := mm_save_file_magic; version := mm_save_file_supported_version;
               compressed_info_size := bsize w1; decompressed_info_size := size out_info;
               compressed_data_size := bsize w2; decompressed_data_size := size out_data |}).
  exists (header_bytes h ++ w1 ++ w2).
  assert (Hfile : bsize (header_bytes h ++ w1 ++ w2) = (24 + bsize w1 + bsize w2)%Z).
  { unfold bsize. rewrite !length_app. change (length (header_bytes h)) with 24. lia. }
  split; [|split].
  - unfold write_bytes. rewrite Hout. cbn [bind fst snd]. fold info data.
    unfold lz4_max_compressed_size. rewrite Si, Sd.
    destruct (Z.ltb_spec int_max (size out_info)); [unfold int_max in *; lia|].
    destruct (Z.ltb_spec int_max (size out_data)); [unfold int_max in *; lia|].
    cbn [bind]. rewrite !to_int_small by (unfold int_max; lia). fold bi bd.
    unfold sizeof_SaveFileHeader.
    rewrite (wrap_small bi), (wrap_small bd) by lia.
    rewrite (wrap_small (Z.of_nat 24 + bi)) by lia.
    rewrite (wrap_small (Z.of_nat 24 + bi + bd)) by lia.
    rewrite subspan_ok by (rewrite bsize_fresh_buffer by lia; lia).
    assert (L0 : skipn (Z.to_nat (Z.of_nat 24)) (fresh_buffer (Z.of_nat 24 + bi + bd))
                 = fresh_buffer (bi + bd)).
    { unfold fresh_buffer. rewrite skipn_repeat_sub. f_equal. lia. }
    rewrite L0. cbn [bind]. rewrite E1. cbn [bind fst snd]. rewrite L1.
    rewrite subspan_ok.
    2:{ unfold bsize. rewrite length_app. lia. }
    assert (L2 : skipn (Z.to_nat (bsize w1)) (w1 ++ fresh_buffer (bi + bd - bsize w1))
                 = fresh_buffer (bi + bd - bsize w1)).
    { unfold bsize. rewrite Nat2Z.id, skipn_app, skipn_all, Nat.sub_diag. reflexivity. }
    cbn [bind]. rewrite L2, E2. cbn [bind fst snd].
    rewrite subspan_ok by (unfold bsize; rewrite length_app; lia).
    cbn [bind].
    destruct (Z.ltb_spec int_max (bsize w1)); [unfold int_max in *; lia|].
    destruct (Z.ltb_spec int_max (bsize w2)); [unfold int_max in *; lia|].
    cbn [orb]. rewrite !to_int_small by (unfold int_max; lia).
    fold h. f_equal. f_equal. f_equal.
    + unfold bsize. rewrite Nat2Z.id, firstn_app, Nat.sub_diag, firstn_all.
      cbn [firstn]. apply app_nil_r.
    + unfold bsize. rewrite Nat2Z.id, firstn_app, Nat.sub_diag, firstn_all.
      cbn [firstn]. apply app_nil_r.
  - rewrite Hfile. unfold sizeof_SaveFileHeader. lia.
  - pose proof (open_and_decompress_save_cases (header_bytes h ++ w1 ++ w2)) as Hc.
    assert (Hr : header_in_range h).
    { unfold header_in_range, int_range, h. cbn. unfold bsize, size in *.
      repeat split; try lia; vm_compute; congruence. }
    assert (Hh : read_save_file_header (header_bytes h ++ w1 ++ w2) = Ok h).
    { apply read_save_file_header_ok. rewrite (header_of_header_bytes h _ Hr).
      split.
      { rewrite length_app. change (length (header_bytes h)) with 24.
        unfold sizeof_SaveFileHeader. lia. }
      repeat split; cbn; lia. }
    rewrite Hh in Hc. rewrite Hfile in Hc. cbn [h compressed_info_size compressed_data_size
      decompressed_info_size decompressed_data_size] in Hc.
    unfold sizeof_SaveFileHeader in Hc.
    destruct (Z.ltb_spec (24 + bsize w1 + bsize w2) (Z.of_nat 24 + bsize w1 + bsize w2));
      [lia|].
    cbv zeta in Hc. rewrite Hc.
    assert (P0 : skipn 24 (header_bytes h ++ w1 ++ w2) = w1 ++ w2).
    { change 24 with (length (header_bytes h)) at 1.
      rewrite skipn_app, skipn_all, Nat.sub_diag. reflexivity. }
    rewrite P0.
    assert (P1 : firstn (Z.to_nat (bsize w1)) (w1 ++ w2) = w1).
    { unfold bsize. rewrite Nat2Z.id, firstn_app, Nat.sub_diag, firstn_all.
      cbn [firstn]. apply app_nil_r. }
    assert (P2 : firstn (Z.to_nat (bsize w2)) (skipn (Z.to_nat (bsize w1)) (w1 ++ w2)) = w2).
    { unfold bsize. rewrite !Nat2Z.id, skipn_app, skipn_all, Nat.sub_diag.
      cbn [skipn app]. apply firstn_all. }
    rewrite P1, P2. rewrite <- Si, <- Sd.
    rewrite (lz4_decompress_ok w1 info) by (unfold int_max; lia || (rewrite Si; exact D1)).
    cbn [bind].
    rewrite (lz4_decompress_ok w2 data) by (unfold int_max; lia || (rewrite Sd; exact D2)).
    cbn [bind]. unfold info, data. rewrite !as_u8_as_bytes. reflexivity.
Qed.

#[local] Instance stored_codec_lossless : @LZ4_lossless stored_codec.
Proof.
  constructor. intros src capacity Hb Hc.
  cbn [LZ4_compress_default LZ4_compressBound LZ4_decompress_safe stored_codec] in *.
  assert (Hn : (0 <= bsize src)%Z) by (unfold bsize; lia).
  assert (Hd : (0 <= bsize src / 255)%Z) by (apply Z.div_pos; lia).
  destruct (Z.leb_spec (bsize src + 1) capacity); [|lia]. cbn [fst snd].
  assert (Hall : firstn (Z.to_nat (bsize src)) src = src).
  { apply firstn_all2. unfold bsize. lia. }
  rewrite Hall.
  split; [lia|]. split; [unfold bsize; cbn [length]; lia|].
  destruct (Z.leb_spec 1 (bsize src + 1)); [|lia].
  destruct (Z.leb_spec (bsize src + 1 - 1) (bsize src)); [|lia].
  cbn [andb skipn]. replace (bsize src + 1 - 1)%Z with (bsize src) by lia.
  rewrite Hall. reflexivity.
Qed.

(** X21: with a lossless LZ4, when the two new buffers are not empty and at most
    INT_MAX long and their two compression bounds are positive and together
    at most INT_MAX, [SaveFile::write] leaves a file, no longer than the
    header and the two bounds, from which [open_and_decompress_save] gets
    the two new buffers back. *)
Theorem written_file_opens `{LZ4} `{!LZ4_lossless} (sf : SaveFile)
  (new_save_name out_info out_data : u8string) :
  uncompressed_output_of sf new_save_name = Ok (out_info, out_data) ->
  (0 < size out_info <= int_max)%Z -> (0 < size out_data <= int_max)%Z ->
  (0 < LZ4_compressBound (size out_info))%Z -> (0 < LZ4_compressBound (size out_data))%Z ->
  (LZ4_compressBound (size out_info) + LZ4_compressBound (size out_data) <= int_max)%Z ->
  exists file,
    write_bytes sf new_save_name = Ok file
    /\ (bsize file <= Z.of_nat sizeof_SaveFileHeader + LZ4_compressBound (size out_info)
                      + LZ4_compressBound (size out_data))%Z
    /\ open_and_decompress_save file = Ok (out_info, out_data).
Proof.
  intros Hout [Pi Mi] [Pd Md] Bi Bd Bsum.
  apply write_bytes_opens; assumption.
Qed.

Lemma written_file_opens_witness :
  exists file,
    write_bytes example_session (json_of "renamed") = Ok file
    /\ (bsize file <= Z.of_nat sizeof_SaveFileHeader
                      + LZ4_compressBound (size (patched_info example_info 30 7
                                                   (json_of "renamed")))
                      + LZ4_compressBound (size example_data))%Z
    /\ open_and_decompress_save file
       = Ok (patched_info example_info 30 7 (json_of "renamed"), example_data).
Proof.
  apply (written_file_opens example_session (json_of "renamed")
           (patched_info example_info 30 7 (json_of "renamed")) example_data).
  - vm_compute. reflexivity.
  - vm_compute. split; [reflexivity|discriminate].
  - vm_compute. split; [reflexivity|discriminate].
  - vm_compute. reflexivity.
  - vm_compute. reflexivity.
  - vm_compute. discriminate.
Defined.

Lemma open_SaveFile_unchanged (info data : u8string) (sf : SaveFile) :
  open_SaveFile info data = Ok sf ->
  Forall (fun d => position d = original_position d) (drivers_list (drivers sf)).
Proof.
  unfold open_SaveFile.
  destruct (get_save_name info) as [nm|e| |]; cbn [bind]; try discriminate.
  destruct (get_driver_data_from_json data) as [[[d0 d1] d2]|e| |] eqn:E;
    cbn [bind]; try discriminate.
  intros Hopen. inversion Hopen. cbn [drivers].
  destruct (get_driver_data_from_json_fresh data d0 d1 d2 E) as [Hf _].
  eapply Forall_impl; [|exact Hf]. intros d [_ Hd]. exact Hd.
Qed.

(** X22: with a lossless LZ4, a file that opens as a session, written again with
    its own name and no edit, gives a file that opens as the same session,
    when the compression bounds of its two buffers are positive and together
    at most INT_MAX. *)
Theorem unchanged_save_file_round_trip `{LZ4} `{!LZ4_lossless} (file_data : list Byte.byte)
  (sf : SaveFile) :
  SaveFile_of_file file_data = Ok sf ->
  (0 < LZ4_compressBound (size (save_info sf)))%Z ->
  (0 < LZ4_compressBound (size (save_data sf)))%Z ->
  (LZ4_compressBound (size (save_info sf)) + LZ4_compressBound (size (save_data sf))
   <= int_max)%Z ->
  exists file,
    write_bytes sf (save_name_of sf) = Ok file
    /\ SaveFile_of_file file = Ok sf.
Proof.
  intros Hopen Bi Bd Bsum. unfold SaveFile_of_file in Hopen.
  destruct (open_and_decompress_save file_data) as [[info data]| | |] eqn:Hbuf;
    cbn [bind fst snd] in Hopen; try discriminate.
  destruct (open_and_decompress_save_sizes file_data info data Hbuf) as (h & Hh & Si & Sd).
  apply read_save_file_header_ok in Hh.
  destruct Hh as (_ & Hof & _ & _ & (_ & P2 & _ & P4)).
  assert (R2 : int_range (decompressed_info_size h) /\ int_range (decompressed_data_size h)).
  { rewrite Hof. split; apply int_at_range. }
  destruct R2 as [[_ R2] [_ R4]].
  destruct (open_SaveFile_records info data sf [] Hopen) as (K1 & K2 & K3 & _).
  cbn [edits fold_left] in K1, K2, K3.
  assert (Hout : uncompressed_output_of sf (save_name_of sf) = Ok (info, data)).
  { unfold uncompressed_output_of, save_name_of. rewrite K1, K2.
    apply create_uncompressed_output_noop; [lia| |lia].
    apply (open_SaveFile_unchanged info data sf Hopen). }
  rewrite K1 in Bi, Bsum. rewrite K2 in Bd, Bsum.
  assert (Mi : (size info <= int_max)%Z) by (unfold int_max; lia).
  assert (Md : (size data <= int_max)%Z) by (unfold int_max; lia).
  assert (Pi : (0 < size info)%Z) by lia.
  assert (Pd : (0 < size data)%Z) by lia.
  destruct (write_bytes_opens sf (save_name_of sf) info data Hout Pi Pd Bi Bd Mi Md Bsum)
    as (file & W1 & _ & W3).
  exists file. split; [exact W1|].
  unfold SaveFile_of_file. rewrite W3. cbn [bind fst snd]. exact Hopen.
Qed.

Lemma unchanged_save_file_round_trip_witness :
  exists file,
    write_bytes example_session (save_name_of example_session) = Ok file
    /\ SaveFile_of_file file = Ok example_session.
Proof.
  apply (unchanged_save_file_round_trip
           (header_bytes {| magic := mm_save_file_magic; version := 4;
                            compressed_info_size := 1 + size example_info;
                            decompressed_info_size := size example_info;
                            compressed_data_size := 1 + size example_data;
                            decompressed_data_size := size example_data |}
            ++ (Byte.x00 :: as_bytes example_info) ++ (Byte.x00 :: as_bytes example_data))
           example_session).
  - vm_compute. reflexivity.
  - vm_compute. reflexivity.
  - vm_compute. reflexivity.
  - vm_compute. discriminate.
Defined.

(** ** Unique handles *)

Section UniqueHandles.

Context `{HandleTraits}.

Lemma held_perm (f : nat -> Z) (l l' : list nat) :
  Permutation l l' -> Permutation (held f l) (held f l').
Proof.
  intros P. unfold held. induction (Permutation_map f P) as [|x a b _ IH|x y a|a b c _ IH1 _ IH2];
    cbn [filter].
  - constructor.
  - destruct (negb _); [constructor|]; exact IH.
  - destruct (negb (y =? null_value)%Z), (negb (x =? null_value)%Z);
      try reflexivity. apply perm_swap.
  - exact (perm_trans IH1 IH2).
Qed.

Lemma held_ext (f g : nat -> Z) (l : list nat) :
  (forall x, In x l -> f x = g x) -> held f l = held g l.
Proof. intros E. unfold held. f_equal. apply map_ext_in. exact E. Qed.

Lemma held_in (f : nat -> Z) (l : list nat) (a : nat) :
  In a l -> f a <> null_value -> In (f a) (held f l).
Proof.
  intros Ha Hv. unfold held. apply filter_In. split; [apply in_map; exact Ha|].
  apply negb_true_iff, Z.eqb_neq. exact Hv.
Qed.

Lemma live_split (l : list nat) (a : nat) :
  NoDup l -> In a l -> exists rest, Permutation l (a :: rest) /\ ~ In a rest /\ NoDup rest.
Proof.
  intros Hn Ha. destruct (in_split a l Ha) as (l1 & l2 & ->).
  exists (l1 ++ l2). split; [symmetry; apply Permutation_middle|].
  apply NoDup_remove in Hn. tauto.
Qed.

Lemma live_split2 (l : list nat) (a b : nat) :
  NoDup l -> In a l -> In b l -> a <> b ->
  exists rest, Permutation l (a :: b :: rest) /\ ~ In a rest /\ ~ In b rest.
Proof.
  intros Hn Ha Hb Hab. destruct (live_split l a Hn Ha) as (r1 & P1 & N1 & D1).
  assert (Hb1 : In b r1).
  { apply (Permutation_in b P1) in Hb. destruct Hb as [Hb|Hb]; [congruence|exact Hb]. }
  destruct (live_split r1 b D1 Hb1) as (r2 & P2 & N2 & _).
  exists r2. split; [rewrite P1, P2; reflexivity|]. split; [|exact N2].
  intros Hin. apply N1. apply (Permutation_in a (Permutation_sym P2)). right. exact Hin.
Qed.

Lemma held_cons (f : nat -> Z) (a : nat) (l : list nat) :
  held f (a :: l) = valid_part (f a) ++ held f l.
Proof. unfold held, valid_part. cbn [map filter]. destruct (negb _); reflexivity. Qed.

(** The handles held after the members at one address, or at two, have
    changed. *)
Lemma owned_changed_at (st st' : handle_state) (a : nat) :
  NoDup (live st) -> In a (live st) -> live st' = live st ->
  (forall x, x <> a -> handle st' x = handle st x) ->
  exists others,
    Permutation (owned st) (valid_part (handle st a) ++ others)
    /\ Permutation (owned st') (valid_part (handle st' a) ++ others).
Proof.
  intros Hn Ha Hl Hh. destruct (live_split _ _ Hn Ha) as (rest & P & N & _).
  exists (held (handle st) rest). unfold owned. rewrite Hl.
  fold (held (handle st) (live st)). fold (held (handle st') (live st)).
  rewrite !(held_perm _ _ _ P), !held_cons.
  split; [reflexivity|].
  rewrite (held_ext (handle st') (handle st) rest); [reflexivity|].
  intros x Hx. apply Hh. intros ->. contradiction.
Qed.

Lemma owned_changed_at2 (st st' : handle_state) (a b : nat) :
  NoDup (live st) -> In a (live st) -> In b (live st) -> a <> b -> live st' = live st ->
  (forall x, x <> a -> x <> b -> handle st' x = handle st x) ->
  exists others,
    Permutation (owned st)
      (valid_part (handle st a) ++ valid_part (handle st b) ++ others)
    /\ Permutation (owned st')
         (valid_part (handle st' a) ++ valid_part (handle st' b) ++ others).
Proof.
  intros Hn Ha Hb Hab Hl Hh.
  destruct (live_split2 _ _ _ Hn Ha Hb Hab) as (rest & P & Na & Nb).
  exists (held (handle st) rest). unfold owned. rewrite Hl.
  fold (held (handle st) (live st)). fold (held (handle st') (live st)).
  rewrite !(held_perm _ _ _ P), !held_cons.
  split; [reflexivity|].
  rewrite (held_ext (handle st') (handle st) rest); [reflexivity|].
  intros x Hx. apply Hh; intros ->; contradiction.
Qed.

Lemma valid_part_null : valid_part null_value = [].
Proof. unfold valid_part. rewrite Z.eqb_refl. reflexivity. Qed.

Lemma valid_part_valid (h : Z) : h <> null_value -> valid_part h = [h].
Proof. intros Hv. unfold valid_part. apply Z.eqb_neq in Hv. rewrite Hv. reflexivity. Qed.

Lemma accounted_perm (st st' : handle_state) (acc acc' : list Z) :
  handles_accounted st acc -> NoDup (live st') ->
  Permutation (owned st' ++ closed st') (owned st ++ closed st) ->
  Permutation acc acc' ->
  handles_accounted st' acc'.
Proof.
  intros (_ & N & P) Hl Hp Ha. split; [exact Hl|]. split.
  - apply (Permutation_NoDup (Permutation_sym Hp) N).
  - rewrite Hp, P. exact Ha.
Qed.

(** [reset] keeps the account: a handle that was held is now closed. *)
Lemma reset_accounted (st : handle_state) (this : nat) (acc : list Z) :
  handles_accounted st acc -> In this (live st) ->
  handles_accounted (reset st this) acc
  /\ handle (reset st this) this = null_value
  /\ live (reset st this) = live st
  /\ (forall x, x <> this -> handle (reset st this) x = handle st x)
  /\ closed (reset st this) = valid_part (handle st this) ++ closed st.
Proof.
  intros Hacc Hin. pose proof Hacc as (Hn & _ & _).
  unfold reset, is_valid, valid_part.
  destruct (Z.eqb_spec (handle st this) null_value) as [Hnull|Hvalid]; cbn [negb].
  - repeat split; try assumption; try reflexivity; apply Hacc.
  - assert (Hx : forall x, x <> this ->
              handle (set_handle {| handle := handle st; live := live st;
                                    closed := handle st this :: closed st |} this null_value) x
              = handle st x).
    { intros x Hx. cbn [set_handle handle]. apply Nat.eqb_neq in Hx. rewrite Hx. reflexivity. }
    assert (Ht : handle (set_handle {| handle := handle st; live := live st;
                                       closed := handle st this :: closed st |} this null_value)
                   this = null_value).
    { cbn [set_handle handle]. rewrite Nat.eqb_refl. reflexivity. }
    split; [|repeat split; try assumption; reflexivity].
    destruct (owned_changed_at st
                (set_handle {| handle := handle st; live := live st;
                               closed := handle st this :: closed st |} this null_value)
                this Hn Hin eq_refl Hx) as (others & P1 & P2).
    apply (accounted_perm st _ acc acc Hacc); [exact Hn| |reflexivity].
    rewrite P2, Ht, valid_part_null, P1, (valid_part_valid _ Hvalid).
    cbn [set_handle closed app]. symmetry. apply Permutation_middle.
Qed.

Lemma swap_accounted (st : handle_state) (this other : nat) (acc : list Z) :
  handles_accounted st acc -> In this (live st) -> In other (live st) ->
  handles_accounted (swap st this other) acc.
Proof.
  intros Hacc Ha Hb. pose proof Hacc as (Hn & _ & _).
  destruct (Nat.eq_dec this other) as [->|Hab].
  - apply (accounted_perm st _ acc acc Hacc); [exact Hn| |reflexivity].
    unfold owned, swap. cbn [set_handle live closed handle].
    rewrite (map_ext_in _ (handle st)); [reflexivity|].
    intros x _. destruct (Nat.eqb_spec x other) as [->|]; reflexivity.
  - assert (Hx : forall x, x <> this -> x <> other -> handle (swap st this other) x = handle st x).
    { intros x H1 H2. unfold swap. cbn [set_handle handle].
      apply Nat.eqb_neq in H1, H2. rewrite H1, H2. reflexivity. }
    destruct (owned_changed_at2 st (swap st this other) this other Hn Ha Hb Hab eq_refl Hx)
      as (others & P1 & P2).
    apply (accounted_perm st _ acc acc Hacc); [exact Hn| |reflexivity].
    assert (E1 : handle (swap st this other) this = handle st other).
    { unfold swap. cbn [set_handle handle]. rewrite Nat.eqb_refl.
      destruct (Nat.eqb_spec this other); [contradiction|reflexivity]. }
    assert (E2 : handle (swap st this other) other = handle st this).
    { unfold swap. cbn [set_handle handle]. rewrite Nat.eqb_refl. reflexivity. }
    rewrite P2, P1, E1, E2.
    change (closed (swap st this other)) with (closed st).
    rewrite !app_assoc. apply Permutation_app_tail.
    apply Permutation_app_tail. apply Permutation_app_comm.
Qed.

Lemma construct_from_accounted (st : handle_state) (this : nat) (h : Z) (acc : list Z) :
  handles_accounted st acc -> ~ In this (live st) ->
  (h = null_value \/ (~ In h (owned st) /\ ~ In h (closed st))) ->
  handles_accounted (construct_from st this h) (acc ++ valid_part h).
Proof.
  intros (Hn & Hd & Hp) Hnew Hfresh.
  assert (Ho : owned (construct_from st this h) = valid_part h ++ owned st).
  { unfold owned, construct_from. cbn [live handle].
    change (held (fun a => if a =? this then h else handle st a) (this :: live st)
            = valid_part h ++ held (handle st) (live st)).
    rewrite held_cons. rewrite Nat.eqb_refl. f_equal. apply held_ext.
    intros x Hx. destruct (Nat.eqb_spec x this) as [->|]; [contradiction|reflexivity]. }
  split; [constructor; assumption|]. rewrite Ho. cbn [construct_from closed].
  rewrite <- app_assoc. split.
  - unfold valid_part. destruct (Z.eqb_spec h null_value) as [|Hv]; cbn [negb app];
      [exact Hd|].
    constructor; [|exact Hd]. destruct Hfresh as [|[F1 F2]]; [contradiction|].
    intros Hin. apply in_app_or in Hin. tauto.
  - rewrite Hp. apply Permutation_app_comm.
Qed.

Lemma acquired_valid_part (h : Z) :
  (if (h =? null_value)%Z then [] else [h]) = valid_part h.
Proof. unfold valid_part. destruct (h =? null_value)%Z; reflexivity. Qed.

(** Each operation keeps the account. *)
Lemma run_op_accounted (st : handle_state) (o : handle_op) (acc : list Z) :
  handles_accounted st acc -> op_allowed st o ->
  handles_accounted (run_op st o) (acc ++ acquired_by o).
Proof.
  intros Hacc Hop. pose proof Hacc as (Hn & Hd & Hp).
  destruct o as [this|this h|this other|this other|this h|this|this other|this];
    cbn [run_op acquired_by op_allowed] in *.
  - (* construct *)
    rewrite app_nil_r.
    pose proof (construct_from_accounted st this null_value acc Hacc Hop (or_introl eq_refl))
      as Hc.
    rewrite valid_part_null, app_nil_r in Hc. exact Hc.
  - (* construct from a handle *)
    destruct Hop as [Hnew Hfresh]. rewrite acquired_valid_part.
    apply (construct_from_accounted st this h acc Hacc Hnew Hfresh).
  - (* move construct *)
    rewrite app_nil_r. destruct Hop as [Hnew Hother].
    pose proof (construct_from_accounted st this null_value acc Hacc Hnew (or_introl eq_refl))
      as Hc.
    rewrite valid_part_null, app_nil_r in Hc.
    apply (swap_accounted (construct st this) this other acc Hc);
      cbn [construct live]; [left; reflexivity|right; exact Hother].
  - (* move assign *)
    rewrite app_nil_r. destruct Hop as [Hthis Hother]. unfold move_assign.
    destruct (Nat.eqb_spec this other) as [|Hne]; cbn [negb]; [exact Hacc|].
    destruct (reset_accounted st this acc Hacc Hthis) as (R1 & _ & R3 & _).
    apply (swap_accounted (reset st this) this other acc R1); rewrite R3; assumption.
  - (* assign a handle *)
    destruct Hop as [Hthis Hfresh]. unfold assign_handle.
    destruct (reset_accounted st this acc Hacc Hthis) as (R1 & R2 & R3 & R4 & R5).
    pose proof R1 as (Rn & Rd & Rp).
    assert (Hx : forall x, x <> this ->
              handle (set_handle (reset st this) this h) x = handle (reset st this) x).
    { intros x Hx. cbn [set_handle handle]. apply Nat.eqb_neq in Hx. rewrite Hx. reflexivity. }
    assert (Hin : In this (live (reset st this))) by (rewrite R3; exact Hthis).
    destruct (owned_changed_at (reset st this) (set_handle (reset st this) this h) this
                Rn Hin eq_refl Hx) as (others & P1 & P2).
    rewrite R2, valid_part_null in P1. cbn [app] in P1.
    assert (Ht : handle (set_handle (reset st this) this h) this = h).
    { cbn [set_handle handle]. rewrite Nat.eqb_refl. reflexivity. }
    rewrite Ht in P2.
    assert (Hfresh' : h = null_value
                      \/ (~ In h (owned (reset st this)) /\ ~ In h (closed (reset st this)))).
    { destruct Hfresh as [|[F1 F2]]; [left; assumption|].
      destruct (Z.eq_dec h null_value) as [|Hv]; [left; assumption|]. right.
      assert (Hsame : Permutation (owned (reset st this) ++ closed (reset st this))
                        (owned st ++ closed st)).
      { rewrite Rp, Hp. reflexivity. }
      assert (Hnot : ~ In h (owned (reset st this) ++ closed (reset st this))).
      { intros Hi. apply (Permutation_in h Hsame) in Hi. apply in_app_or in Hi. tauto. }
      split; intros Hi; apply Hnot; apply in_or_app; [left|right]; exact Hi. }
    split; [cbn [set_handle live]; exact Rn|].
    rewrite acquired_valid_part.
    assert (Hperm : Permutation (owned (set_handle (reset st this) this h)
                                 ++ closed (set_handle (reset st this) this h))
                      (valid_part h ++ owned (reset st this) ++ closed (reset st this))).
    { rewrite P2, P1. cbn [set_handle closed]. rewrite <- app_assoc. reflexivity. }
    split.
    + apply (Permutation_NoDup (Permutation_sym Hperm)).
      unfold valid_part. destruct (Z.eqb_spec h null_value) as [|Hv]; cbn [negb app];
        [exact Rd|].
      constructor; [|exact Rd]. destruct Hfresh' as [|[F1 F2]]; [contradiction|].
      intros Hi. apply in_app_or in Hi. tauto.
    + rewrite Hperm, Rp. apply Permutation_app_comm.
  - (* reset *)
    rewrite app_nil_r. apply (reset_accounted st this acc Hacc Hop).
  - (* swap *)
    rewrite app_nil_r. destruct Hop as [Ha Hb]. apply (swap_accounted st this other acc Hacc Ha Hb).
  - (* destroy *)
    rewrite app_nil_r. unfold destroy.
    destruct (reset_accounted st this acc Hacc Hop) as (R1 & R2 & R3 & R4 & R5).
    pose proof R1 as (Rn & Rd & Rp).
    set (st1 := reset st this) in *.
    assert (Hin : In this (live st1)) by (rewrite R3; exact Hop).
    destruct (live_split _ _ Rn Hin) as (rest & P & N & D).
    assert (Hf : Permutation (filter (fun a => negb (a =? this)) (live st1)) rest).
    { assert (Hfp : forall l l' : list nat, Permutation l l' ->
                Permutation (filter (fun a => negb (a =? this)) l)
                            (filter (fun a => negb (a =? this)) l')).
      { intros l l' Q. induction Q as [|x a b _ IH|x y a|a b c _ IH1 _ IH2]; cbn [filter].
        - constructor.
        - destruct (negb _); [constructor|]; exact IH.
        - destruct (negb (y =? this)), (negb (x =? this)); try reflexivity. apply perm_swap.
        - exact (perm_trans IH1 IH2). }
      rewrite (Hfp _ _ P). cbn [filter]. rewrite Nat.eqb_refl. cbn [negb].
      rewrite forallb_filter_id; [reflexivity|].
      apply forallb_forall. intros x Hx. apply negb_true_iff, Nat.eqb_neq.
      intros ->. contradiction. }
    assert (Ho : Permutation
                   (owned {| handle := handle st1;
                             live := filter (fun a => negb (a =? this)) (live st1);
                             closed := closed st1 |})
                   (owned st1)).
    { unfold owned. cbn [handle live].
      fold (held (handle st1) (filter (fun a => negb (a =? this)) (live st1))).
      fold (held (handle st1) (live st1)).
      rewrite (held_perm _ _ _ Hf), (held_perm _ _ _ P), held_cons, R2, valid_part_null.
      reflexivity. }
    split.
    { cbn [live]. apply (Permutation_NoDup (Permutation_sym Hf) D). }
    cbn [closed]. split.
    + apply (Permutation_NoDup
               (Permutation_sym (Permutation_app_tail (closed st1) Ho)) Rd).
    + rewrite Ho. exact Rp.
Qed.

Lemma run_ops_accounted :
  forall (ops : list handle_op) (st : handle_state) (acc : list Z),
    handles_accounted st acc -> ops_allowed st ops ->
    handles_accounted (run_ops st ops) (acc ++ acquired ops).
Proof.
  induction ops as [|o ops IH]; intros st acc Hacc Hall; cbn [run_ops fold_left acquired flat_map].
  - rewrite app_nil_r. exact Hacc.
  - destruct Hall as [Ho Hrest]. rewrite app_assoc.
    apply (IH (run_op st o) (acc ++ acquired_by o)); [|exact Hrest].
    apply run_op_accounted; assumption.
Qed.

End UniqueHandles.

(** X23: however the objects of a [UniqueHandle] type are constructed, moved,
    assigned, swapped, reset and destroyed, as long as a handle that is
    handed over to an object is null or one that no object holds and that
    has not been closed: no handle is held by two objects, none is held after
    it has been closed, none is closed twice, and the handles held or closed
    are exactly the valid ones handed over.  Once no object is left alive,
    every valid handle handed over has been closed exactly once.  The
    condition on the handles is needed: an object that is assigned the valid
    handle it holds closes it and goes on holding it. *)
Theorem unique_handles_closed_once `{HandleTraits} (ops : list handle_op) :
  (ops_allowed no_objects ops ->
   handles_accounted (run_ops no_objects ops) (acquired ops)
   /\ (live (run_ops no_objects ops) = [] ->
       NoDup (closed (run_ops no_objects ops))
       /\ Permutation (closed (run_ops no_objects ops)) (acquired ops)))
  /\ forall st this,
       In this (live st) -> is_valid st this = true ->
       get (assign_handle st this (get st this)) this = get st this
       /\ In (get st this) (closed (assign_handle st this (get st this)))
       /\ In (get st this) (owned (assign_handle st this (get st this))).
Proof.
  split.
  - intros Hall.
    assert (H0 : handles_accounted no_objects []).
    { unfold handles_accounted, owned, no_objects. cbn. repeat split; constructor. }
    pose proof (run_ops_accounted ops no_objects [] H0 Hall) as Hacc. cbn [app] in Hacc.
    split; [exact Hacc|]. intros Hlive. destruct Hacc as (_ & Hd & Hp).
    unfold owned in Hd, Hp. rewrite Hlive in Hd, Hp. cbn [map filter app] in Hd, Hp.
    split; assumption.
  - intros st this Hin Hvalid. unfold assign_handle, reset, get. rewrite Hvalid.
    cbn [set_handle handle closed]. rewrite Nat.eqb_refl.
    split; [reflexivity|]. split; [left; reflexivity|].
    unfold owned. cbn [live handle].
    apply filter_In. split; [|exact Hvalid].
    apply in_map_iff. exists this. split; [|exact Hin].
    cbn [set_handle handle]. rewrite Nat.eqb_refl. reflexivity.
Qed.

Lemma unique_handles_closed_once_witness :
  Permutation
    (closed (run_ops no_objects
               [OpConstructFrom 0 7; OpConstruct 2; OpMoveConstruct 1 0; OpDestroy 0;
                OpAssignHandle 1 9; OpMoveAssign 2 1; OpDestroy 1; OpDestroy 2]))
    [7; 9]%Z.
Proof.
  refine (proj2 (proj2 (proj1 (unique_handles_closed_once
                                 [OpConstructFrom 0 7; OpConstruct 2; OpMoveConstruct 1 0;
                                  OpDestroy 0; OpAssignHandle 1 9; OpMoveAssign 2 1;
                                  OpDestroy 1; OpDestroy 2]) _) _)).
  - vm_compute. intuition discriminate.
  - reflexivity.
Defined.

(* ------------------------------------------------------------------------- *)
(** * The drivers of a buffer of objects as they are written *)

(** ** Strings *)






(** ** The forward brace scan, step by step *)



















(** ** A member where it stands *)














(** ** The walk over the members of an object *)


Section WalkMembers.

Context {St : Type}.
Variable callback : KeyValueCallback St.
Variable json : u8string.




End WalkMembers.

(** ** The fields that the walk gathers *)









(** ** Where the members of an object stand *)







(** ** The object that encloses a reference *)








(** ** The record of a reference *)








(** ** C4: the drivers that are extracted *)


